(** * URL probe scripts: [modified_script.py] and [wm_script.py]

    A shallow embedding of the two probe scripts and the properties their
    specification states about them.

    - Python values are modelled by the Rocq types closest to them: [int] by
      [Z], [str] by [string], lists by [list], [datetime] values at midnight
      by a record of year, month and day.
    - Exceptions are explicit: fallible code returns [result].
    - The process-wide globals ([should_stop], [VALID_LINKS]), the clock and
      the files live in a [world] record that is threaded through the code,
      together with a trace of what the process did.
    - The main thread is a function.  Whatever runs beside it (the signal,
      the clock, the workers of the pool, the network) is a schedule, a list
      of [action]s, which the main thread absorbs where it blocks: in
      [as_completed] and when it leaves the [with] block of the pool.  When
      the schedule is silent a request gets no answer and ends on its
      timeout, and an idle worker takes the next queued future, so every
      loop of the model ends and every run has a result.
    - The while loops over the dates take fuel; the fuel given is enough
      (lemmas [batches_fuel], [february_loop_fuel], [wm_main_total] and
      [modified_main_total]). *)

From Stdlib Require Import ZArith List String Ascii Bool Lia QArith DecimalString.
From Stdlib Require Import Permutation.
Import ListNotations.
Local Open Scope string_scope.
Local Open Scope list_scope.
Local Open Scope Z_scope.

Ltac Zify.zify_post_hook ::= Z.to_euclidean_division_equations.

(** ** Exceptions *)

(** The [ValueError]s of the scripts, told apart by what raised them. *)
Inductive reason :=
| BadDateFormat        (* strptime / validate_date *)
| EndDateBeforeStart   (* validate_date_range *)
| FebruaryOverflow     (* validate_date_range, the February check *)
| BadTimeFormat        (* validate_time *)
| HourOutOfRange       (* validate_time *)
| MinuteInvalid        (* validate_time *)
| SecondInvalid        (* validate_time *)
| EndTimeBeforeStart   (* generate_time_numbers *)
| BadIntLiteral        (* int() on a string that is not a number *)
| BadMaxWorkers.       (* ThreadPoolExecutor(max_workers <= 0) *)

Inductive exn :=
| ValueError (r : reason)
| OverflowError        (* datetime + timedelta past 9999-12-31 *)
| OutOfFuel.           (* a loop of the model ran out of fuel; never raised, see the fuel lemmas *)

Inductive result (A : Type) :=
| Ok (a : A)
| Err (e : exn).
Arguments Ok {A} a.
Arguments Err {A} e.

Definition bind {A B} (r : result A) (k : A -> result B) : result B :=
  match r with
  | Ok a => k a
  | Err e => Err e
  end.

Notation "x <- r ;; k" := (bind r (fun x => k))
  (at level 61, r at next level, right associativity).

(** ** Python strings and integers *)

Definition is_digit (c : ascii) : bool :=
  (48 <=? nat_of_ascii c)%nat && (nat_of_ascii c <=? 57)%nat.

Definition digit_value (c : ascii) : Z := Z.of_nat (nat_of_ascii c) - 48.

Fixpoint all_digits (s : string) : bool :=
  match s with
  | EmptyString => true
  | String c s' => is_digit c && all_digits s'
  end.

(** [str.isdigit()]: non-empty and made of digits (ASCII digits here). *)
Definition isdigit (s : string) : bool :=
  match s with
  | EmptyString => false
  | _ => all_digits s
  end.

Fixpoint int_acc (s : string) (acc : Z) : Z :=
  match s with
  | EmptyString => acc
  | String c s' => int_acc s' (10 * acc + digit_value c)
  end.

(** [int(s)] on a string of decimal digits; anything else raises
    [ValueError].  (Python also accepts a sign, surrounding blanks and
    underscores; the scripts' time fields are digit pairs.) *)
Definition int (s : string) : result Z :=
  if isdigit s then Ok (int_acc s 0) else Err (ValueError BadIntLiteral).

(** [s[lo:hi]] for [0 <= lo <= hi], truncated at the end of [s]. *)
Definition slice (s : string) (lo hi : nat) : string := substring lo (hi - lo) s.

Fixpoint zeros (k : nat) : string :=
  match k with
  | O => EmptyString
  | S k' => String "0" (zeros k')
  end.

(** The format specification [0wd]: sign, then zeros up to width [w], then
    the decimal digits. *)
Definition fmt_0d (w : nat) (n : Z) : string :=
  let sign := if n <? 0 then "-" else "" in
  let ds := NilZero.string_of_uint (N.to_uint (Z.to_N (Z.abs n))) in
  (sign ++ zeros (w - String.length sign - String.length ds) ++ ds)%string.

(** ["\n".join(l)] *)
Fixpoint join (sep : string) (l : list string) : string :=
  match l with
  | [] => ""
  | [x] => x
  | x :: rest => (x ++ sep ++ join sep rest)%string
  end.

(** [range(a, b)] *)
Definition range (a b : Z) : list Z :=
  map (fun i => a + Z.of_nat i) (seq 0 (Z.to_nat (b - a))).

(** ** [datetime] at midnight *)

Record datetime := mkdate { year : Z; month : Z; day : Z }.

(** modified_script.py, [is_leap_year] *)
Definition is_leap_year (y : Z) : bool :=
  (y mod 4 =? 0) && (negb (y mod 100 =? 0) || (y mod 400 =? 0)).

Definition days_in_month (y m : Z) : Z :=
  match m with
  | 2 => if is_leap_year y then 29 else 28
  | 4 | 6 | 9 | 11 => 30
  | _ => 31
  end.

(** The dates a [datetime] can hold: years 1 to 9999 of the proleptic
    Gregorian calendar. *)
Definition valid_date (d : datetime) : bool :=
  (1 <=? year d) && (year d <=? 9999) &&
  (1 <=? month d) && (month d <=? 12) &&
  (1 <=? day d) && (day d <=? days_in_month (year d) (month d)).

(** [a <= b] and [a > b] on datetimes: lexicographic on year, month, day. *)
Definition date_le (a b : datetime) : bool :=
  (year a <? year b) ||
  ((year a =? year b) &&
   ((month a <? month b) || ((month a =? month b) && (day a <=? day b)))).

Definition date_gt (a b : datetime) : bool := negb (date_le a b).

(** [d + timedelta(days=1)]: the next calendar day, [OverflowError] after
    9999-12-31. *)
Definition add_one_day (d : datetime) : result datetime :=
  if day d <? days_in_month (year d) (month d)
  then Ok (mkdate (year d) (month d) (day d + 1))
  else if month d <? 12
  then Ok (mkdate (year d) (month d + 1) 1)
  else if year d <? 9999
  then Ok (mkdate (year d + 1) 1 1)
  else Err OverflowError.

Definition days_before_year (y : Z) : Z :=
  let y' := y - 1 in y' * 365 + y' / 4 - y' / 100 + y' / 400.

Definition days_before_month (y m : Z) : Z :=
  match m with
  | 1 => 0 | 2 => 31 | 3 => 59 | 4 => 90 | 5 => 120 | 6 => 151
  | 7 => 181 | 8 => 212 | 9 => 243 | 10 => 273 | 11 => 304 | _ => 334
  end + (if (2 <? m) && is_leap_year y then 1 else 0).

(** [d.toordinal()]: day number, 0001-01-01 being day 1.  The difference of
    two ordinals is the number of days between two dates. *)
Definition toordinal (d : datetime) : Z :=
  days_before_year (year d) + days_before_month (year d) (month d) + day d.

(** [d.strftime('%Y%m%d')] *)
Definition strftime (d : datetime) : string :=
  (fmt_0d 4 (year d) ++ fmt_0d 2 (month d) ++ fmt_0d 2 (day d))%string.

(** [datetime.strptime(s, "%Y%m%d")] on the eight-digit form [YYYYMMDD];
    any other string, and any day that is not in the calendar, raises
    [ValueError]. *)
Definition strptime (s : string) : result datetime :=
  if (String.length s =? 8)%nat && all_digits s then
    let d := mkdate (int_acc (slice s 0 4) 0) (int_acc (slice s 4 6) 0)
                    (int_acc (slice s 6 8) 0) in
    if valid_date d then Ok d else Err (ValueError BadDateFormat)
  else Err (ValueError BadDateFormat).

(** Number of iterations of a [while current <= end: ...; current += 1 day]
    loop, plus one for the failing test. *)
Definition span (current end_date : datetime) : nat :=
  S (Z.to_nat (toordinal end_date - toordinal current + 1)).

(** ** [generate_time_numbers] (the same text in both scripts) *)

Definition seconds_of (t : string) : result Z :=
  h <- int (slice t 0 2) ;;
  m <- int (slice t 2 4) ;;
  s <- int (slice t 4 6) ;;
  Ok (h * 3600 + m * 60 + s).

Definition time_number (sec : Z) : string :=
  let hour := sec / 3600 in
  let minute := (sec mod 3600) / 60 in
  let second := sec mod 60 in
  (fmt_0d 2 hour ++ fmt_0d 2 minute ++ fmt_0d 2 second)%string.

Definition generate_time_numbers (start_time end_time : string)
  : result (list string) :=
  start_sec <- seconds_of start_time ;;
  end_sec <- seconds_of end_time ;;
  if end_sec <? start_sec
  then Err (ValueError EndTimeBeforeStart)
  else Ok (map time_number (range start_sec (end_sec + 1))).

(** ** The retry session ([urllib3.util.retry.Retry] behind [requests]) *)

Record Retry := {
  total : nat;
  backoff_factor : Q;
  status_forcelist : list Z;
  allowed_methods : list string
}.

Record session := {
  max_retries : Retry;
  pool_connections : Z;
  pool_maxsize : Z;
  pool_block : bool
}.

(** What one HTTP attempt gives: a status line, or no answer (connection
    refused, reset or timed out). *)
Inductive attempt :=
| Reply (status : Z)
| NoAnswer.

Inductive request_exception :=
| RetryError        (* too many answers with a status of the force list *)
| ConnectionError.  (* too many attempts without an answer *)

(** What [session.head(url, timeout=...)] gives its caller. *)
Inductive response :=
| Response (status_code : Z)
| RequestException (e : request_exception).

(** [Retry.is_retry(method, status_code)], for an answer without a
    [Retry-After] header. *)
Definition is_retry (r : Retry) (method : string) (status : Z) : bool :=
  existsb (String.eqb method) (allowed_methods r) &&
  existsb (Z.eqb status) (status_forcelist r).

(** The retry loop of [urlopen]: [left] is the retry counter, which starts
    at [total] and is decremented by [Retry.increment] after every attempt
    that has to be repeated; the request fails when the counter would drop
    below zero.  The result comes with the number of attempts sent.  An
    attempt the network never answers is [NoAnswer]. *)
Fixpoint urlopen (r : Retry) (left : nat) (attempts : list attempt)
  : response * nat :=
  match hd NoAnswer attempts with
  | Reply s =>
      if is_retry r "HEAD" s then
        match left with
        | O => (RequestException RetryError, 1%nat)
        | S left' =>
            let '(resp, n) := urlopen r left' (tl attempts) in (resp, S n)
        end
      else (Response s, 1%nat)
  | NoAnswer =>
      match left with
      | O => (RequestException ConnectionError, 1%nat)
      | S left' =>
          let '(resp, n) := urlopen r left' (tl attempts) in (resp, S n)
      end
  end.

Definition session_head (s : session) (attempts : list attempt) : response :=
  fst (urlopen (max_retries s) (total (max_retries s)) attempts).

(** ** The process state *)

Inductive event :=
| EvSignal                              (* the SIGINT handler ran *)
| EvSubmit (filehead time_str : string) (* executor.submit of one target *)
| EvProbe (url : string)                (* a worker calls session.head(url) *)
| EvDone (url : string) (r : response)  (* that call returned or raised *)
| EvSave (content : string)             (* the resume file is overwritten *)
| EvWrite (content : string).           (* OUTPUT_FILE is overwritten *)

Record world := {
  should_stop : bool;
  VALID_LINKS : list string;
  now : Z;                          (* time.time(), in seconds *)
  files : list (string * string);   (* path, content *)
  trace : list event                (* what happened so far, oldest first *)
}.

Definition OUTPUT_FILE : string := "valid_links.txt".

(** A fresh process: the module-level assignments of both scripts. *)
Definition boot (clock : Z) (disk : list (string * string)) : world :=
  {| should_stop := false; VALID_LINKS := []; now := clock;
     files := disk; trace := [] |}.

Definition log (e : event) (w : world) : world :=
  {| should_stop := should_stop w; VALID_LINKS := VALID_LINKS w;
     now := now w; files := files w; trace := trace w ++ [e] |}.

(** Both scripts, [signal_handler] *)
Definition signal_handler (w : world) : world :=
  log EvSignal
    {| should_stop := true; VALID_LINKS := VALID_LINKS w;
       now := now w; files := files w; trace := trace w |}.

Definition tick (dt : N) (w : world) : world :=
  {| should_stop := should_stop w; VALID_LINKS := VALID_LINKS w;
     now := now w + Z.of_N dt; files := files w; trace := trace w |}.

(** [VALID_LINKS.append(url)] *)
Definition append_link (url : string) (w : world) : world :=
  {| should_stop := should_stop w; VALID_LINKS := VALID_LINKS w ++ [url];
     now := now w; files := files w; trace := trace w |}.

Fixpoint read_file (path : string) (disk : list (string * string))
  : option string :=
  match disk with
  | [] => None
  | (p, c) :: rest => if String.eqb p path then Some c else read_file path rest
  end.

(** [open(path, 'w').write(content)] *)
Definition write_file (path content : string) (w : world) : world :=
  {| should_stop := should_stop w; VALID_LINKS := VALID_LINKS w;
     now := now w;
     files := (path, content) ::
              filter (fun pc => negb (String.eqb (fst pc) path)) (files w);
     trace := trace w |}.

Definition newline : string := String "010" EmptyString.

(** The last lines of both [main]s: the result file, one URL per line. *)
Definition write_output (w : world) : world :=
  let content := join newline (VALID_LINKS w) in
  log (EvWrite content) (write_file OUTPUT_FILE content w).

(** The environment variables [WM_DOMAIN] and [WM_PATH]. *)
Record environ := {
  WM_DOMAIN : option string;
  WM_PATH : option string
}.

(** An f-string field holding [os.getenv(...)]: [None] prints as "None". *)
Definition fmt_opt (o : option string) : string :=
  match o with
  | Some s => s
  | None => "None"
  end.

(** [generate_url] and [generate_wm_url] (the same text) *)
Definition generate_url (env : environ) (filehead time_str : string) : string :=
  ("https://" ++ fmt_opt (WM_DOMAIN env) ++ fmt_opt (WM_PATH env) ++
   filehead ++ time_str ++ "_0.opt")%string.

(** Python values returned by the two link checkers. *)
Inductive pyval :=
| PyBool (b : bool)
| PyNone
| PyStr (s : string).

Definition truthy (v : pyval) : bool :=
  match v with
  | PyBool b => b
  | PyNone => false
  | PyStr s => negb (String.eqb s "")
  end.

(** ** [ThreadPoolExecutor] and [as_completed] *)

(** A submitted call [check(filehead, time_str)]. *)
Record future := {
  fid : nat;
  filehead : string;
  time_str : string
}.

Record pool := {
  queued : list future;              (* submitted, no worker has taken it *)
  running : list (future * string);  (* its request for a URL is on the wire *)
  finished : list (future * pyval)   (* done and not yet yielded, oldest first *)
}.

Definition no_pool : pool := {| queued := []; running := []; finished := [] |}.

(** The function the workers run, cut at its one blocking call: what it
    does before [session.head] (return at once, or send the request for a
    URL) and what it does with the outcome. *)
Record worker := {
  before_request : future -> world -> pyval + string;
  the_session : session;
  after_request : string -> response -> world -> pyval * world
}.

(** What the rest of the process does while the main thread is blocked. *)
Inductive action :=
| Signal                                   (* SIGINT is delivered *)
| Tick (dt : N)                            (* dt seconds pass *)
| Start                                    (* an idle worker takes the next queued future *)
| Finish (k : nat) (net : list attempt)    (* the request of future k comes back *)
| Resume.                                  (* the main thread runs again *)

Definition start_next (wk : worker) (max_workers : Z) (w : world) (p : pool)
  : world * pool :=
  match queued p with
  | [] => (w, p)
  | f :: q =>
      if Z.of_nat (List.length (running p)) <? max_workers then
        match before_request wk f w with
        | inl v =>
            (w, {| queued := q; running := running p;
                   finished := finished p ++ [(f, v)] |})
        | inr url =>
            (log (EvProbe url) w,
             {| queued := q; running := running p ++ [(f, url)];
                finished := finished p |})
        end
      else (w, p)
  end.

(** The future with identifier [k] among those on the wire, and the others. *)
Fixpoint take_out (k : nat) (l : list (future * string))
  : option (future * string * list (future * string)) :=
  match l with
  | [] => None
  | x :: rest =>
      if Nat.eqb (fid (fst x)) k then Some (x, rest)
      else
        match take_out k rest with
        | Some (y, others) => Some (y, x :: others)
        | None => None
        end
  end.

Definition finish (wk : worker) (k : nat) (net : list attempt)
  (w : world) (p : pool) : world * pool :=
  match take_out k (running p) with
  | None => (w, p)
  | Some (f, url, others) =>
      let resp := session_head (the_session wk) net in
      let '(v, w') := after_request wk url resp (log (EvDone url resp) w) in
      (w', {| queued := queued p; running := others;
              finished := finished p ++ [(f, v)] |})
  end.

Definition act (wk : worker) (max_workers : Z) (a : action)
  (w : world) (p : pool) : world * pool :=
  match a with
  | Signal => (signal_handler w, p)
  | Tick dt => (tick dt w, p)
  | Start => start_next wk max_workers w p
  | Finish k net => finish wk k net w p
  | Resume => (w, p)
  end.

(** The main thread blocks: the schedule runs up to its next [Resume]. *)
Fixpoint absorb (wk : worker) (max_workers : Z) (sched : list action)
  (w : world) (p : pool) : world * pool * list action :=
  match sched with
  | [] => (w, p, [])
  | Resume :: rest => (w, p, rest)
  | a :: rest =>
      let '(w', p') := act wk max_workers a w p in
      absorb wk max_workers rest w' p'
  end.

(** [as_completed] has nothing to yield and the schedule says nothing more:
    the oldest request on the wire gets no answer (its timeout expires), or,
    if no request is on the wire, an idle worker takes the next queued
    future and its request gets no answer. *)
Definition settle (wk : worker) (max_workers : Z) (w : world) (p : pool)
  : world * pool :=
  match finished p with
  | _ :: _ => (w, p)
  | [] =>
      match running p with
      | (f, _) :: _ => finish wk (fid f) [] w p
      | [] =>
          let '(w1, p1) := start_next wk max_workers w p in
          match finished p1, running p1 with
          | [], (f, _) :: _ => finish wk (fid f) [] w1 p1
          | _, _ => (w1, p1)
          end
      end
  end.

(** [shutdown(wait=True)] once the schedule is silent: every future that is
    left runs to its end, requests on the wire first. *)
Fixpoint drain (wk : worker) (max_workers : Z) (n : nat) (w : world) (p : pool)
  : world * pool :=
  match n with
  | O => (w, p)
  | S n' =>
      match running p, queued p with
      | (f, _) :: _, _ =>
          let '(w1, p1) := finish wk (fid f) [] w p in
          drain wk max_workers n' w1 p1
      | [], _ :: _ =>
          let '(w1, p1) := start_next wk max_workers w p in
          drain wk max_workers n' w1 p1
      | [], [] => (w, p)
      end
  end.

(** Leaving [with ThreadPoolExecutor(...) as executor]: the main thread
    waits for the workers. *)
Definition join_workers (wk : worker) (max_workers : Z) (sched : list action)
  (w : world) (p : pool) : world * list action :=
  let '(w1, p1, sched1) := absorb wk max_workers sched w p in
  let '(w2, _) :=
    drain wk max_workers
          (2 * List.length (queued p1) + List.length (running p1)) w1 p1 in
  (w2, sched1).

(** [executor.submit(check, fh, tn)] for each target, in order; future
    identifiers count from [k]. *)
Fixpoint submit_all (k : nat) (tasks : list (string * string))
  (w : world) (p : pool) : world * pool :=
  match tasks with
  | [] => (w, p)
  | (fh, tn) :: rest =>
      submit_all (S k) rest (log (EvSubmit fh tn) w)
        {| queued := queued p ++ [{| fid := k; filehead := fh; time_str := tn |}];
           running := running p; finished := finished p |}
  end.

(** [f.cancel()] on every future, or [shutdown(cancel_futures=True)]: the
    futures no worker has taken are dropped. *)
Definition cancel_pending (p : pool) : pool :=
  {| queued := []; running := running p; finished := finished p |}.

(** How a run of [main] ends. *)
Inductive exit :=
| Exit0                     (* main returns *)
| SysExit1 (e : exn)        (* the handler prints e and calls sys.exit(1) *)
| Uncaught (e : exn).       (* e leaves main: traceback, exit status 1 *)

(** ** modified_script.py *)

Module ModifiedScript.

Record args := {
  base : string;
  start_date : string;
  end_date : string;
  start_time : string;
  end_time : string;
  workers : Z
}.

Definition validate_date (date_str : string) : result datetime :=
  strptime date_str.

Fixpoint february_loop (fuel : nat) (current end_date : datetime)
  : result unit :=
  match fuel with
  | O => Err OutOfFuel
  | S fuel' =>
      if date_le current end_date then
        let feb_days := if is_leap_year (year current) then 29 else 28 in
        if (month current =? 2) && (feb_days <? day current)
        then Err (ValueError FebruaryOverflow)
        else
          next <- add_one_day current ;;
          february_loop fuel' next end_date
      else Ok tt
  end.

Definition validate_date_range (start_date end_date : datetime) : result unit :=
  if date_gt start_date end_date
  then Err (ValueError EndDateBeforeStart)
  else february_loop (span start_date end_date) start_date end_date.

Definition validate_time (time_str : string) : result string :=
  if negb (String.length time_str =? 6)%nat || negb (isdigit time_str)
  then Err (ValueError BadTimeFormat)
  else
    hour <- int (slice time_str 0 2) ;;
    minute <- int (slice time_str 2 4) ;;
    second <- int (slice time_str 4 6) ;;
    if negb ((0 <=? hour) && (hour <=? 23)) then Err (ValueError HourOutOfRange)
    else if negb ((0 <=? minute) && (minute <=? 59)) then Err (ValueError MinuteInvalid)
    else if negb ((0 <=? second) && (second <=? 59)) then Err (ValueError SecondInvalid)
    else Ok (fmt_0d 2 hour ++ fmt_0d 2 minute ++ fmt_0d 2 second)%string.

Definition create_retry_session : session :=
  {| max_retries :=
       {| total := 3; backoff_factor := 3 # 10;
          status_forcelist := [500; 502; 503; 504];
          allowed_methods := ["HEAD"%string] |};
     pool_connections := 50; pool_maxsize := 100; pool_block := false |}.

(** [check_link] up to its request: the stop flag is read first. *)
Definition check_link_before (env : environ) (f : future) (w : world)
  : pyval + string :=
  if should_stop w then inl (PyBool false)
  else inr (generate_url env (filehead f) (time_str f)).

(** [check_link] from the outcome of [session.head(url, timeout=8)] on. *)
Definition check_link_after (url : string) (r : response) (w : world)
  : pyval * world :=
  match r with
  | Response status_code =>
      if status_code =? 200
      then (PyBool true, append_link url w)
      else (PyBool false, w)
  | RequestException _ => (PyBool false, w)
  end.

Definition check_link (env : environ) : worker :=
  {| before_request := check_link_before env;
     the_session := create_retry_session;
     after_request := check_link_after |}.

(** Lines 168-176 of [main]: everything inside the [try]. *)
Definition validate (a : args) : result (datetime * datetime * list string) :=
  start <- validate_date (start_date a) ;;
  stop <- validate_date (end_date a) ;;
  _ <- validate_date_range start stop ;;
  st <- validate_time (start_time a) ;;
  et <- validate_time (end_time a) ;;
  time_numbers <- generate_time_numbers st et ;;
  Ok (start, stop, time_numbers).

(** Lines 183-189 of [main]: the task list. *)
Fixpoint generate_tasks (fuel : nat) (base : string) (time_numbers : list string)
  (current_date end_date : datetime) : result (list (string * string)) :=
  match fuel with
  | O => Err OutOfFuel
  | S fuel' =>
      if date_le current_date end_date then
        let filehead := (base ++ "_" ++ strftime current_date)%string in
        let today := map (fun tn => (filehead, tn)) time_numbers in
        next <- add_one_day current_date ;;
        rest <- generate_tasks fuel' base time_numbers next end_date ;;
        Ok (today ++ rest)
      else Ok []
  end.

(** Lines 202-207: the loop over [as_completed(futures)]; [n] futures are
    still to come.  The result says whether the loop was left by [break]. *)
Fixpoint collect (wk : worker) (max_workers : Z) (n : nat)
  (sched : list action) (w : world) (p : pool)
  : world * pool * list action :=
  match n with
  | O => (w, p, sched)
  | S n' =>
      let '(w1, p1, sched1) := absorb wk max_workers sched w p in
      let '(w2, p2) := settle wk max_workers w1 p1 in
      match finished p2 with
      | [] => (w2, p2, sched1)
      | _ :: later =>
          if should_stop w2 then (w2, p2, sched1)
          else
            collect wk max_workers n' sched1 w2
              {| queued := queued p2; running := running p2; finished := later |}
      end
  end.

(** Lines 196-217 of [main]: the pool, the result file. *)
Definition run_tasks (env : environ) (a : args) (tasks : list (string * string))
  (sched : list action) (w : world) : exit * world :=
  if workers a <=? 0 then (Uncaught (ValueError BadMaxWorkers), w)
  else
    let wk := check_link env in
    let '(w1, p1) := submit_all 0 tasks w no_pool in
    let '(w2, p2, sched2) :=
      collect wk (workers a) (List.length tasks) sched w1 p1 in
    let p3 := if should_stop w2 then cancel_pending p2 else p2 in
    let '(w3, _) := join_workers wk (workers a) sched2 w2 p3 in
    (Exit0, write_output w3).

Definition main (env : environ) (a : args) (sched : list action) (w : world)
  : exit * world :=
  match validate a with
  | Err (ValueError r) => (SysExit1 (ValueError r), w)
  | Err e => (Uncaught e, w)
  | Ok (start, stop, time_numbers) =>
      match generate_tasks (span start stop) (base a) time_numbers start stop with
      | Err e => (Uncaught e, w)
      | Ok tasks => run_tasks env a tasks sched w
      end
  end.

End ModifiedScript.

(** ** wm_script.py *)

Module WmScript.

Record args := {
  base : string;
  start_date : string;
  end_date : string;
  start_time : string;
  end_time : string;
  workers : Z;
  timeout : Z;
  resume_file : string
}.

(** Whitespace for [str.strip()], within ASCII. *)
Definition is_space (c : ascii) : bool :=
  let n := nat_of_ascii c in
  ((n =? 32) || ((9 <=? n) && (n <=? 13)) || ((28 <=? n) && (n <=? 31)))%nat.

Fixpoint lstrip (s : string) : string :=
  match s with
  | EmptyString => EmptyString
  | String c s' => if is_space c then lstrip s' else s
  end.

Fixpoint rstrip (s : string) : string :=
  match s with
  | EmptyString => EmptyString
  | String c s' =>
      match rstrip s' with
      | EmptyString => if is_space c then EmptyString else String c EmptyString
      | t => String c t
      end
  end.

Definition strip (s : string) : string := rstrip (lstrip s).

Module TimeoutGuard.

Record t := {
  start_time : Z;
  max_runtime : Z;
  resume_file : string;
  last_progress : option string
}.

Definition load_progress (resume_file : string) (w : world) : option string :=
  match read_file resume_file (files w) with
  | Some content => Some (strip content)
  | None => None
  end.

(** [__init__] *)
Definition init (max_runtime : Z) (resume_file : string) (w : world) : t :=
  {| start_time := now w;
     max_runtime := max_runtime;
     resume_file := resume_file;
     last_progress := load_progress resume_file w |}.

Definition save_progress (self : t) (current_date : datetime) (w : world)
  : world :=
  let content := strftime current_date in
  log (EvSave content) (write_file (resume_file self) content w).

Definition remaining_time (self : t) (w : world) : Z :=
  max_runtime self - (now w - start_time self).

Definition check_timeout (self : t) (w : world) : bool :=
  remaining_time self w <? 300.

End TimeoutGuard.

Definition create_retry_session : session :=
  {| max_retries :=
       {| total := 3; backoff_factor := 5 # 10;
          status_forcelist := range 500 600;
          allowed_methods := ["HEAD"%string] |};
     pool_connections := 200; pool_maxsize := 400; pool_block := true |}.

(** [check_wm_link] up to its request: the stop flag is read first. *)
Definition check_wm_link_before (env : environ) (f : future) (w : world)
  : pyval + string :=
  if should_stop w then inl (PyBool false)
  else inr (generate_url env (filehead f) (time_str f)).

(** [check_wm_link] from the outcome of [session.head(url, timeout=5)] on. *)
Definition check_wm_link_after (url : string) (r : response) (w : world)
  : pyval * world :=
  match r with
  | Response status_code =>
      if status_code =? 200 then (PyStr url, w) else (PyNone, w)
  | RequestException _ => (PyNone, w)
  end.

Definition check_wm_link (env : environ) (s : session) : worker :=
  {| before_request := check_wm_link_before env;
     the_session := s;
     after_request := check_wm_link_after |}.

(** Lines 138-139: [if result: VALID_LINKS.append(result)]; the checker
    returns [False], [None] or a URL. *)
Definition keep_result (result : pyval) (w : world) : world :=
  if truthy result then
    match result with
    | PyStr url => append_link url w
    | _ => w
    end
  else w.

(** Lines 133-140: the loop over [as_completed(futures)]; [n] futures are
    still to come. *)
Fixpoint collect (wk : worker) (guard : TimeoutGuard.t) (max_workers : Z)
  (n : nat) (sched : list action) (w : world) (p : pool)
  : world * pool * list action :=
  match n with
  | O => (w, p, sched)
  | S n' =>
      let '(w1, p1, sched1) := absorb wk max_workers sched w p in
      let '(w2, p2) := settle wk max_workers w1 p1 in
      match finished p2 with
      | [] => (w2, p2, sched1)
      | (_, result) :: later =>
          if should_stop w2 || TimeoutGuard.check_timeout guard w2
          then (w2, cancel_pending p2, sched1)
          else
            collect wk guard max_workers n' sched1 (keep_result result w2)
              {| queued := queued p2; running := running p2; finished := later |}
      end
  end.

(** Lines 115-119: the date the scan starts from. *)
Definition resume_point (guard : TimeoutGuard.t) (current_date : datetime)
  : result datetime :=
  match TimeoutGuard.last_progress guard with
  | None => Ok current_date
  | Some EmptyString => Ok current_date
  | Some last =>
      resume_date <- strptime last ;;
      Ok (if date_gt resume_date current_date then resume_date else current_date)
  end.

(** Lines 121-144: the loop over the dates. *)
Fixpoint batches (fuel : nat) (env : environ) (a : args)
  (guard : TimeoutGuard.t) (s : session) (current_date end_date : datetime)
  (sched : list action) (w : world) : result datetime * world * list action :=
  match fuel with
  | O => (Err OutOfFuel, w, sched)
  | S fuel' =>
      if date_le current_date end_date && negb (should_stop w) then
        if TimeoutGuard.check_timeout guard w
        then (Ok current_date, TimeoutGuard.save_progress guard current_date w, sched)
        else
          let filehead := (base a ++ "_" ++ strftime current_date)%string in
          match generate_time_numbers (start_time a) (end_time a) with
          | Err e => (Err e, w, sched)
          | Ok time_numbers =>
              if workers a <=? 0 then (Err (ValueError BadMaxWorkers), w, sched)
              else
                let wk := check_wm_link env s in
                let '(w1, p1) :=
                  submit_all 0 (map (fun tn => (filehead, tn)) time_numbers)
                             w no_pool in
                let '(w2, p2, sched2) :=
                  collect wk guard (workers a) (List.length time_numbers)
                          sched w1 p1 in
                let '(w3, sched3) := join_workers wk (workers a) sched2 w2 p2 in
                match add_one_day current_date with
                | Err e => (Err e, w3, sched3)
                | Ok next => batches fuel' env a guard s next end_date sched3 w3
                end
          end
      else (Ok current_date, w, sched)
  end.

Definition process_date_range (env : environ) (a : args)
  (guard : TimeoutGuard.t) (sched : list action) (w : world)
  : result datetime * world * list action :=
  let s := create_retry_session in
  match strptime (start_date a) with
  | Err e => (Err e, w, sched)
  | Ok current_date =>
      match strptime (end_date a) with
      | Err e => (Err e, w, sched)
      | Ok end_date =>
          match resume_point guard current_date with
          | Err e => (Err e, w, sched)
          | Ok current_date =>
              let '(w1, _, sched1) :=
                absorb (check_wm_link env s) (workers a) sched w no_pool in
              batches (span current_date end_date) env a guard s
                      current_date end_date sched1 w1
          end
      end
  end.

(** What [main] prints about the scan. *)
Inductive report :=
| PartlyDone (last_processed : string)
| AllDone
| Failed (e : exn).

(** Lines 163-166: what [main] makes of the date the scan returned. *)
Definition verdict (a : args) (outcome : result datetime) : result report :=
  last_processed <- outcome ;;
  stop <- strptime (end_date a) ;;
  Ok (if date_le last_processed stop
      then PartlyDone (strftime last_processed)
      else AllDone).

Definition main (env : environ) (a : args) (sched : list action) (w : world)
  : exit * report * world :=
  let timeout_guard := TimeoutGuard.init (timeout a) (resume_file a) w in
  let '(outcome, w1, _) := process_date_range env a timeout_guard sched w in
  match verdict a outcome with
  | Ok said => (Exit0, said, write_output w1)
  | Err e => (SysExit1 e, Failed e, write_output w1)
  end.

End WmScript.

(** ** Vocabulary of the specification *)

(** The targets of a list of days: for each day in turn, one target per time
    code in turn. *)
Definition targets_of (base : string) (time_numbers : list string)
  (days : list datetime) : list (string * string) :=
  flat_map
    (fun d => map (fun tn => ((base ++ "_" ++ strftime d)%string, tn)) time_numbers)
    days.

(** [fmt_0d 2 n] is two digits that read [n]; [fmt_0d 4 n] four. *)
Definition two_digits (n : Z) : bool :=
  match fmt_0d 2 n with
  | String a (String b EmptyString) =>
      is_digit a && is_digit b && (10 * digit_value a + digit_value b =? n)
  | _ => false
  end.

Definition four_digits (n : Z) : bool :=
  match fmt_0d 4 n with
  | String a (String b (String c (String d EmptyString))) =>
      is_digit a && is_digit b && is_digit c && is_digit d &&
      (10 * (10 * (10 * digit_value a + digit_value b) + digit_value c)
       + digit_value d =? n)
  | _ => false
  end.

(** The URLs whose request came back with status 200, oldest first. *)
Definition success_of (e : event) : list string :=
  match e with
  | EvDone url (Response code) => if code =? 200 then [url] else []
  | _ => []
  end.

Definition successes (tr : list event) : list string := flat_map success_of tr.

Definition is_write (e : event) : bool :=
  match e with
  | EvWrite _ => true
  | _ => false
  end.

(** How many times the result file was written. *)
Definition writes (tr : list event) : nat := List.length (filter is_write tr).

Definition is_save (e : event) : bool :=
  match e with
  | EvSave _ => true
  | _ => false
  end.

(** Events that put a target to work: a submission or a request. *)
Definition is_work (e : event) : bool :=
  match e with
  | EvSubmit _ _ | EvProbe _ | EvDone _ _ => true
  | _ => false
  end.


(** What the worker of the simple script does to [VALID_LINKS] when a
    request comes back; the worker of the resumable script leaves it to the
    main thread. *)
Definition on_done (in_worker : bool) (url : string) (r : response) (w : world)
  : world :=
  match r with
  | Response code => if in_worker && (code =? 200) then append_link url w else w
  | RequestException _ => w
  end.

(** One atomic change of the process state while the scan runs.  [P] holds
    of the file heads that may be submitted. *)
Inductive wstep (in_worker : bool) (P : string -> Prop) : world -> world -> Prop :=
| ws_signal w : wstep in_worker P w (signal_handler w)
| ws_tick w dt : wstep in_worker P w (tick dt w)
| ws_submit w fh tn :
    should_stop w = false -> P fh ->
    wstep in_worker P w (log (EvSubmit fh tn) w)
| ws_probe w url :
    should_stop w = false ->
    wstep in_worker P w (log (EvProbe url) w)
| ws_done w url r :
    wstep in_worker P w (on_done in_worker url r (log (EvDone url r) w))
| ws_keep w url :
    in_worker = false ->
    In (EvDone url (Response 200)) (trace w) ->
    wstep in_worker P w (append_link url w)
| ws_save w path content :
    wstep in_worker P w (log (EvSave content) (write_file path content w)).

Inductive runs (in_worker : bool) (P : string -> Prop) : world -> world -> Prop :=
| runs_refl w : runs in_worker P w w
| runs_step w w1 w2 :
    runs in_worker P w w1 -> wstep in_worker P w1 w2 -> runs in_worker P w w2.

(** A worker that reads the stop flag before it sends anything, and does
    with the outcome what [on_done] says. *)
Record civil (in_worker : bool) (wk : worker) : Prop := {
  civil_before :
    forall f w url, before_request wk f w = inr url -> should_stop w = false;
  civil_skip :
    forall f w v, before_request wk f w = inl v -> forall u, v <> PyStr u;
  civil_after :
    forall url r w v w',
      after_request wk url r w = (v, w') -> w' = on_done in_worker url r w;
  civil_result :
    forall url r w v w' u,
      after_request wk url r w = (v, w') -> v = PyStr u ->
      u = url /\ r = Response 200
}.

(** Every URL a finished future carries came back with status 200. *)
Definition sound (w : world) (p : pool) : Prop :=
  forall f u, In (f, PyStr u) (finished p) ->
              In (EvDone u (Response 200)) (trace w).

(** The file heads of the days from [d0] on. *)
Definition from_day (base : string) (d0 : datetime) (fh : string) : Prop :=
  exists d, valid_date d = true /\ date_le d0 d = true /\
            fh = (base ++ "_" ++ strftime d)%string.

(** No event of the trace puts a target to work. *)
Definition workless (tr : list event) : Prop :=
  Forall (fun e => is_work e = false) tr.

(** With no future in the pool only the signal and the clock act. *)
Definition idle (w w' : world) : Prop :=
  (exists k, trace w' = trace w ++ repeat EvSignal k) /\
  VALID_LINKS w' = VALID_LINKS w /\ files w' = files w.



(** Every recorded link came back with status 200. *)
Definition vouched (w : world) : Prop :=
  forall u, In u (VALID_LINKS w) -> In (EvDone u (Response 200)) (trace w).

(** An action that neither raises the stop flag nor moves the clock. *)
Definition is_calm (a : action) : bool :=
  match a with
  | Signal | Tick _ => false
  | _ => true
  end.

(** What [keep_result] appends for a result. *)
Definition kept (v : pyval) : list string :=
  match v with
  | PyStr url => if truthy v then [url] else []
  | _ => []
  end.


Definition size (p : pool) : nat :=
  (List.length (queued p) + List.length (running p) + List.length (finished p))%nat.


Definition is_probe (e : event) : bool :=
  match e with
  | EvProbe _ => true
  | _ => false
  end.

Definition is_submit (e : event) : bool :=
  match e with
  | EvSubmit _ _ => true
  | _ => false
  end.

(** How many requests were sent, how many targets were submitted. *)
Definition probes (tr : list event) : nat := List.length (filter is_probe tr).
Definition submits (tr : list event) : nat := List.length (filter is_submit tr).

(** A worker that sends its request whenever the stop flag is down. *)
Definition eager (wk : worker) : Prop :=
  forall f w, should_stop w = false -> exists url, before_request wk f w = inr url.

(** In a batch no signal and no tick has touched, every submitted target
    was requested or is still queued. *)
Definition tally (t0 : Z) (w : world) (p : pool) : Prop :=
  should_stop w = false /\ now w = t0 /\
  (probes (trace w) + List.length (queued p) = submits (trace w))%nat.



(** ** Vocabulary of the further properties *)

(** The last day a [datetime] can hold. *)
Definition last_day : datetime := mkdate 9999 12 31.

(** The number the characters [lo] to [hi] of a string of digits read as. *)
Definition number_at (t : string) (lo hi : nat) : Z := int_acc (slice t lo hi) 0.

(** The second count six digits HHMMSS stand for, whatever the digits. *)
Definition second_count (t : string) : Z :=
  number_at t 0 2 * 3600 + number_at t 2 4 * 60 + number_at t 4 6.

(** An attempt the retry counter lets the session repeat: no answer, or an
    answer whose status is in the force list. *)
Definition transient (r : Retry) (a : attempt) : bool :=
  match a with
  | NoAnswer => true
  | Reply status => is_retry r "HEAD" status
  end.

(** A string [str.strip()] empties: white space only. *)
Fixpoint all_space (s : string) : bool :=
  match s with
  | EmptyString => true
  | String c s' => WmScript.is_space c && all_space s'
  end.

(** The targets submitted, oldest first. *)
Definition submission (e : event) : list (string * string) :=
  match e with
  | EvSubmit fh tn => [(fh, tn)]
  | _ => []
  end.

Definition submitted (tr : list event) : list (string * string) :=
  flat_map submission tr.

(** The targets of one day. *)
Definition day_targets (base : string) (time_numbers : list string) (d : datetime)
  : list (string * string) :=
  map (fun tn => ((base ++ "_" ++ strftime d)%string, tn)) time_numbers.

(** An action other than the signal. *)
Definition is_quiet (a : action) : bool :=
  match a with
  | Signal => false
  | _ => true
  end.

(** Between [w] and [w'] the stop flag, the links and the files are the
    same and the clock has not gone back. *)
Definition lull (w w' : world) : Prop :=
  should_stop w' = should_stop w /\ VALID_LINKS w' = VALID_LINKS w /\
  files w' = files w /\ now w <= now w'.


(** A worker that returns at once when the stop flag is up. *)
Definition heedful (wk : worker) : Prop :=
  forall f w, should_stop w = true -> exists v, before_request wk f w = inl v.

(** The stop flag is up and no request is on the wire. *)
Definition halted (w : world) (p : pool) : Prop :=
  should_stop w = true /\ running p = [].

(** The URLs requested and the URLs whose request came to an end, oldest
    first. *)
Definition probe_of (e : event) : list string :=
  match e with
  | EvProbe url => [url]
  | _ => []
  end.

Definition probed (tr : list event) : list string := flat_map probe_of tr.

Definition answer_of (e : event) : list string :=
  match e with
  | EvDone url _ => [url]
  | _ => []
  end.

Definition answered (tr : list event) : list string := flat_map answer_of tr.

Definition target_url (env : environ) (t : string * string) : string :=
  generate_url env (fst t) (snd t).

Definition future_url (env : environ) (f : future) : string :=
  generate_url env (filehead f) (time_str f).

(** A worker that reads the stop flag and, if it is down, requests the URL
    of its target. *)
Definition punctual (env : environ) (wk : worker) : Prop :=
  forall f w,
    before_request wk f w
    = if should_stop w then inl (PyBool false) else inr (future_url env f).

(** The futures [submit_all] makes of a list of tasks. *)
Fixpoint futures_of (k : nat) (tasks : list (string * string)) : list future :=
  match tasks with
  | [] => []
  | (fh, tn) :: rest => {| fid := k; filehead := fh; time_str := tn |} :: futures_of (S k) rest
  end.

(** The requests follow the submissions: the URLs requested so far, then
    the URLs of the targets given up ([skipped]), then those of the queued
    futures are the URLs of the submitted targets.  A target is given up
    only once the stop flag is up or the pool was cancelled ([C]).  Every
    URL requested has come to an end or is on the wire. *)
Definition orderly (env : environ) (C : world -> Prop) (skipped : list string)
  (w : world) (p : pool) : Prop :=
  map (target_url env) (submitted (trace w))
  = probed (trace w) ++ skipped ++ map (future_url env) (queued p) /\
  (skipped = [] \/ should_stop w = true \/ (C w /\ queued p = [])) /\
  Permutation (probed (trace w)) (answered (trace w) ++ map snd (running p)).

Definition neat (env : environ) (C : world -> Prop) (w : world) (p : pool) : Prop :=
  exists skipped, orderly env C skipped w p.

(** The checkpoints written, oldest first. *)
Definition saves (tr : list event) : list event := filter is_save tr.

(** ** Sample inputs *)

Definition sample_env : environ :=
  {| WM_DOMAIN := Some "wm.example"; WM_PATH := Some "/clips/" |}.

(** Three days, two seconds a day. *)
Definition sample_simple_args : ModifiedScript.args :=
  {| ModifiedScript.base := "cam";
     ModifiedScript.start_date := "20240228";
     ModifiedScript.end_date := "20240301";
     ModifiedScript.start_time := "000000";
     ModifiedScript.end_time := "000001";
     ModifiedScript.workers := 2 |}.

Definition sample_wm_args : WmScript.args :=
  {| WmScript.base := "cam";
     WmScript.start_date := "20240228";
     WmScript.end_date := "20240301";
     WmScript.start_time := "000000";
     WmScript.end_time := "000001";
     WmScript.workers := 2;
     WmScript.timeout := 19800;
     WmScript.resume_file := "progress.log" |}.

(** The same scan with the two dates exchanged. *)
Definition inverted_simple_args : ModifiedScript.args :=
  {| ModifiedScript.base := "cam";
     ModifiedScript.start_date := "20240301";
     ModifiedScript.end_date := "20240228";
     ModifiedScript.start_time := "000000";
     ModifiedScript.end_time := "000001";
     ModifiedScript.workers := 2 |}.

Definition inverted_wm_args : WmScript.args :=
  {| WmScript.base := "cam";
     WmScript.start_date := "20240301";
     WmScript.end_date := "20240228";
     WmScript.start_time := "000000";
     WmScript.end_time := "000001";
     WmScript.workers := 2;
     WmScript.timeout := 19800;
     WmScript.resume_file := "progress.log" |}.

(** One day, one second: a single target. *)
Definition single_wm_args : WmScript.args :=
  {| WmScript.base := "cam";
     WmScript.start_date := "20240228";
     WmScript.end_date := "20240228";
     WmScript.start_time := "000000";
     WmScript.end_time := "000000";
     WmScript.workers := 2;
     WmScript.timeout := 19800;
     WmScript.resume_file := "progress.log" |}.

Definition single_simple_args : ModifiedScript.args :=
  {| ModifiedScript.base := "cam";
     ModifiedScript.start_date := "20240228";
     ModifiedScript.end_date := "20240228";
     ModifiedScript.start_time := "000000";
     ModifiedScript.end_time := "000000";
     ModifiedScript.workers := 2 |}.




(** The one request is sent, SIGINT arrives, then the answer 200 comes. *)
Definition interrupted : list action :=
  [Start; Signal; Finish 0 [Reply 200]].


(** ** Calendar, formats and the task list *)

Lemma valid_date_spec d :
  valid_date d = true <->
  1 <= year d <= 9999 /\ 1 <= month d <= 12 /\ 1 <= day d <= days_in_month (year d) (month d).
Proof. unfold valid_date. rewrite !andb_true_iff, !Z.leb_le. lia. Qed.

Lemma month_cases m : 1 <= m <= 12 ->
  m = 1 \/ m = 2 \/ m = 3 \/ m = 4 \/ m = 5 \/ m = 6 \/
  m = 7 \/ m = 8 \/ m = 9 \/ m = 10 \/ m = 11 \/ m = 12.
Proof. lia. Qed.

Lemma days_before_year_succ y :
  days_before_year (y + 1) = days_before_year y + (if is_leap_year y then 366 else 365).
Proof.
  unfold days_before_year, is_leap_year.
  replace (y + 1 - 1) with y by lia.
  destruct (y mod 4 =? 0) eqn:E4; destruct (y mod 100 =? 0) eqn:E100;
    destruct (y mod 400 =? 0) eqn:E400; simpl;
  rewrite ?Z.eqb_eq, ?Z.eqb_neq in *; lia.
Qed.

Ltac table :=
  cbv beta iota in *;
  cbn [Z.ltb Z.compare Pos.compare Pos.compare_cont andb orb negb] in *.

Lemma days_before_year_mono y1 y2 : y1 <= y2 -> days_before_year y1 <= days_before_year y2.
Proof. unfold days_before_year. lia. Qed.

Lemma day_of_year_bound y m dd :
  1 <= m <= 12 -> 1 <= dd <= days_in_month y m ->
  1 <= days_before_month y m + dd <= (if is_leap_year y then 366 else 365).
Proof.
  intros Hm Hd. unfold days_before_month, days_in_month in *.
  destruct (month_cases m Hm) as [->|[->|[->|[->|[->|[->|[->|[->|[->|[->|[->| ->]]]]]]]]]]];
    destruct (is_leap_year y); table; lia.
Qed.

Lemma days_before_month_next y m m' :
  1 <= m <= 11 -> m' = m + 1 ->
  days_before_month y m' = days_before_month y m + days_in_month y m /\
  1 <= days_in_month y m'.
Proof.
  intros Hm E. unfold days_before_month, days_in_month.
  assert (Ha : 1 <= m <= 12) by lia. assert (Hb : 1 <= m' <= 12) by lia.
  destruct (month_cases m Ha) as [->|[->|[->|[->|[->|[->|[->|[->|[->|[->|[->| ->]]]]]]]]]]];
  destruct (month_cases m' Hb) as [->|[->|[->|[->|[->|[->|[->|[->|[->|[->|[->| ->]]]]]]]]]]];
    try lia; destruct (is_leap_year y); table; lia.
Qed.

Lemma days_before_month_mono y m1 m2 :
  1 <= m1 -> m1 < m2 -> m2 <= 12 ->
  days_before_month y m1 + days_in_month y m1 <= days_before_month y m2.
Proof.
  intros H1 H2 H3. unfold days_before_month, days_in_month.
  assert (Ha : 1 <= m1 <= 12) by lia. assert (Hb : 1 <= m2 <= 12) by lia.
  destruct (month_cases m1 Ha) as [->|[->|[->|[->|[->|[->|[->|[->|[->|[->|[->| ->]]]]]]]]]]];
  destruct (month_cases m2 Hb) as [->|[->|[->|[->|[->|[->|[->|[->|[->|[->|[->| ->]]]]]]]]]]];
    try lia; destruct (is_leap_year y); table; lia.
Qed.

Lemma add_one_day_ok d d' :
  valid_date d = true -> add_one_day d = Ok d' ->
  valid_date d' = true /\ toordinal d' = toordinal d + 1.
Proof.
  rewrite !valid_date_spec. intros (Hy & Hm & Hd). unfold add_one_day, toordinal.
  destruct (day d <? days_in_month (year d) (month d)) eqn:E1.
  - intros [= <-]. simpl. apply Z.ltb_lt in E1. lia.
  - apply Z.ltb_ge in E1. destruct (month d <? 12) eqn:E2.
    + intros [= <-]. simpl. apply Z.ltb_lt in E2.
      destruct (days_before_month_next (year d) (month d) (month d + 1)) as [-> ?]; lia.
    + apply Z.ltb_ge in E2. destruct (year d <? 9999) eqn:E3; [|discriminate].
      intros [= <-]. simpl. apply Z.ltb_lt in E3.
      rewrite days_before_year_succ.
      assert (month d = 12) as Hm12 by lia. rewrite Hm12 in *.
      unfold days_before_month, days_in_month in *.
      destruct (is_leap_year (year d)); table; lia.
Qed.

Lemma toordinal_lt_year a b :
  valid_date a = true -> valid_date b = true -> year a < year b -> toordinal a < toordinal b.
Proof.
  rewrite !valid_date_spec. intros (Hya & Hma & Hda) (Hyb & Hmb & Hdb) Hlt.
  unfold toordinal.
  pose proof (day_of_year_bound _ _ _ Hma Hda).
  pose proof (day_of_year_bound _ _ _ Hmb Hdb).
  pose proof (days_before_year_succ (year a)).
  pose proof (days_before_year_mono (year a + 1) (year b) ltac:(lia)).
  destruct (is_leap_year (year a)); lia.
Qed.

Lemma toordinal_lt_month a b :
  valid_date a = true -> valid_date b = true -> year a = year b -> month a < month b ->
  toordinal a < toordinal b.
Proof.
  rewrite !valid_date_spec. intros (Hya & Hma & Hda) (Hyb & Hmb & Hdb) Hy Hlt.
  unfold toordinal. rewrite <- Hy in *.
  pose proof (days_before_month_mono (year a) (month a) (month b) ltac:(lia) Hlt ltac:(lia)).
  lia.
Qed.

Lemma date_le_ordinal a b :
  valid_date a = true -> valid_date b = true ->
  date_le a b = (toordinal a <=? toordinal b).
Proof.
  intros Ha Hb. unfold date_le.
  destruct (Z.ltb_spec (year a) (year b)) as [Hy|Hy]; simpl.
  - symmetry. apply Z.leb_le. pose proof (toordinal_lt_year a b Ha Hb Hy). lia.
  - destruct (Z.eqb_spec (year a) (year b)) as [Ey|Ey]; simpl.
    + destruct (Z.ltb_spec (month a) (month b)) as [Hm|Hm]; simpl.
      * symmetry. apply Z.leb_le. pose proof (toordinal_lt_month a b Ha Hb Ey Hm). lia.
      * destruct (Z.eqb_spec (month a) (month b)) as [Em|Em]; simpl.
        -- unfold toordinal. rewrite Ey, Em.
           destruct (Z.leb_spec (day a) (day b)); symmetry; [apply Z.leb_le|apply Z.leb_gt]; lia.
        -- symmetry. apply Z.leb_gt.
           pose proof (toordinal_lt_month b a Hb Ha (eq_sym Ey) ltac:(lia)). lia.
    + symmetry. apply Z.leb_gt.
      pose proof (toordinal_lt_year b a Hb Ha ltac:(lia)). lia.
Qed.

Lemma toordinal_inj a b :
  valid_date a = true -> valid_date b = true -> toordinal a = toordinal b -> a = b.
Proof.
  intros Ha Hb E.
  pose proof (date_le_ordinal a b Ha Hb) as H1. pose proof (date_le_ordinal b a Hb Ha) as H2.
  rewrite E in H1. rewrite E in H2. rewrite Z.leb_refl in *.
  unfold date_le in *. destruct a as [ya ma da], b as [yb mb db]; simpl in *.
  assert (ya = yb /\ ma = mb /\ da = db) as (-> & -> & ->); [|reflexivity].
  rewrite !orb_true_iff, !andb_true_iff, ?Z.ltb_lt, ?Z.eqb_eq, ?Z.leb_le in *. lia.
Qed.

(** formatting *)
Lemma range_In n a b : In n (range a b) <-> a <= n < b.
Proof.
  unfold range. rewrite in_map_iff. split.
  - intros (i & <- & Hi). apply in_seq in Hi. lia.
  - intros H. exists (Z.to_nat (n - a)). split; [lia|]. apply in_seq. lia.
Qed.

Lemma range_length a b : List.length (range a b) = Z.to_nat (b - a).
Proof. unfold range. now rewrite length_map, length_seq. Qed.

Lemma range_nil a b : b <= a -> range a b = [].
Proof. intros H. unfold range. replace (Z.to_nat (b - a)) with 0%nat by lia. reflexivity. Qed.

Lemma range_cons a b : a < b -> range a b = a :: range (a + 1) b.
Proof.
  intros H. unfold range.
  replace (Z.to_nat (b - a)) with (S (Z.to_nat (b - (a + 1)))) by lia.
  cbn [seq map]. f_equal; [lia|].
  rewrite <- seq_shift, map_map. apply map_ext. intros i. lia.
Qed.

Lemma two_digits_ok n : 0 <= n < 100 -> two_digits n = true.
Proof.
  intros H. apply (proj2 (range_In n 0 100)) in H. revert n H.
  apply forallb_forall. vm_compute. reflexivity.
Qed.

Lemma four_digits_ok n : 0 <= n < 10000 -> four_digits n = true.
Proof.
  intros H. apply (proj2 (range_In n 0 10000)) in H. revert n H.
  apply forallb_forall. vm_compute. reflexivity.
Qed.

Lemma fmt2_shape n : 0 <= n < 100 ->
  exists a b, fmt_0d 2 n = String a (String b EmptyString) /\
              is_digit a = true /\ is_digit b = true /\
              10 * digit_value a + digit_value b = n.
Proof.
  intros H. pose proof (two_digits_ok n H) as T. unfold two_digits in T.
  destruct (fmt_0d 2 n) as [|a [|b [|? ?]]]; try discriminate.
  exists a, b. rewrite !andb_true_iff, Z.eqb_eq in T. tauto.
Qed.

Lemma fmt4_shape n : 0 <= n < 10000 ->
  exists a b c d, fmt_0d 4 n = String a (String b (String c (String d EmptyString))) /\
              is_digit a = true /\ is_digit b = true /\ is_digit c = true /\ is_digit d = true /\
              10 * (10 * (10 * digit_value a + digit_value b) + digit_value c) + digit_value d = n.
Proof.
  intros H. pose proof (four_digits_ok n H) as T. unfold four_digits in T.
  destruct (fmt_0d 4 n) as [|a [|b [|c [|d [|? ?]]]]]; try discriminate.
  exists a, b, c, d. rewrite !andb_true_iff, Z.eqb_eq in T. tauto.
Qed.

Lemma time_number_shape h m s :
  0 <= h < 100 -> 0 <= m < 100 -> 0 <= s < 100 ->
  let t := (fmt_0d 2 h ++ fmt_0d 2 m ++ fmt_0d 2 s)%string in
  String.length t = 6%nat /\ isdigit t = true /\
  seconds_of t = Ok (h * 3600 + m * 60 + s).
Proof.
  intros Hh Hm Hs.
  destruct (fmt2_shape h Hh) as (a1 & b1 & -> & A1 & B1 & E1).
  destruct (fmt2_shape m Hm) as (a2 & b2 & -> & A2 & B2 & E2).
  destruct (fmt2_shape s Hs) as (a3 & b3 & -> & A3 & B3 & E3).
  unfold seconds_of, int, slice.
  cbn -[Z.mul Z.add digit_value]. rewrite A1, B1, A2, B2, A3, B3. cbn -[Z.mul Z.add digit_value].
  repeat split. f_equal. lia.
Qed.

Lemma time_number_ok sec : 0 <= sec < 86400 ->
  String.length (time_number sec) = 6%nat /\ isdigit (time_number sec) = true /\
  seconds_of (time_number sec) = Ok sec.
Proof.
  intros H. unfold time_number.
  destruct (time_number_shape (sec / 3600) (sec mod 3600 / 60) (sec mod 60))
    as (L & D & S); try lia.
  repeat split; auto. rewrite S. f_equal.
  pose proof (Z.div_mod sec 3600 ltac:(lia)) as E1.
  pose proof (Z.div_mod (sec mod 3600) 60 ltac:(lia)) as E2.
  rewrite Z.mod_mod_divide in E2 by (exists 60; reflexivity).
  lia.
Qed.

Lemma strftime_ok d : valid_date d = true ->
  String.length (strftime d) = 8%nat /\ all_digits (strftime d) = true /\
  strptime (strftime d) = Ok d.
Proof.
  intros V. pose proof V as V'. apply valid_date_spec in V' as (Hy & Hm & Hd).
  assert (days_in_month (year d) (month d) <= 31).
  { unfold days_in_month.
    destruct (month_cases _ Hm)
      as [->|[->|[->|[->|[->|[->|[->|[->|[->|[->|[->| ->]]]]]]]]]]];
      destruct (is_leap_year (year d)); table; lia. }
  unfold strftime, strptime.
  destruct (fmt4_shape (year d)) as (a & b & c & e & -> & A & B & C & E & Ey); [lia|].
  destruct (fmt2_shape (month d)) as (a2 & b2 & -> & A2 & B2 & E2); [lia|].
  destruct (fmt2_shape (day d)) as (a3 & b3 & -> & A3 & B3 & E3); [lia|].
  unfold slice.
  cbn -[Z.mul Z.add digit_value valid_date]. rewrite A, B, C, E, A2, B2, A3, B3.
  cbn -[Z.mul Z.add digit_value valid_date].
  repeat split.
  replace (mkdate _ _ _) with d; [now rewrite V|].
  destruct d; simpl in *; f_equal; lia.
Qed.

Lemma bind_ok {A B} (r : result A) (k : A -> result B) b :
  bind r k = Ok b -> exists a, r = Ok a /\ k a = Ok b.
Proof. destruct r; simpl; [eauto|discriminate]. Qed.

Lemma validate_time_ok t t' :
  ModifiedScript.validate_time t = Ok t' ->
  exists s, 0 <= s < 86400 /\ seconds_of t = Ok s /\ t' = time_number s.
Proof.
  unfold ModifiedScript.validate_time, seconds_of.
  destruct (negb _ || negb _); [discriminate|].
  intros H.
  apply bind_ok in H as (h & -> & H). apply bind_ok in H as (m & -> & H).
  apply bind_ok in H as (s & -> & H). cbn [bind].
  destruct ((0 <=? h) && (h <=? 23)) eqn:Eh; [|discriminate].
  destruct ((0 <=? m) && (m <=? 59)) eqn:Em; [|discriminate].
  destruct ((0 <=? s) && (s <=? 59)) eqn:Es; [|discriminate].
  cbn [negb] in H. injection H as <-.
  rewrite andb_true_iff, !Z.leb_le in Eh, Em, Es.
  exists (h * 3600 + m * 60 + s). split; [lia|]. split; [reflexivity|].
  unfold time_number.
  replace ((h * 3600 + m * 60 + s) / 3600) with h by lia.
  replace ((h * 3600 + m * 60 + s) mod 60) with s by lia.
  replace ((h * 3600 + m * 60 + s) mod 3600) with (m * 60 + s) by lia.
  replace ((m * 60 + s) / 60) with m by lia.
  reflexivity.
Qed.

Lemma generate_time_numbers_ok st et s1 s2 :
  seconds_of st = Ok s1 -> seconds_of et = Ok s2 -> s1 <= s2 ->
  generate_time_numbers st et = Ok (map time_number (range s1 (s2 + 1))).
Proof.
  intros H1 H2 H. unfold generate_time_numbers. rewrite H1, H2. cbn [bind].
  destruct (Z.ltb_spec s2 s1); [lia|reflexivity].
Qed.

Lemma generate_time_numbers_inverted st et s1 s2 :
  seconds_of st = Ok s1 -> seconds_of et = Ok s2 -> s2 < s1 ->
  generate_time_numbers st et = Err (ValueError EndTimeBeforeStart).
Proof.
  intros H1 H2 H. unfold generate_time_numbers. rewrite H1, H2. cbn [bind].
  destruct (Z.ltb_spec s2 s1); [reflexivity|lia].
Qed.

Lemma generate_time_numbers_inv st et l :
  generate_time_numbers st et = Ok l ->
  exists s1 s2, seconds_of st = Ok s1 /\ seconds_of et = Ok s2 /\ s1 <= s2 /\
                l = map time_number (range s1 (s2 + 1)).
Proof.
  unfold generate_time_numbers. intros H.
  apply bind_ok in H as (s1 & E1 & H). apply bind_ok in H as (s2 & E2 & H).
  destruct (Z.ltb_spec s2 s1); [discriminate|]. injection H as <-.
  exists s1, s2. auto.
Qed.

Lemma generate_tasks_spec base tns : forall fuel cur stop,
  valid_date cur = true -> valid_date stop = true ->
  ModifiedScript.february_loop fuel cur stop = Ok tt ->
  exists days,
    ModifiedScript.generate_tasks fuel base tns cur stop = Ok (targets_of base tns days) /\
    map toordinal days = range (toordinal cur) (toordinal stop + 1) /\
    Forall (fun d => valid_date d = true) days.
Proof.
  induction fuel as [|fuel IH]; intros cur stop Vc Vs;
    cbn [ModifiedScript.february_loop ModifiedScript.generate_tasks].
  - discriminate.
  - rewrite (date_le_ordinal cur stop Vc Vs).
    destruct (Z.leb_spec (toordinal cur) (toordinal stop)) as [Hle|Hgt].
    + destruct (_ && _); [discriminate|].
      intros H. apply bind_ok in H as (next & En & H). rewrite En. cbn [bind].
      destruct (add_one_day_ok cur next Vc En) as [Vn On].
      destruct (IH next stop Vn Vs H) as (days & -> & Hd & Hv). cbn [bind].
      exists (cur :: days). split; [reflexivity|]. split.
      * cbn [map]. rewrite Hd, On. symmetry. apply range_cons. lia.
      * constructor; auto.
    + intros _. exists []. split; [reflexivity|]. split; [|constructor].
      rewrite range_nil by lia. reflexivity.
Qed.

Lemma targets_of_length base tns days :
  List.length (targets_of base tns days) = (List.length days * List.length tns)%nat.
Proof.
  unfold targets_of. induction days as [|d days IH]; cbn [flat_map]; [reflexivity|].
  rewrite length_app, length_map, IH. reflexivity.
Qed.

Lemma append_inj_l (a x y : string) : (a ++ x = a ++ y)%string -> x = y.
Proof. induction a as [|c a IH]; cbn; [auto|]. intros [= H]. auto. Qed.

Lemma strftime_inj d1 d2 :
  valid_date d1 = true -> valid_date d2 = true -> strftime d1 = strftime d2 -> d1 = d2.
Proof.
  intros V1 V2 E.
  destruct (strftime_ok d1 V1) as (_ & _ & R1). destruct (strftime_ok d2 V2) as (_ & _ & R2).
  rewrite E in R1. congruence.
Qed.

Lemma time_number_inj s1 s2 :
  0 <= s1 < 86400 -> 0 <= s2 < 86400 -> time_number s1 = time_number s2 -> s1 = s2.
Proof.
  intros H1 H2 E.
  destruct (time_number_ok s1 H1) as (_ & _ & R1). destruct (time_number_ok s2 H2) as (_ & _ & R2).
  rewrite E in R1. congruence.
Qed.

Lemma NoDup_map_in {A B} (f : A -> B) (l : list A) :
  (forall x y, In x l -> In y l -> f x = f y -> x = y) -> NoDup l -> NoDup (map f l).
Proof.
  intros Hinj Hnd. induction Hnd as [|x l Hx Hnd IH]; cbn; constructor.
  - rewrite in_map_iff. intros (y & E & Hy). apply Hinj in E; [subst; auto|right; auto|left; auto].
  - apply IH. intros; apply Hinj; auto; right; auto.
Qed.

Lemma range_NoDup a b : NoDup (range a b).
Proof.
  unfold range. apply NoDup_map_in; [|apply seq_NoDup].
  intros i j _ _ H. lia.
Qed.

Lemma NoDup_flat_map {A B} (g : A -> list B) (l : list A) :
  NoDup l -> (forall a, In a l -> NoDup (g a)) ->
  (forall a1 a2 b, In a1 l -> In a2 l -> In b (g a1) -> In b (g a2) -> a1 = a2) ->
  NoDup (flat_map g l).
Proof.
  intros Hnd. induction Hnd as [|x l Hx Hnd IH]; intros Hg Hsep; cbn; [constructor|].
  apply NoDup_app.
  - apply Hg. now left.
  - apply IH; intros; [apply Hg; now right|]. eapply Hsep; eauto; now right.
  - intros b Hb Hb'. apply in_flat_map in Hb' as (y & Hy & Hb').
    assert (x = y) by (eapply Hsep; eauto; [now left|now right]). subst. auto.
Qed.

Lemma targets_of_NoDup base s1 s2 days :
  0 <= s1 -> s2 < 86400 ->
  NoDup days -> Forall (fun d => valid_date d = true) days ->
  NoDup (targets_of base (map time_number (range s1 (s2 + 1))) days).
Proof.
  intros H1 H2 Hnd Hv. rewrite Forall_forall in Hv. unfold targets_of.
  apply NoDup_flat_map; auto.
  - intros d _. apply NoDup_map_in.
    + intros x y _ _ [= E]. auto.
    + apply NoDup_map_in; [|apply range_NoDup].
      intros x y Hx Hy E. apply range_In in Hx, Hy. apply time_number_inj; auto; lia.
  - intros d1 d2 [fh tn] Hd1 Hd2 Hb1 Hb2.
    apply in_map_iff in Hb1 as (t1 & [= E1 _] & _). apply in_map_iff in Hb2 as (t2 & [= E2 _] & _).
    apply strftime_inj; auto. rewrite <- E2 in E1.
    apply append_inj_l in E1. now injection E1.
Qed.

Lemma validate_inv a start stop tns :
  ModifiedScript.validate a = Ok (start, stop, tns) ->
  strptime (ModifiedScript.start_date a) = Ok start /\
  strptime (ModifiedScript.end_date a) = Ok stop /\
  ModifiedScript.validate_date_range start stop = Ok tt /\
  exists st et,
    ModifiedScript.validate_time (ModifiedScript.start_time a) = Ok st /\
    ModifiedScript.validate_time (ModifiedScript.end_time a) = Ok et /\
    generate_time_numbers st et = Ok tns.
Proof.
  unfold ModifiedScript.validate, ModifiedScript.validate_date. intros H.
  apply bind_ok in H as (d1 & E1 & H). apply bind_ok in H as (d2 & E2 & H).
  apply bind_ok in H as ([] & E3 & H). apply bind_ok in H as (st & E4 & H).
  apply bind_ok in H as (et & E5 & H). apply bind_ok in H as (l & E6 & H).
  injection H as <- <- <-. repeat split; auto. exists st, et. auto.
Qed.

Lemma strptime_valid s d : strptime s = Ok d -> valid_date d = true.
Proof.
  unfold strptime. destruct (_ && _); [|discriminate].
  match goal with |- context [valid_date ?x] => destruct (valid_date x) eqn:V end; [|discriminate].
  intros [= <-]. exact V.
Qed.

(** ** The executor refines the step relation *)

Lemma trace_log e w : trace (log e w) = trace w ++ [e].
Proof. reflexivity. Qed.

Lemma trace_on_done iw url r w : trace (on_done iw url r w) = trace w.
Proof. destruct r as [code|]; cbn; [destruct (iw && (code =? 200))|]; reflexivity. Qed.

Lemma should_stop_on_done iw url r w : should_stop (on_done iw url r w) = should_stop w.
Proof. destruct r as [code|]; cbn; [destruct (iw && (code =? 200))|]; reflexivity. Qed.

Lemma files_on_done iw url r w : files (on_done iw url r w) = files w.
Proof. destruct r as [code|]; cbn; [destruct (iw && (code =? 200))|]; reflexivity. Qed.

Section Runs.
Variable in_worker : bool.
Variable P : string -> Prop.

Lemma runs_one w w' : wstep in_worker P w w' -> runs in_worker P w w'.
Proof. intros H. eapply runs_step; [apply runs_refl|exact H]. Qed.

Lemma runs_trans w1 w2 w3 :
  runs in_worker P w1 w2 -> runs in_worker P w2 w3 -> runs in_worker P w1 w3.
Proof.
  intros H12 H23. induction H23 as [|w2 w3 w4 _ IH Hs]; [assumption|].
  apply (runs_step _ _ _ w3); auto.
Qed.

Lemma wstep_trace w w' :
  wstep in_worker P w w' -> trace w' = trace w \/ exists e, trace w' = trace w ++ [e].
Proof.
  destruct 1; cbn; eauto.
  right. exists (EvDone url r). now rewrite trace_on_done.
Qed.

Lemma runs_trace w w' :
  runs in_worker P w w' -> exists ext, trace w' = trace w ++ ext.
Proof.
  induction 1 as [|w w1 w2 _ [ext IH] Hs].
  - exists []. now rewrite app_nil_r.
  - destruct (wstep_trace _ _ Hs) as [E|[e E]]; rewrite E, IH.
    + now exists ext.
    + exists (ext ++ [e]). now rewrite app_assoc.
Qed.

Lemma runs_In w w' e : runs in_worker P w w' -> In e (trace w) -> In e (trace w').
Proof. intros H Hin. destruct (runs_trace _ _ H) as [ext ->]. apply in_or_app. now left. Qed.

Lemma sound_runs w w' p : runs in_worker P w w' -> sound w p -> sound w' p.
Proof. intros H S f u Hin. eapply runs_In; eauto. Qed.
End Runs.

Lemma wstep_mono iw (P Q : string -> Prop) w w' :
  (forall fh, P fh -> Q fh) -> wstep iw P w w' -> wstep iw Q w w'.
Proof. intros HPQ H. destruct H; try (constructor; auto; fail). Qed.

Lemma runs_mono iw (P Q : string -> Prop) w w' :
  (forall fh, P fh -> Q fh) -> runs iw P w w' -> runs iw Q w w'.
Proof.
  intros HPQ H. induction H as [|w w1 w2 _ IH Hs]; [apply runs_refl|].
  apply (runs_step _ _ _ w1); [assumption|]. eapply wstep_mono; eauto.
Qed.

Section Executor.
Variable in_worker : bool.
Variable P : string -> Prop.
Variable wk : worker.
Hypothesis Hwk : civil in_worker wk.
Variable mw : Z.

Lemma start_next_runs w p w' p' :
  start_next wk mw w p = (w', p') -> sound w p -> runs in_worker P w w' /\ sound w' p'.
Proof.
  unfold start_next. destruct (queued p) as [|f q].
  - intros [= <- <-] S. split; [apply runs_refl|assumption].
  - destruct (_ <? mw).
    + destruct (before_request wk f w) as [v|url] eqn:E.
      * intros [= <- <-] S. split; [apply runs_refl|].
        intros g u Hin. cbn in Hin. apply in_app_or in Hin as [Hin|[[= _ Hv]|[]]].
        -- eapply S; eauto.
        -- exfalso. eapply (civil_skip _ _ Hwk); eauto.
      * intros [= <- <-] S.
        assert (R : runs in_worker P w (log (EvProbe url) w)).
        { apply runs_one. constructor. eapply (civil_before _ _ Hwk); eauto. }
        split; [exact R|]. intros g u Hin. cbn in Hin.
        eapply runs_In; eauto.
    + intros [= <- <-] S. split; [apply runs_refl|assumption].
Qed.

Lemma finish_runs k net w p w' p' :
  finish wk k net w p = (w', p') -> sound w p -> runs in_worker P w w' /\ sound w' p'.
Proof.
  unfold finish. destruct (take_out k (running p)) as [[[f url] others]|].
  - destruct (after_request wk url _ _) as [v w1] eqn:E.
    intros [= <- <-] S.
    pose proof (civil_after _ _ Hwk _ _ _ _ _ E) as Ew. subst w1.
    assert (R : runs in_worker P w (on_done in_worker url (session_head (the_session wk) net)
                                (log (EvDone url (session_head (the_session wk) net)) w))).
    { apply runs_one. constructor. }
    split; [exact R|]. intros g u Hin. cbn in Hin.
    apply in_app_or in Hin as [Hin|[[= _ Hv]|[]]].
    + eapply runs_In; eauto.
    + destruct (civil_result _ _ Hwk _ _ _ _ _ _ E Hv) as [-> Er].
      rewrite trace_on_done, trace_log, Er. apply in_or_app. right. now left.
  - intros [= <- <-] S. split; [apply runs_refl|assumption].
Qed.

Lemma act_runs a w p w' p' :
  act wk mw a w p = (w', p') -> sound w p -> runs in_worker P w w' /\ sound w' p'.
Proof.
  destruct a; cbn [act].
  - intros [= <- <-] S.
    assert (R : runs in_worker P w (signal_handler w)) by (apply runs_one; constructor).
    split; [exact R|]. eapply sound_runs; eauto.
  - intros [= <- <-] S.
    assert (R : runs in_worker P w (tick dt w)) by (apply runs_one; constructor).
    split; [exact R|]. eapply sound_runs; eauto.
  - apply start_next_runs.
  - apply finish_runs.
  - intros [= <- <-] S. split; [apply runs_refl|assumption].
Qed.

Lemma absorb_runs sched : forall w p w' p' rest,
  absorb wk mw sched w p = (w', p', rest) -> sound w p -> runs in_worker P w w' /\ sound w' p'.
Proof.
  induction sched as [|a sched IH]; intros w p w' p' rest; cbn [absorb].
  - intros [= <- <- <-] S. split; [apply runs_refl|assumption].
  - destruct a; try (now intros [= <- <- <-] S; split; [apply runs_refl|assumption]).
    all: match goal with |- context [act wk mw ?a ?w0 ?p0] =>
           destruct (act wk mw a w0 p0) as [w1 p1] eqn:E end;
         intros H S; destruct (act_runs _ _ _ _ _ E S) as [R1 S1];
         destruct (IH _ _ _ _ _ H S1) as [R2 S2];
         split; [eapply runs_trans; eauto|assumption].
Qed.

Lemma settle_runs w p w' p' :
  settle wk mw w p = (w', p') -> sound w p -> runs in_worker P w w' /\ sound w' p'.
Proof.
  unfold settle. destruct (finished p).
  - destruct (running p) as [|[f url] r].
    + destruct (start_next wk mw w p) as [w1 p1] eqn:E.
      intros H S. destruct (start_next_runs _ _ _ _ E S) as [R1 S1].
      destruct (finished p1); [destruct (running p1) as [|[g ?] ?]|].
      * injection H as <- <-. auto.
      * destruct (finish_runs _ _ _ _ _ _ H S1) as [R2 S2].
        split; [eapply runs_trans; eauto|assumption].
      * injection H as <- <-. auto.
    + apply finish_runs.
  - intros [= <- <-] S. split; [apply runs_refl|assumption].
Qed.

Lemma drain_runs n : forall w p w' p',
  drain wk mw n w p = (w', p') -> sound w p -> runs in_worker P w w' /\ sound w' p'.
Proof.
  induction n as [|n IH]; intros w p w' p'; cbn [drain].
  - intros [= <- <-] S. split; [apply runs_refl|assumption].
  - destruct (running p) as [|[f url] r].
    + destruct (queued p).
      * intros [= <- <-] S. split; [apply runs_refl|assumption].
      * destruct (start_next wk mw w p) as [w1 p1] eqn:E.
        intros H S. destruct (start_next_runs _ _ _ _ E S) as [R1 S1].
        destruct (IH _ _ _ _ H S1) as [R2 S2].
        split; [eapply runs_trans; eauto|assumption].
    + destruct (finish wk (fid f) [] w p) as [w1 p1] eqn:E.
      intros H S. destruct (finish_runs _ _ _ _ _ _ E S) as [R1 S1].
      destruct (IH _ _ _ _ H S1) as [R2 S2].
      split; [eapply runs_trans; eauto|assumption].
Qed.

Lemma join_workers_runs sched w p w' rest :
  join_workers wk mw sched w p = (w', rest) -> sound w p -> runs in_worker P w w'.
Proof.
  unfold join_workers.
  destruct (absorb wk mw sched w p) as [[w1 p1] sched1] eqn:E1.
  destruct (drain wk mw _ w1 p1) as [w2 p2] eqn:E2.
  intros [= <- <-] S. destruct (absorb_runs _ _ _ _ _ _ E1 S) as [R1 S1].
  destruct (drain_runs _ _ _ _ _ E2 S1) as [R2 _].
  eapply runs_trans; eauto.
Qed.

Lemma submit_all_runs tasks : forall k w p w' p',
  submit_all k tasks w p = (w', p') ->
  should_stop w = false -> Forall (fun t => P (fst t)) tasks -> sound w p ->
  runs in_worker P w w' /\ sound w' p' /\ should_stop w' = false /\
  finished p' = finished p /\ running p' = running p.
Proof.
  induction tasks as [|[fh tn] tasks IH]; intros k w p w' p'; cbn [submit_all].
  - intros [= <- <-] Hs _ S. repeat split; auto. apply runs_refl.
  - intros H Hs HP S. inversion HP as [|? ? Hfh HP']; subst. cbn in Hfh.
    assert (R : runs in_worker P w (log (EvSubmit fh tn) w)) by (apply runs_one; constructor; auto).
    apply IH in H as (R2 & S2 & Hs2 & F2 & G2); auto.
    + repeat split; auto. eapply runs_trans; eauto.
    + intros g u Hin. cbn in Hin. eapply runs_In; eauto.
Qed.
End Executor.

(** ** The two scripts refine the step relation *)

Lemma check_link_civil env : civil true (ModifiedScript.check_link env).
Proof.
  constructor; cbn.
  - intros f w url. unfold ModifiedScript.check_link_before.
    destruct (should_stop w); [discriminate|reflexivity].
  - intros f w v. unfold ModifiedScript.check_link_before.
    destruct (should_stop w); [|discriminate]. intros [= <-] u. discriminate.
  - intros url [code|e] w v w'; cbn; [destruct (code =? 200)|]; now intros [= _ <-].
  - intros url [code|e] w v w' u; cbn; [destruct (code =? 200)|]; intros [= <- _]; discriminate.
Qed.

Lemma check_wm_link_civil env s : civil false (WmScript.check_wm_link env s).
Proof.
  constructor; cbn.
  - intros f w url. unfold WmScript.check_wm_link_before.
    destruct (should_stop w); [discriminate|reflexivity].
  - intros f w v. unfold WmScript.check_wm_link_before.
    destruct (should_stop w); [|discriminate]. intros [= <-] u. discriminate.
  - intros url [code|e] w v w'; cbn; [destruct (code =? 200)|]; now intros [= _ <-].
  - intros url [code|e] w v w' u; cbn; [destruct (Z.eqb_spec code 200)|];
      intros [= <- _]; try discriminate. intros [= <-]. subst. auto.
Qed.

Lemma sound_no_pool w : sound w no_pool.
Proof. intros f u []. Qed.

Lemma sound_cancel w p : sound w p -> sound w (cancel_pending p).
Proof. intros S f u Hin. eapply S; eauto. Qed.

Lemma date_le_refl d : date_le d d = true.
Proof.
  unfold date_le. rewrite !Z.eqb_refl, Z.leb_refl. cbn. now rewrite !orb_true_r.
Qed.

Lemma from_day_next base cur next fh :
  valid_date cur = true -> add_one_day cur = Ok next ->
  from_day base next fh -> from_day base cur fh.
Proof.
  intros V E (d & Vd & Hle & ->). exists d. repeat split; auto.
  destruct (add_one_day_ok _ _ V E) as [Vn On].
  rewrite (date_le_ordinal _ _ Vn Vd) in Hle. rewrite (date_le_ordinal _ _ V Vd).
  apply Z.leb_le in Hle. apply Z.leb_le. lia.
Qed.

Section Simple.
Variable env : environ.
Variable P : string -> Prop.
Variable mw : Z.

Lemma modified_collect_runs n : forall sched w p w' p' rest,
  ModifiedScript.collect (ModifiedScript.check_link env) mw n sched w p = (w', p', rest) ->
  sound w p -> runs true P w w' /\ sound w' p'.
Proof.
  induction n as [|n IH]; intros sched w p w' p' rest; cbn [ModifiedScript.collect].
  - intros [= <- <- <-] S. split; [apply runs_refl|assumption].
  - destruct (absorb _ mw sched w p) as [[w1 p1] sched1] eqn:E1.
    destruct (settle _ mw w1 p1) as [w2 p2] eqn:E2.
    intros H S.
    destruct (absorb_runs true P _ (check_link_civil env) _ _ _ _ _ _ _ E1 S) as [R1 S1].
    destruct (settle_runs true P _ (check_link_civil env) _ _ _ _ _ E2 S1) as [R2 S2].
    assert (R12 : runs true P w w2) by (eapply runs_trans; eauto).
    destruct (finished p2) as [|x later] eqn:EF.
    + injection H as <- <- <-. auto.
    + destruct (should_stop w2).
      * injection H as <- <- <-. auto.
      * apply IH in H as [R3 S3].
        -- split; [eapply runs_trans; eauto|assumption].
        -- intros f u Hin. cbn in Hin. apply (S2 f u). rewrite EF. now right.
Qed.

End Simple.

Lemma run_tasks_runs env P a tasks sched w e w' :
  ModifiedScript.run_tasks env a tasks sched w = (e, w') ->
  should_stop w = false -> Forall (fun t => P (fst t)) tasks ->
  (w' = w /\ e = Uncaught (ValueError BadMaxWorkers) /\ ModifiedScript.workers a <= 0) \/
  exists w3, runs true P w w3 /\ w' = write_output w3 /\ e = Exit0.
Proof.
  unfold ModifiedScript.run_tasks.
  destruct (Z.leb_spec (ModifiedScript.workers a) 0); [intros [= <- <-]; now left|].
  destruct (submit_all 0 tasks w no_pool) as [w1 p1] eqn:E1.
  destruct (ModifiedScript.collect _ _ _ sched w1 p1) as [[w2 p2] sched2] eqn:E2.
  destruct (join_workers _ _ sched2 w2 _) as [w3 rest] eqn:E3.
  intros [= <- <-] Hs HP. right. exists w3. repeat split; auto.
  destruct (submit_all_runs true P _ _ _ _ _ _ E1 Hs HP (sound_no_pool w)) as (R1 & S1 & _).
  destruct (modified_collect_runs env P _ _ _ _ _ _ _ _ E2 S1) as [R2 S2].
  assert (S2' : sound w2 (if should_stop w2 then cancel_pending p2 else p2)).
  { destruct (should_stop w2); auto using sound_cancel. }
  pose proof (join_workers_runs true P _ (check_link_civil env) _ _ _ _ _ _ E3 S2') as R3.
  eapply runs_trans; [|exact R3]. eapply runs_trans; eauto.
Qed.


Section Resumable.
Variable env : environ.
Variable a : WmScript.args.
Variable guard : WmScript.TimeoutGuard.t.
Variable s : session.

Lemma keep_result_runs P res w :
  (forall u, res = PyStr u -> In (EvDone u (Response 200)) (trace w)) ->
  runs false P w (WmScript.keep_result res w).
Proof.
  intros H. unfold WmScript.keep_result.
  destruct (truthy res); [|apply runs_refl].
  destruct res; try apply runs_refl.
  apply runs_one. constructor; auto.
Qed.

Lemma wm_collect_runs P n : forall sched w p w' p' rest,
  WmScript.collect (WmScript.check_wm_link env s) guard (WmScript.workers a) n sched w p
  = (w', p', rest) ->
  sound w p -> runs false P w w' /\ sound w' p'.
Proof.
  induction n as [|n IH]; intros sched w p w' p' rest; cbn [WmScript.collect].
  - intros [= <- <- <-] S. split; [apply runs_refl|assumption].
  - destruct (absorb _ _ sched w p) as [[w1 p1] sched1] eqn:E1.
    destruct (settle _ _ w1 p1) as [w2 p2] eqn:E2.
    intros H S.
    destruct (absorb_runs false P _ (check_wm_link_civil env s) _ _ _ _ _ _ _ E1 S) as [R1 S1].
    destruct (settle_runs false P _ (check_wm_link_civil env s) _ _ _ _ _ E2 S1) as [R2 S2].
    assert (R12 : runs false P w w2) by (eapply runs_trans; eauto).
    destruct (finished p2) as [|[f res] later] eqn:EF.
    + injection H as <- <- <-. auto.
    + destruct (should_stop w2 || _).
      * injection H as <- <- <-. auto using sound_cancel.
      * assert (Rk : runs false P w2 (WmScript.keep_result res w2)).
        { apply keep_result_runs. intros u ->. apply (S2 f u). rewrite EF. now left. }
        apply IH in H as [R3 S3].
        -- split; [|assumption]. eapply runs_trans; [|exact R3]. eapply runs_trans; eauto.
        -- intros g u Hin. cbn in Hin. eapply runs_In; [exact Rk|].
           apply (S2 g u). rewrite EF. now right.
Qed.

Lemma batches_runs : forall fuel cur stop sched w r w' rest,
  valid_date cur = true ->
  WmScript.batches fuel env a guard s cur stop sched w = (r, w', rest) ->
  runs false (from_day (WmScript.base a) cur) w w'.
Proof.
  induction fuel as [|fuel IH]; intros cur stop sched w r w' rest V; cbn [WmScript.batches].
  - intros [= _ <- _]. apply runs_refl.
  - destruct (date_le cur stop && negb (should_stop w)) eqn:Etop.
    2: { intros [= _ <- _]. apply runs_refl. }
    apply andb_true_iff in Etop as [Ele Es]. apply negb_true_iff in Es.
    destruct (WmScript.TimeoutGuard.check_timeout guard w).
    { intros [= _ <- _]. apply runs_one. constructor. }
    destruct (generate_time_numbers _ _) as [tns|e].
    2: { intros [= _ <- _]. apply runs_refl. }
    destruct (WmScript.workers a <=? 0).
    { intros [= _ <- _]. apply runs_refl. }
    destruct (submit_all 0 _ w no_pool) as [w1 p1] eqn:E1.
    destruct (WmScript.collect _ guard _ _ sched w1 p1) as [[w2 p2] sched2] eqn:E2.
    destruct (join_workers _ _ sched2 w2 p2) as [w3 sched3] eqn:E3.
    assert (R3 : runs false (from_day (WmScript.base a) cur) w w3).
    { destruct (submit_all_runs false (from_day (WmScript.base a) cur) _ _ _ _ _ _ E1 Es)
        as (R1 & S1 & _).
      - apply Forall_forall. intros [fh tn] Hin. apply in_map_iff in Hin as (t & [= <- _] & _).
        cbn. exists cur. repeat split; auto using date_le_refl.
      - apply sound_no_pool.
      - destruct (wm_collect_runs (from_day (WmScript.base a) cur) _ _ _ _ _ _ _ E2 S1) as [R2 S2].
        pose proof (join_workers_runs false (from_day (WmScript.base a) cur) _
                      (check_wm_link_civil env s) _ _ _ _ _ _ E3 S2) as R3.
        eapply runs_trans; [|exact R3]. eapply runs_trans; eauto. }
    destruct (add_one_day cur) as [next|e] eqn:En.
    2: { intros [= _ <- _]. exact R3. }
    intros H. destruct (add_one_day_ok _ _ V En) as [Vn _].
    apply IH in H; auto. eapply runs_trans; [exact R3|].
    eapply runs_mono; [|exact H]. intros fh. now apply from_day_next.
Qed.
End Resumable.

(** ** Invariants of the step relation *)




Lemma successes_snoc tr e : successes (tr ++ [e]) = successes tr ++ success_of e.
Proof. unfold successes. rewrite flat_map_app. cbn. now rewrite app_nil_r. Qed.

Lemma filter_snoc {A} (f : A -> bool) l x :
  filter f (l ++ [x]) = filter f l ++ (if f x then [x] else []).
Proof. rewrite filter_app. reflexivity. Qed.

Lemma VALID_LINKS_on_done iw url r w :
  VALID_LINKS (on_done iw url r w) =
  VALID_LINKS w ++ (if iw then success_of (EvDone url r) else []).
Proof.
  destruct r as [code|]; cbn.
  - destruct iw; cbn; [destruct (code =? 200)|]; cbn; now rewrite ?app_nil_r.
  - destruct iw; now rewrite app_nil_r.
Qed.

Ltac fields :=
  cbn [trace should_stop VALID_LINKS files now signal_handler tick append_link
       write_file log] in *.

Section Invariants.
Variable iw : bool.
Variable P : string -> Prop.





Lemma wstep_vouched w w' : wstep iw P w w' -> vouched w -> vouched w'.
Proof.
  unfold vouched. intros St L u.
  destruct St as [w|w dt|w fh' tn' Hst HP|w url Hst|w url r|w url Hiw Hdone|w path content];
    fields; rewrite ?trace_on_done, ?trace_log; auto;
    try (intros Hin; apply in_or_app; left; now apply L).
  - rewrite VALID_LINKS_on_done. cbn [VALID_LINKS log]. intros Hin.
    apply in_app_or in Hin as [Hin|Hin]; apply in_or_app; [left; auto|right].
    destruct iw; [|destruct Hin]. destruct r as [code|]; [|destruct Hin]. cbn in Hin.
    destruct (Z.eqb_spec code 200); [|destruct Hin]. destruct Hin as [<-|[]]. subst. now left.
  - intros Hin. apply in_app_or in Hin as [Hin|[<-|[]]]; auto.
Qed.

Lemma runs_vouched w w' : runs iw P w w' -> vouched w -> vouched w'.
Proof. induction 1 as [|w w1 w2 _ IH Hs]; [auto|]. intros H. eapply wstep_vouched; eauto. Qed.

Lemma wstep_submits w w' fh tn :
  wstep iw P w w' -> In (EvSubmit fh tn) (trace w') ->
  In (EvSubmit fh tn) (trace w) \/ P fh.
Proof.
  intros St.
  destruct St as [w|w dt|w fh' tn' Hst HP|w url Hst|w url r|w url Hiw Hdone|w path content];
    fields;
    rewrite ?trace_on_done, ?trace_log; auto; intros Hin;
    apply in_app_or in Hin as [Hin|[[=]|[]]]; auto.
  subst. auto.
Qed.

Lemma runs_submits w w' fh tn :
  runs iw P w w' -> In (EvSubmit fh tn) (trace w') ->
  In (EvSubmit fh tn) (trace w) \/ P fh.
Proof.
  induction 1 as [|w w1 w2 _ IH Hs]; [auto|]. intros Hin.
  destruct (wstep_submits _ _ _ _ Hs Hin); auto.
Qed.

Lemma wstep_should_stop w w' : wstep iw P w w' -> should_stop w = true -> should_stop w' = true.
Proof. intros St.
destruct St as [w|w dt|w fh' tn' Hst HP|w url Hst|w url r|w url Hiw Hdone|w path content];
  fields; rewrite ?should_stop_on_done; auto. Qed.

Lemma runs_should_stop w w' : runs iw P w w' -> should_stop w = true -> should_stop w' = true.
Proof. induction 1 as [|w w1 w2 _ IH Hs]; [auto|]. intros H. eapply wstep_should_stop; eauto. Qed.
End Invariants.

Lemma wstep_exact P w w' :
  wstep true P w w' -> VALID_LINKS w = successes (trace w) ->
  VALID_LINKS w' = successes (trace w').
Proof.
  intros St.
  destruct St as [w|w dt|w fh' tn' Hst HP|w url Hst|w url r|w url Hiw Hdone|w path content];
    fields;
    rewrite ?trace_on_done, ?trace_log, ?successes_snoc; cbn;
    rewrite ?app_nil_r; auto.
  - rewrite VALID_LINKS_on_done. cbn [VALID_LINKS log]. now intros ->.
  - discriminate.
Qed.

Lemma runs_exact P w w' :
  runs true P w w' -> VALID_LINKS w = successes (trace w) ->
  VALID_LINKS w' = successes (trace w').
Proof. induction 1 as [|w w1 w2 _ IH Hs]; [auto|]. intros H. eapply wstep_exact; eauto. Qed.

(** ** The shape of a run *)

Lemma idle_refl w : idle w w.
Proof. split; [exists 0%nat; cbn; now rewrite app_nil_r|auto]. Qed.

Lemma idle_trans w1 w2 w3 : idle w1 w2 -> idle w2 w3 -> idle w1 w3.
Proof.
  intros ((k1 & E1) & L1 & F1) ((k2 & E2) & L2 & F2). split; [|split; congruence].
  exists (k1 + k2)%nat. rewrite E2, E1, <- app_assoc. f_equal. symmetry. apply repeat_app.
Qed.

Lemma absorb_idle wk mw sched : forall w w' p' rest,
  absorb wk mw sched w no_pool = (w', p', rest) -> p' = no_pool /\ idle w w'.
Proof.
  induction sched as [|a sched IH]; intros w w' p' rest; cbn [absorb].
  - intros [= <- <- <-]. split; [reflexivity|apply idle_refl].
  - destruct a; cbn [act start_next finish no_pool queued running take_out]; intros H.
    + apply IH in H as [-> I]. split; [reflexivity|].
      eapply idle_trans; [|exact I]. split; [exists 1%nat; reflexivity|auto].
    + apply IH in H as [-> I]. split; [reflexivity|].
      eapply idle_trans; [|exact I]. split; [exists 0%nat; cbn; now rewrite app_nil_r|auto].
    + exact (IH _ _ _ _ H).
    + exact (IH _ _ _ _ H).
    + injection H as <- <- <-. split; [reflexivity|apply idle_refl].
Qed.

Lemma resume_point_valid guard cur cur' :
  valid_date cur = true -> WmScript.resume_point guard cur = Ok cur' -> valid_date cur' = true.
Proof.
  intros V. unfold WmScript.resume_point.
  destruct (WmScript.TimeoutGuard.last_progress guard) as [[|c s]|]; try (now intros [= <-]).
  intros H. apply bind_ok in H as (d & E & H). injection H as <-.
  destruct (date_gt d cur); [eapply strptime_valid; eauto|assumption].
Qed.

Lemma process_date_range_runs env a guard sched w r w' rest :
  WmScript.process_date_range env a guard sched w = (r, w', rest) ->
  (exists e, r = Err e /\ w' = w) \/
  exists start stop cur,
    strptime (WmScript.start_date a) = Ok start /\
    strptime (WmScript.end_date a) = Ok stop /\
    WmScript.resume_point guard start = Ok cur /\
    runs false (from_day (WmScript.base a) cur) w w'.
Proof.
  unfold WmScript.process_date_range.
  destruct (strptime (WmScript.start_date a)) as [start|e] eqn:E1.
  2: { intros [= <- <- _]. left. eauto. }
  destruct (strptime (WmScript.end_date a)) as [stop|e] eqn:E2.
  2: { intros [= <- <- _]. left. eauto. }
  destruct (WmScript.resume_point guard start) as [cur|e] eqn:E3.
  2: { intros [= <- <- _]. left. eauto. }
  destruct (absorb _ _ sched w no_pool) as [[w1 p1] sched1] eqn:E4.
  intros H. right. exists start, stop, cur. repeat split; auto.
  destruct (absorb_runs false (from_day (WmScript.base a) cur) _
              (check_wm_link_civil env WmScript.create_retry_session) _ _ _ _ _ _ _ E4
              (sound_no_pool w)) as [R1 _].
  eapply runs_trans; [exact R1|].
  eapply batches_runs; [|exact H].
  eapply resume_point_valid; [|exact E3]. eapply strptime_valid; eauto.
Qed.

Lemma wm_main_shape env a sched w :
  exists w1, runs false (fun _ => True) w w1 /\
             snd (WmScript.main env a sched w) = write_output w1.
Proof.
  unfold WmScript.main.
  destruct (WmScript.process_date_range env a _ sched w) as [[r w1] rest] eqn:E.
  exists w1. split.
  - apply process_date_range_runs in E as [(e & _ & ->)|(start & stop & cur & _ & _ & _ & R)].
    + apply runs_refl.
    + eapply runs_mono; [|exact R]. auto.
  - destruct (WmScript.verdict a r); reflexivity.
Qed.

Lemma modified_main_shape env a sched w :
  should_stop w = false ->
  (fst (ModifiedScript.main env a sched w) <> Exit0 /\
   snd (ModifiedScript.main env a sched w) = w) \/
  (fst (ModifiedScript.main env a sched w) = Exit0 /\
   exists w3, runs true (fun _ => True) w w3 /\
              snd (ModifiedScript.main env a sched w) = write_output w3).
Proof.
  intros Hs. unfold ModifiedScript.main.
  destruct (ModifiedScript.validate a) as [[[start stop] tns]|e].
  2: { left. destruct e; cbn; split; auto; discriminate. }
  destruct (ModifiedScript.generate_tasks _ _ _ _ _) as [tasks|e].
  2: { left. cbn; split; auto; discriminate. }
  destruct (ModifiedScript.run_tasks env a tasks sched w) as [e w'] eqn:E.
  apply (run_tasks_runs env (fun _ => True)) in E as [(-> & -> & _)|(w3 & R & -> & ->)]; auto.
  - left. cbn. split; auto; discriminate.
  - right. cbn. split; eauto.
  - apply Forall_forall. auto.
Qed.

(** ** The loops never run out of fuel *)

Lemma int_err s e : int s = Err e -> e = ValueError BadIntLiteral.
Proof. unfold int. destruct (isdigit s); [discriminate|now intros [= <-]]. Qed.

Lemma bind_err {A B} (r : result A) (k : A -> result B) e :
  bind r k = Err e -> r = Err e \/ exists a, r = Ok a /\ k a = Err e.
Proof. destruct r; cbn; [right; eauto|intros [= <-]; now left]. Qed.

Lemma seconds_of_err t e : seconds_of t = Err e -> e <> OutOfFuel.
Proof.
  unfold seconds_of. intros H.
  apply bind_err in H as [H|(h & _ & H)]; [apply int_err in H; now subst|].
  apply bind_err in H as [H|(m & _ & H)]; [apply int_err in H; now subst|].
  apply bind_err in H as [H|(s & _ & H)]; [apply int_err in H; now subst|discriminate].
Qed.

Lemma generate_time_numbers_err st et e :
  generate_time_numbers st et = Err e -> e <> OutOfFuel.
Proof.
  unfold generate_time_numbers. intros H.
  apply bind_err in H as [H|(s1 & _ & H)]; [now apply seconds_of_err in H|].
  apply bind_err in H as [H|(s2 & _ & H)]; [now apply seconds_of_err in H|].
  destruct (s2 <? s1); [injection H as <-|]; discriminate.
Qed.

Lemma add_one_day_err d e : add_one_day d = Err e -> e = OverflowError.
Proof.
  unfold add_one_day. destruct (_ <? _); [discriminate|].
  destruct (_ <? _); [discriminate|]. destruct (_ <? _); [discriminate|]. now intros [= <-].
Qed.

Lemma strptime_err s e : strptime s = Err e -> e = ValueError BadDateFormat.
Proof.
  unfold strptime. destruct (_ && _); [|now intros [= <-]].
  destruct (valid_date _); [discriminate|now intros [= <-]].
Qed.




Lemma february_loop_fuel stop :
  valid_date stop = true ->
  forall fuel cur,
    valid_date cur = true ->
    (Z.to_nat (toordinal stop - toordinal cur + 1) < fuel)%nat ->
    ModifiedScript.february_loop fuel cur stop <> Err OutOfFuel.
Proof.
  intros Vs. induction fuel as [|fuel IH]; intros cur V Hf; [lia|].
  cbn [ModifiedScript.february_loop].
  destruct (date_le cur stop) eqn:Ele; [|discriminate].
  rewrite (date_le_ordinal _ _ V Vs) in Ele. apply Z.leb_le in Ele.
  destruct (_ && _); [discriminate|].
  destruct (add_one_day cur) as [next|e] eqn:En; cbn [bind].
  - destruct (add_one_day_ok _ _ V En) as [Vn On]. apply IH; [assumption|lia].
  - apply add_one_day_err in En. subst. discriminate.
Qed.

Lemma validate_time_err t e : ModifiedScript.validate_time t = Err e -> e <> OutOfFuel.
Proof.
  unfold ModifiedScript.validate_time.
  destruct (_ || _); [intros [= <-]; discriminate|]. intros H.
  apply bind_err in H as [H|(h & _ & H)]; [apply int_err in H; now subst|].
  apply bind_err in H as [H|(m & _ & H)]; [apply int_err in H; now subst|].
  apply bind_err in H as [H|(s & _ & H)]; [apply int_err in H; now subst|].
  destruct (negb _); [injection H as <-; discriminate|].
  destruct (negb _); [injection H as <-; discriminate|].
  destruct (negb _); [injection H as <-; discriminate|discriminate].
Qed.

Lemma validate_err a e : ModifiedScript.validate a = Err e -> e <> OutOfFuel.
Proof.
  unfold ModifiedScript.validate, ModifiedScript.validate_date. intros H.
  apply bind_err in H as [H|(start & E1 & H)]; [apply strptime_err in H; now subst|].
  apply bind_err in H as [H|(stop & E2 & H)]; [apply strptime_err in H; now subst|].
  apply bind_err in H as [H|([] & E3 & H)].
  { unfold ModifiedScript.validate_date_range in H.
    destruct (date_gt start stop); [injection H as <-; discriminate|].
    intros ->. revert H.
    apply february_loop_fuel; eauto using strptime_valid; unfold span; lia. }
  apply bind_err in H as [H|(st & _ & H)]; [now apply validate_time_err in H|].
  apply bind_err in H as [H|(et & _ & H)]; [now apply validate_time_err in H|].
  apply bind_err in H as [H|(tns & _ & H)]; [now apply generate_time_numbers_err in H|].
  discriminate.
Qed.

Lemma validate_tasks a start stop tns :
  ModifiedScript.validate a = Ok (start, stop, tns) ->
  exists tasks,
    ModifiedScript.generate_tasks (span start stop) (ModifiedScript.base a) tns start stop
    = Ok tasks.
Proof.
  intros H. apply validate_inv in H as (E1 & E2 & E3 & _).
  unfold ModifiedScript.validate_date_range in E3.
  destruct (date_gt start stop); [discriminate|].
  destruct (generate_tasks_spec (ModifiedScript.base a) tns _ _ _
              (strptime_valid _ _ E1) (strptime_valid _ _ E2) E3) as (days & G & _).
  eauto.
Qed.

Lemma modified_main_total env a sched w :
  fst (ModifiedScript.main env a sched w) <> Uncaught OutOfFuel.
Proof.
  unfold ModifiedScript.main.
  destruct (ModifiedScript.validate a) as [[[start stop] tns]|e] eqn:E.
  - destruct (validate_tasks _ _ _ _ E) as [tasks ->].
    unfold ModifiedScript.run_tasks. destruct (_ <=? 0); [discriminate|].
    destruct (submit_all _ _ _ _) as [w1 p1].
    destruct (ModifiedScript.collect _ _ _ _ _ _) as [[w2 p2] sched2].
    destruct (join_workers _ _ _ _ _) as [w3 ?]. discriminate.
  - apply validate_err in E. destruct e; cbn; congruence.
Qed.

(** ** Runs without signal and without time-out *)

Lemma take_out_spec k : forall l x others,
  take_out k l = Some (x, others) ->
  List.length l = S (List.length others) /\ In x l /\ (forall y, In y others -> In y l).
Proof.
  induction l as [|z l IH]; intros x others; cbn [take_out]; [discriminate|].
  destruct (Nat.eqb (fid (fst z)) k).
  - intros [= <- <-]. repeat split; auto. now left. intros y Hy. now right.
  - destruct (take_out k l) as [[y o]|] eqn:E; [|discriminate].
    intros [= <- <-]. destruct (IH _ _ eq_refl) as (L & I & S).
    cbn. repeat split; auto. intros u [<-|Hu]; auto.
Qed.

Lemma take_out_head f url rest :
  take_out (fid f) ((f, url) :: rest) = Some (f, url, rest).
Proof. cbn. now rewrite Nat.eqb_refl. Qed.


Section Calm.
Variable env : environ.
Variable s : session.
Variable guard : WmScript.TimeoutGuard.t.
Variable mw : Z.
Variable t0 : Z.
Hypothesis Hmw : 0 < mw.
Hypothesis Hguard :
  300 <= WmScript.TimeoutGuard.max_runtime guard
         - (t0 - WmScript.TimeoutGuard.start_time guard).





End Calm.

Lemma keep_result_spec res w :
  VALID_LINKS (WmScript.keep_result res w) = VALID_LINKS w ++ kept res /\
  trace (WmScript.keep_result res w) = trace w /\
  should_stop (WmScript.keep_result res w) = should_stop w /\
  now (WmScript.keep_result res w) = now w.
Proof.
  unfold WmScript.keep_result, kept.
  destruct res as [b| |u]; cbn -[truthy]; try (destruct (truthy _)); cbn;
    rewrite ?app_nil_r; auto.
Qed.

Lemma size_zero p : size p = 0%nat -> p = no_pool.
Proof.
  destruct p as [q r f]. unfold size. cbn.
  destruct q, r, f; cbn; intros H; try lia. reflexivity.
Qed.


Section CalmBatch.
Variable env : environ.
Variable s : session.
Variable guard : WmScript.TimeoutGuard.t.
Variable mw : Z.
Variable t0 : Z.
Hypothesis Hmw : 0 < mw.
Hypothesis Hguard :
  300 <= WmScript.TimeoutGuard.max_runtime guard
         - (t0 - WmScript.TimeoutGuard.start_time guard).



End CalmBatch.




Lemma now_on_done iw url r w : now (on_done iw url r w) = now w.
Proof. destruct r as [code|]; cbn; [destruct (iw && (code =? 200))|]; reflexivity. Qed.

Lemma probes_snoc tr e : probes (tr ++ [e]) = (probes tr + if is_probe e then 1 else 0)%nat.
Proof. unfold probes. rewrite filter_snoc, length_app. now destruct (is_probe e). Qed.

Lemma submits_snoc tr e : submits (tr ++ [e]) = (submits tr + if is_submit e then 1 else 0)%nat.
Proof. unfold submits. rewrite filter_snoc, length_app. now destruct (is_submit e). Qed.

Section Tally.
Variable in_worker : bool.
Variable wk : worker.
Hypothesis Hcivil : civil in_worker wk.
Hypothesis Heager : eager wk.
Variable mw : Z.
Variable t0 : Z.

Lemma start_next_tally w p w' p' :
  start_next wk mw w p = (w', p') ->
  tally t0 w p -> tally t0 w' p' /\ size p' = size p.
Proof.
  unfold start_next. intros H S.
  destruct (queued p) as [|f q] eqn:Eq; [injection H as <- <-; split; [exact S|reflexivity]|].
  destruct (_ <? mw); [|injection H as <- <-; split; [exact S|reflexivity]].
  destruct S as (Hs & Hn & Hc). rewrite Eq in Hc.
  destruct (Heager f w Hs) as [url Eu]. rewrite Eu in H. injection H as <- <-. split.
  - split; [exact Hs|split; [exact Hn|]]. cbn [trace log queued].
    rewrite probes_snoc, submits_snoc. cbn in *. lia.
  - unfold size. cbn [queued running finished]. rewrite Eq, length_app. cbn. lia.
Qed.

Lemma finish_tally k net w p w' p' :
  finish wk k net w p = (w', p') ->
  tally t0 w p -> tally t0 w' p' /\ size p' = size p.
Proof.
  unfold finish. intros H S.
  destruct (take_out k (running p)) as [[[f url] others]|] eqn:Et;
    [|injection H as <- <-; split; [exact S|reflexivity]].
  destruct S as (Hs & Hn & Hc).
  destruct (take_out_spec _ _ _ _ Et) as (L & _ & _).
  destruct (after_request wk url _ _) as [v w1] eqn:Ea.
  pose proof (civil_after _ _ Hcivil _ _ _ _ _ Ea) as ->. injection H as <- <-. split.
  - split; [|split].
    + now rewrite should_stop_on_done.
    + now rewrite now_on_done.
    + rewrite trace_on_done. cbn [trace log queued]. rewrite probes_snoc, submits_snoc.
      cbn. lia.
  - unfold size. cbn [queued running finished]. rewrite L, length_app. cbn. lia.
Qed.

Lemma act_tally a w p w' p' :
  is_calm a = true ->
  act wk mw a w p = (w', p') ->
  tally t0 w p -> tally t0 w' p' /\ size p' = size p.
Proof.
  destruct a; cbn [is_calm act]; try discriminate; intros _.
  - apply start_next_tally.
  - apply finish_tally.
  - intros [= <- <-]. auto.
Qed.

Lemma absorb_tally sched : forall w p w' p' rest,
  forallb is_calm sched = true ->
  absorb wk mw sched w p = (w', p', rest) ->
  tally t0 w p ->
  tally t0 w' p' /\ size p' = size p /\ forallb is_calm rest = true.
Proof.
  induction sched as [|a sched IH]; intros w p w' p' rest Hc; cbn [absorb].
  - intros [= <- <- <-] S. auto.
  - cbn [forallb] in Hc. apply andb_true_iff in Hc as [Ha Hc].
    destruct a; try discriminate.
    + destruct (act _ mw Start w p) as [w1 p1] eqn:E. intros H S.
      destruct (act_tally _ _ _ _ _ Ha E S) as [S1 Z1].
      destruct (IH _ _ _ _ _ Hc H S1) as (S2 & Z2 & C2). split; [exact S2|split; [lia|exact C2]].
    + destruct (act _ mw (Finish k net) w p) as [w1 p1] eqn:E. intros H S.
      destruct (act_tally _ _ _ _ _ Ha E S) as [S1 Z1].
      destruct (IH _ _ _ _ _ Hc H S1) as (S2 & Z2 & C2). split; [exact S2|split; [lia|exact C2]].
    + intros [= <- <- <-] S. auto.
Qed.

Lemma settle_tally w p w' p' :
  0 < mw ->
  settle wk mw w p = (w', p') ->
  tally t0 w p ->
  tally t0 w' p' /\ size p' = size p /\ ((0 < size p)%nat -> finished p' <> []).
Proof.
  unfold settle. intros Hmw H S.
  destruct (finished p) as [|x fin] eqn:Ef.
  2: { injection H as <- <-. split; [exact S|split; [reflexivity|]]. rewrite Ef. discriminate. }
  destruct (running p) as [|[f url] r] eqn:Er.
  - destruct (start_next _ mw w p) as [w1 p1] eqn:E1.
    destruct (start_next_tally _ _ _ _ E1 S) as [S1 Z1].
    revert E1. unfold start_next.
    destruct (queued p) as [|g q] eqn:Eq.
    { intros [= <- <-]. rewrite Ef, Er in H. injection H as <- <-.
      split; [exact S|split; [reflexivity|]]. unfold size. rewrite Ef, Er, Eq. cbn. lia. }
    rewrite Er. cbn [List.length]. destruct (Z.ltb_spec (Z.of_nat 0) mw) as [_|]; [|lia].
    destruct S as (Hs & _). destruct (Heager g w Hs) as [url Eu]. rewrite Eu.
    intros [= <- <-].
    cbn [finished running] in H. rewrite Ef in H, S1, Z1. cbn [app] in H, S1, Z1.
    destruct (finish_tally _ _ _ _ _ _ H S1) as [S2 Z2].
    split; [exact S2|split; [lia|]]. intros _.
    revert H. unfold finish. cbn [running app]. rewrite take_out_head.
    destruct (after_request _ _ _ _) as [v w2]. intros [= <- <-]. cbn.
    destruct (finished p); discriminate.
  - destruct (finish_tally _ _ _ _ _ _ H S) as [S2 Z2].
    split; [exact S2|split; [exact Z2|]]. intros _.
    revert H. unfold finish. rewrite Er, take_out_head.
    destruct (after_request _ _ _ _) as [v w2]. intros [= <- <-]. cbn.
    destruct (finished p); discriminate.
Qed.

Lemma join_workers_tally sched w p w' rest :
  forallb is_calm sched = true -> size p = 0%nat ->
  join_workers wk mw sched w p = (w', rest) ->
  tally t0 w p ->
  tally t0 w' no_pool /\ forallb is_calm rest = true.
Proof.
  intros Hc Hz. unfold join_workers.
  destruct (absorb _ mw sched w p) as [[w1 p1] sched1] eqn:E1. intros H S.
  destruct (absorb_tally _ _ _ _ _ _ Hc E1 S) as (S1 & Z1 & C1).
  rewrite Hz in Z1. apply size_zero in Z1. subst p1. cbn in H. injection H as <- <-. auto.
Qed.
End Tally.

Lemma submit_all_tally t0 tasks : forall k w p w' p',
  submit_all k tasks w p = (w', p') ->
  tally t0 w p ->
  tally t0 w' p' /\ size p' = (size p + List.length tasks)%nat.
Proof.
  induction tasks as [|[fh tn] tasks IH]; intros k w p w' p'; cbn [submit_all].
  - intros [= <- <-] S. split; [exact S|cbn; lia].
  - intros H (Hs & Hn & Hc). apply IH in H as [S1 Z1].
    + split; [exact S1|]. rewrite Z1. unfold size. cbn [queued running finished List.length].
      rewrite length_app. cbn. lia.
    + repeat split; auto.
      cbn [trace log queued]. rewrite probes_snoc, submits_snoc, length_app. cbn. lia.
Qed.

Lemma check_link_eager env : eager (ModifiedScript.check_link env).
Proof.
  intros f w Hs. cbn. unfold ModifiedScript.check_link_before. rewrite Hs. eauto.
Qed.

Lemma check_wm_link_eager env s : eager (WmScript.check_wm_link env s).
Proof.
  intros f w Hs. cbn. unfold WmScript.check_wm_link_before. rewrite Hs. eauto.
Qed.

Lemma tally_no_pool t0 w p :
  tally t0 w p -> size p = 0%nat -> probes (trace w) = submits (trace w).
Proof. intros (_ & _ & Hc) Hz. apply size_zero in Hz. subst p. cbn in Hc. lia. Qed.

Lemma modified_collect_tally env mw t0 n : forall sched w p w' p' rest,
  0 < mw -> forallb is_calm sched = true -> size p = n ->
  ModifiedScript.collect (ModifiedScript.check_link env) mw n sched w p = (w', p', rest) ->
  tally t0 w p ->
  tally t0 w' p' /\ size p' = 0%nat /\ forallb is_calm rest = true.
Proof.
  induction n as [|n IH]; intros sched w p w' p' rest Hmw Hc Hz; cbn [ModifiedScript.collect].
  - intros [= <- <- <-] S. auto.
  - destruct (absorb _ mw sched w p) as [[w1 p1] sched1] eqn:E1.
    destruct (settle _ mw w1 p1) as [w2 p2] eqn:E2. intros H S.
    destruct (absorb_tally true _ (check_link_civil env) (check_link_eager env) mw t0
                _ _ _ _ _ _ Hc E1 S) as (S1 & Z1 & C1).
    destruct (settle_tally true _ (check_link_civil env) (check_link_eager env) mw t0
                _ _ _ _ Hmw E2 S1) as (S2 & Z2 & F2).
    destruct (finished p2) as [|x later] eqn:Ef.
    { exfalso. apply F2; [lia|reflexivity]. }
    destruct S2 as (Hs & Hn & Hk). rewrite Hs in H.
    apply IH in H; auto.
    + unfold size in *. cbn [queued running finished]. rewrite Ef in Z2. cbn in Z2. lia.
    + repeat split; auto.
Qed.

Lemma wm_collect_tally env s guard mw t0 n : forall sched w p w' p' rest,
  0 < mw ->
  300 <= WmScript.TimeoutGuard.max_runtime guard
         - (t0 - WmScript.TimeoutGuard.start_time guard) ->
  forallb is_calm sched = true -> size p = n ->
  WmScript.collect (WmScript.check_wm_link env s) guard mw n sched w p = (w', p', rest) ->
  tally t0 w p ->
  tally t0 w' p' /\ size p' = 0%nat /\ forallb is_calm rest = true.
Proof.
  induction n as [|n IH]; intros sched w p w' p' rest Hmw Hg Hc Hz; cbn [WmScript.collect].
  - intros [= <- <- <-] S. auto.
  - destruct (absorb _ mw sched w p) as [[w1 p1] sched1] eqn:E1.
    destruct (settle _ mw w1 p1) as [w2 p2] eqn:E2. intros H S.
    destruct (absorb_tally false _ (check_wm_link_civil env s) (check_wm_link_eager env s) mw t0
                _ _ _ _ _ _ Hc E1 S) as (S1 & Z1 & C1).
    destruct (settle_tally false _ (check_wm_link_civil env s) (check_wm_link_eager env s) mw t0
                _ _ _ _ Hmw E2 S1) as (S2 & Z2 & F2).
    destruct (finished p2) as [|[f res] later] eqn:Ef.
    { exfalso. apply F2; [lia|reflexivity]. }
    destruct S2 as (Hs & Hn & Hk). rewrite Hs in H. cbn [orb] in H.
    assert (Ht : WmScript.TimeoutGuard.check_timeout guard w2 = false).
    { unfold WmScript.TimeoutGuard.check_timeout, WmScript.TimeoutGuard.remaining_time.
      rewrite Hn. now apply Z.ltb_ge. }
    rewrite Ht in H. destruct (keep_result_spec res w2) as (Kl & Kt & Ks & Kn).
    apply IH in H; auto.
    + unfold size in *. cbn [queued running finished]. rewrite Ef in Z2. cbn in Z2. lia.
    + repeat split; try congruence. rewrite Kt. exact Hk.
Qed.

Lemma tally_boot clock disk : tally clock (boot clock disk) no_pool.
Proof. repeat split. Qed.

Lemma tally_write_output t0 w :
  tally t0 w no_pool ->
  probes (trace (write_output w)) = submits (trace (write_output w)).
Proof.
  intros (_ & _ & Hc). cbn [write_output trace log write_file].
  rewrite probes_snoc, submits_snoc. cbn in *. lia.
Qed.

Lemma batches_tally env a guard s t0 :
  300 <= WmScript.TimeoutGuard.max_runtime guard
         - (t0 - WmScript.TimeoutGuard.start_time guard) ->
  forall fuel current stop sched w r w' rest,
    forallb is_calm sched = true ->
    tally t0 w no_pool ->
    WmScript.batches fuel env a guard s current stop sched w = (r, w', rest) ->
    tally t0 w' no_pool.
Proof.
  intros Hg. induction fuel as [|fuel IH]; intros current stop sched w r w' rest Hc S;
    cbn [WmScript.batches].
  - now intros [= _ <- _].
  - destruct (_ && _); [|now intros [= _ <- _]].
    assert (Ht : WmScript.TimeoutGuard.check_timeout guard w = false).
    { destruct S as (_ & Hn & _).
      unfold WmScript.TimeoutGuard.check_timeout, WmScript.TimeoutGuard.remaining_time.
      rewrite Hn. now apply Z.ltb_ge. }
    rewrite Ht.
    destruct (generate_time_numbers _ _) as [tns|e]; [|now intros [= _ <- _]].
    destruct (Z.leb_spec (WmScript.workers a) 0) as [|Hmw]; [now intros [= _ <- _]|].
    destruct (submit_all 0 _ w no_pool) as [w1 p1] eqn:E1.
    destruct (WmScript.collect _ guard _ _ sched w1 p1) as [[w2 p2] sched2] eqn:E2.
    destruct (join_workers _ _ sched2 w2 p2) as [w3 sched3] eqn:E3.
    destruct (submit_all_tally t0 _ _ _ _ _ _ E1 S) as [S1 Z1].
    rewrite length_map in Z1. cbn in Z1.
    destruct (wm_collect_tally env s guard _ t0 _ _ _ _ _ _ _ Hmw Hg Hc Z1 E2 S1)
      as (S2 & Z2 & C2).
    destruct (join_workers_tally false _ (check_wm_link_civil env s)
                (check_wm_link_eager env s) _ t0 _ _ _ _ _ C2 Z2 E3 S2) as [S3 C3].
    destruct (add_one_day current) as [next|e]; [|now intros [= _ <- _]].
    intros H. eapply IH; eauto.
Qed.

Lemma wm_calm_probes env a sched clock disk :
  forallb is_calm sched = true -> 300 <= WmScript.timeout a ->
  probes (trace (snd (WmScript.main env a sched (boot clock disk))))
  = submits (trace (snd (WmScript.main env a sched (boot clock disk)))).
Proof.
  intros Hc Ht. unfold WmScript.main.
  set (guard := WmScript.TimeoutGuard.init _ _ _).
  assert (Hg : 300 <= WmScript.TimeoutGuard.max_runtime guard
                      - (clock - WmScript.TimeoutGuard.start_time guard)).
  { cbn. lia. }
  destruct (WmScript.process_date_range env a guard sched (boot clock disk))
    as [[r w1] rest] eqn:E.
  assert (S : tally clock w1 no_pool).
  { revert E. unfold WmScript.process_date_range.
    destruct (strptime (WmScript.start_date a)); [|intros [= _ <- _]; apply tally_boot].
    destruct (strptime (WmScript.end_date a)); [|intros [= _ <- _]; apply tally_boot].
    destruct (WmScript.resume_point guard _); [|intros [= _ <- _]; apply tally_boot].
    destruct (absorb _ _ sched (boot clock disk) no_pool) as [[w0 p0] sched0] eqn:Ea.
    destruct (absorb_tally false _ (check_wm_link_civil env WmScript.create_retry_session)
                (check_wm_link_eager env WmScript.create_retry_session) _ clock
                _ _ _ _ _ _ Hc Ea (tally_boot clock disk)) as (S0 & Z0 & C0).
    apply size_zero in Z0. subst p0. intros E.
    eapply batches_tally; eauto. }
  pose proof (tally_write_output _ _ S) as Hout.
  destruct (WmScript.verdict a r); exact Hout.
Qed.

Lemma modified_calm_probes env a sched clock disk :
  forallb is_calm sched = true ->
  probes (trace (snd (ModifiedScript.main env a sched (boot clock disk))))
  = submits (trace (snd (ModifiedScript.main env a sched (boot clock disk)))).
Proof.
  intros Hc. unfold ModifiedScript.main.
  destruct (ModifiedScript.validate a) as [[[start stop] tns]|e].
  2: { destruct e; reflexivity. }
  destruct (ModifiedScript.generate_tasks _ _ _ _ _) as [tasks|e]; [|reflexivity].
  unfold ModifiedScript.run_tasks.
  destruct (Z.leb_spec (ModifiedScript.workers a) 0) as [|Hmw]; [reflexivity|].
  destruct (submit_all 0 tasks (boot clock disk) no_pool) as [w1 p1] eqn:E1.
  destruct (ModifiedScript.collect _ _ _ sched w1 p1) as [[w2 p2] sched2] eqn:E2.
  destruct (submit_all_tally clock _ _ _ _ _ _ E1 (tally_boot clock disk)) as [S1 Z1].
  cbn in Z1.
  destruct (modified_collect_tally env _ clock _ _ _ _ _ _ _ Hmw Hc Z1 E2 S1) as (S2 & Z2 & C2).
  destruct S2 as (Hs & Hn & Hk). rewrite Hs.
  destruct (join_workers _ _ sched2 w2 p2) as [w3 rest] eqn:E3.
  destruct (join_workers_tally true _ (check_link_civil env) (check_link_eager env)
              _ clock _ _ _ _ _ C2 Z2 E3 (conj Hs (conj Hn Hk))) as [S3 _].
  cbn [snd]. eapply tally_write_output; eauto.
Qed.

(** ** Runs the time budget does not cut *)



Section Still.
Variable in_worker : bool.
Variable wk : worker.
Hypothesis Hcivil : civil in_worker wk.
Variable mw : Z.
Variable t0 : Z.
Variable disk : list (string * string).







End Still.





Lemma read_file_filter path other disk :
  path <> other ->
  read_file path (filter (fun pc => negb (String.eqb (fst pc) other)) disk) = read_file path disk.
Proof.
  intros Hne. induction disk as [|[q c] disk IH]; [reflexivity|]. cbn [filter fst].
  destruct (String.eqb_spec q other) as [->|Hq]; cbn [negb read_file].
  - destruct (String.eqb_spec other path); [congruence|exact IH].
  - destruct (String.eqb q path); [reflexivity|exact IH].
Qed.


(** ** Lemmas for the claims *)

Lemma read_write_file path content w :
  read_file path (files (write_file path content w)) = Some content.
Proof. cbn. now rewrite String.eqb_refl. Qed.

Lemma write_output_spec w :
  trace (write_output w) = trace w ++ [EvWrite (join newline (VALID_LINKS w))] /\
  VALID_LINKS (write_output w) = VALID_LINKS w /\
  should_stop (write_output w) = should_stop w /\
  read_file OUTPUT_FILE (files (write_output w)) = Some (join newline (VALID_LINKS w)).
Proof. repeat split. Qed.



Lemma strptime_nonempty s d : strptime s = Ok d -> s <> "".
Proof. intros H ->. discriminate. Qed.

Lemma resume_point_loaded a clock disk content D1 D2 :
  read_file (WmScript.resume_file a) disk = Some content ->
  strptime (WmScript.strip content) = Ok D2 ->
  WmScript.resume_point
    (WmScript.TimeoutGuard.init (WmScript.timeout a) (WmScript.resume_file a) (boot clock disk)) D1
  = Ok (if date_gt D2 D1 then D2 else D1).
Proof.
  intros Hf Hp. unfold WmScript.resume_point, WmScript.TimeoutGuard.init.
  cbn [WmScript.TimeoutGuard.last_progress]. unfold WmScript.TimeoutGuard.load_progress.
  cbn [files boot]. rewrite Hf.
  pose proof (strptime_nonempty _ _ Hp) as Hne.
  destruct (WmScript.strip content) as [|c s]; [contradiction|].
  rewrite Hp. reflexivity.
Qed.

Lemma idle_workless w w' :
  idle w w' -> workless (trace w) -> workless (trace (write_output w')).
Proof.
  intros ((k & Ek) & _ & _) Hw. destruct (write_output_spec w') as (-> & _).
  rewrite Ek. unfold workless. rewrite !Forall_app. repeat split; auto.
  apply Forall_forall. intros e He. apply repeat_spec in He. now subst.
Qed.

Lemma date_gt_trans a b c :
  valid_date a = true -> valid_date b = true -> valid_date c = true ->
  date_gt b a = false -> date_gt b c = true -> date_gt a c = true.
Proof.
  unfold date_gt. intros Va Vb Vc.
  rewrite (date_le_ordinal _ _ Vb Va), (date_le_ordinal _ _ Vb Vc), (date_le_ordinal _ _ Va Vc).
  rewrite !negb_false_iff, !negb_true_iff, Z.leb_le, !Z.leb_gt. lia.
Qed.

(** A scan whose first date is past the end date. *)
Lemma scan_past_end env a sched clock disk start stop current :
  strptime (WmScript.start_date a) = Ok start ->
  strptime (WmScript.end_date a) = Ok stop ->
  WmScript.resume_point
    (WmScript.TimeoutGuard.init (WmScript.timeout a) (WmScript.resume_file a) (boot clock disk))
    start = Ok current ->
  date_gt current stop = true ->
  exists w1 rest,
    idle (boot clock disk) w1 /\
    WmScript.process_date_range env a
      (WmScript.TimeoutGuard.init (WmScript.timeout a) (WmScript.resume_file a) (boot clock disk))
      sched (boot clock disk) = (Ok current, w1, rest) /\
    WmScript.main env a sched (boot clock disk) = (Exit0, WmScript.AllDone, write_output w1).
Proof.
  intros E1 E2 E3 Hgt. unfold date_gt in Hgt. apply negb_true_iff in Hgt.
  unfold WmScript.main, WmScript.process_date_range. rewrite E1, E2, E3.
  destruct (absorb _ _ sched (boot clock disk) no_pool) as [[w1 p1] sched1] eqn:Ea.
  apply absorb_idle in Ea as [_ I].
  exists w1, sched1. unfold span. cbn [WmScript.batches]. rewrite Hgt. cbn [andb].
  repeat split; try apply I.
  unfold WmScript.verdict. cbn [bind]. rewrite E2. cbn [bind]. rewrite Hgt. reflexivity.
Qed.

Lemma filter_write_signals k : filter is_write (repeat EvSignal k) = [].
Proof. induction k as [|k IH]; simpl; [reflexivity|exact IH]. Qed.

Lemma idle_writes w w' : idle w w' -> writes (trace (write_output w')) = S (writes (trace w)).
Proof.
  intros ((k & Ek) & _ & _). destruct (write_output_spec w') as (-> & _).
  unfold writes. rewrite Ek, !filter_app, !length_app, filter_write_signals. cbn. lia.
Qed.

Lemma resume_point_inv guard start current :
  valid_date start = true ->
  WmScript.resume_point guard start = Ok current ->
  current = start \/ (valid_date current = true /\ date_gt current start = true).
Proof.
  intros V. unfold WmScript.resume_point.
  destruct (WmScript.TimeoutGuard.last_progress guard) as [[|c s]|];
    try (intros [= <-]; now left).
  intros H. apply bind_ok in H as (d & E & H). injection H as <-.
  destruct (date_gt d start) eqn:G; [right|now left].
  split; [eapply strptime_valid; eauto|assumption].
Qed.

Lemma date_gt_trans' a b c :
  valid_date a = true -> valid_date b = true -> valid_date c = true ->
  date_gt a b = true -> date_gt b c = true -> date_gt a c = true.
Proof.
  unfold date_gt. intros Va Vb Vc.
  rewrite (date_le_ordinal _ _ Va Vb), (date_le_ordinal _ _ Vb Vc), (date_le_ordinal _ _ Va Vc).
  rewrite !negb_true_iff, !Z.leb_gt. lia.
Qed.

Lemma batches_inverted_time env a guard s fuel current stop sched w e :
  generate_time_numbers (WmScript.start_time a) (WmScript.end_time a) = Err e ->
  (WmScript.batches (S fuel) env a guard s current stop sched w = (Ok current, w, sched) \/
   WmScript.batches (S fuel) env a guard s current stop sched w
     = (Ok current, WmScript.TimeoutGuard.save_progress guard current w, sched) \/
   WmScript.batches (S fuel) env a guard s current stop sched w = (Err e, w, sched)) /\
  (date_le current stop = true -> should_stop w = false ->
   WmScript.TimeoutGuard.check_timeout guard w = false ->
   WmScript.batches (S fuel) env a guard s current stop sched w = (Err e, w, sched)).
Proof.
  intros Eg. cbn [WmScript.batches]. rewrite Eg. split.
  - destruct (_ && _); [|now left].
    destruct (WmScript.TimeoutGuard.check_timeout guard w); [right; now left|right; now right].
  - intros -> -> ->. reflexivity.
Qed.

Lemma wm_inverted_time_workless env a sched clock disk e :
  generate_time_numbers (WmScript.start_time a) (WmScript.end_time a) = Err e ->
  workless (trace (snd (WmScript.main env a sched (boot clock disk)))).
Proof.
  intros Eg. unfold WmScript.main.
  set (guard := WmScript.TimeoutGuard.init _ _ _).
  assert (H : exists r w1 rest,
             WmScript.process_date_range env a guard sched (boot clock disk) = (r, w1, rest) /\
             workless (trace w1)).
  { unfold WmScript.process_date_range.
    destruct (strptime (WmScript.start_date a)) as [start|];
      [|do 3 eexists; split; [reflexivity|constructor]].
    destruct (strptime (WmScript.end_date a)) as [stop|];
      [|do 3 eexists; split; [reflexivity|constructor]].
    destruct (WmScript.resume_point guard start) as [current|];
      [|do 3 eexists; split; [reflexivity|constructor]].
    destruct (absorb _ _ sched (boot clock disk) no_pool) as [[w1 p1] sched1] eqn:Ea.
    apply absorb_idle in Ea as [_ ((k & Ek) & _)]. cbn in Ek.
    assert (Hw1 : workless (trace w1)).
    { rewrite Ek. apply Forall_forall. intros x Hx. apply repeat_spec in Hx. now subst. }
    unfold span.
    destruct (batches_inverted_time env a guard WmScript.create_retry_session
                (Z.to_nat (toordinal stop - toordinal current + 1)) current stop sched1 w1 e Eg)
      as [[->|[->| ->]] _]; do 3 eexists; (split; [reflexivity|]); auto.
    cbn. apply Forall_app. split; [exact Hw1|]. repeat constructor. }
  destruct H as (r & w1 & rest & -> & Hw).
  assert (Hout : workless (trace (write_output w1))).
  { destruct (write_output_spec w1) as (-> & _). apply Forall_app. split; [exact Hw|].
    repeat constructor. }
  destruct (WmScript.verdict a r); exact Hout.
Qed.

Lemma existsb_eqb_In x l : existsb (Z.eqb x) l = true <-> In x l.
Proof.
  rewrite existsb_exists. split.
  - intros (y & Hy & E). apply Z.eqb_eq in E. now subst.
  - intros H. exists x. split; [assumption|apply Z.eqb_refl].
Qed.



(** ** The claims of the specification *)

(** C1.  Task generation.  For every input the simple script accepts
    (its validation succeeds, so the start date is not after the end date
    and the start time is not after the end time), the task list is built
    and holds, for each day from the start date to the end date in
    ascending order and within a day for each second from the start second
    to the end second in ascending order, the target of that day and that
    second: (end date - start date + 1 days) times (end second - start
    second + 1) targets, no target twice.  Every time code is six digits
    HHMMSS that read back as its second of the day. *)
Theorem task_generation_grid (a : ModifiedScript.args) start stop time_numbers :
  ModifiedScript.validate a = Ok (start, stop, time_numbers) ->
  exists s1 s2 days,
    seconds_of (ModifiedScript.start_time a) = Ok s1 /\
    seconds_of (ModifiedScript.end_time a) = Ok s2 /\
    date_le start stop = true /\ 0 <= s1 /\ s1 <= s2 /\ s2 < 86400 /\
    ModifiedScript.generate_tasks (span start stop) (ModifiedScript.base a)
        time_numbers start stop
      = Ok (targets_of (ModifiedScript.base a) (map time_number (range s1 (s2 + 1))) days) /\
    map toordinal days = range (toordinal start) (toordinal stop + 1) /\
    Z.of_nat (List.length (targets_of (ModifiedScript.base a)
                             (map time_number (range s1 (s2 + 1))) days))
      = (toordinal stop - toordinal start + 1) * (s2 - s1 + 1) /\
    NoDup (targets_of (ModifiedScript.base a) (map time_number (range s1 (s2 + 1))) days) /\
    (forall s, s1 <= s <= s2 ->
       String.length (time_number s) = 6%nat /\ isdigit (time_number s) = true /\
       seconds_of (time_number s) = Ok s).
Proof.
  intros H. apply validate_inv in H as (E1 & E2 & E3 & st & et & E4 & E5 & E6).
  pose proof (strptime_valid _ _ E1) as V1. pose proof (strptime_valid _ _ E2) as V2.
  apply validate_time_ok in E4 as (s1 & B1 & S1 & ->).
  apply validate_time_ok in E5 as (s2 & B2 & S2 & ->).
  apply generate_time_numbers_inv in E6 as (s1' & s2' & T1 & T2 & Hle & ->).
  rewrite (proj2 (proj2 (time_number_ok s1 B1))) in T1.
  rewrite (proj2 (proj2 (time_number_ok s2 B2))) in T2.
  injection T1 as <-. injection T2 as <-.
  unfold ModifiedScript.validate_date_range, date_gt in E3.
  destruct (date_le start stop) eqn:Ele; [|discriminate]. cbn [negb] in E3.
  destruct (generate_tasks_spec (ModifiedScript.base a) (map time_number (range s1 (s2 + 1)))
              _ _ _ V1 V2 E3) as (days & G & Hd & Hv).
  exists s1, s2, days. repeat split; auto; try lia.
  - rewrite targets_of_length, length_map, range_length.
    rewrite <- (length_map toordinal), Hd, range_length.
    rewrite (date_le_ordinal _ _ V1 V2) in Ele. apply Z.leb_le in Ele. lia.
  - apply targets_of_NoDup; auto; try lia.
    apply (NoDup_map_inv toordinal). rewrite Hd. apply range_NoDup.
  - apply time_number_ok. lia.
  - apply time_number_ok. lia.
  - apply time_number_ok. lia.
Qed.

Lemma task_generation_grid_witness :
  exists tasks,
    ModifiedScript.generate_tasks
      (span (mkdate 2024 2 28) (mkdate 2024 3 1)) "cam" ["000000"; "000001"]
      (mkdate 2024 2 28) (mkdate 2024 3 1) = Ok tasks /\
    NoDup tasks.
Proof.
  destruct (task_generation_grid sample_simple_args (mkdate 2024 2 28) (mkdate 2024 3 1)
              ["000000"; "000001"])
    as (s1 & s2 & days & _ & _ & _ & _ & _ & _ & G & _ & _ & N & _).
  - vm_compute. reflexivity.
  - eexists. split; [exact G|exact N].
Defined.

(** C2 (amended).  Inverted ranges.  With an inverted range on either
    axis no target is submitted and no request is sent, in either script.
    The simple script ends with the range error and exit status 1 before
    any task is generated: for a start date after the end date, and, the
    dates being in order, for a start time after the end time.  The
    resumable script has no range check of its own.  A start date after the
    end date makes it skip its loop and end as a completed scan, with exit
    status 0.  A start time after the end time makes [generate_time_numbers]
    raise the range error at the top of the first batch it enters. *)
Theorem inverted_ranges_probe_nothing :
  forall env sched clock disk,
    (forall a start stop,
       strptime (ModifiedScript.start_date a) = Ok start ->
       strptime (ModifiedScript.end_date a) = Ok stop ->
       date_gt start stop = true ->
       ModifiedScript.main env a sched (boot clock disk)
       = (SysExit1 (ValueError EndDateBeforeStart), boot clock disk)) /\
    (forall a start stop st et s1 s2,
       strptime (ModifiedScript.start_date a) = Ok start ->
       strptime (ModifiedScript.end_date a) = Ok stop ->
       ModifiedScript.validate_date_range start stop = Ok tt ->
       ModifiedScript.validate_time (ModifiedScript.start_time a) = Ok st ->
       ModifiedScript.validate_time (ModifiedScript.end_time a) = Ok et ->
       seconds_of st = Ok s1 -> seconds_of et = Ok s2 -> s2 < s1 ->
       ModifiedScript.main env a sched (boot clock disk)
       = (SysExit1 (ValueError EndTimeBeforeStart), boot clock disk)) /\
    (forall a start stop current,
       strptime (WmScript.start_date a) = Ok start ->
       strptime (WmScript.end_date a) = Ok stop ->
       WmScript.resume_point
         (WmScript.TimeoutGuard.init (WmScript.timeout a) (WmScript.resume_file a)
                                     (boot clock disk)) start = Ok current ->
       date_gt start stop = true ->
       fst (WmScript.main env a sched (boot clock disk)) = (Exit0, WmScript.AllDone) /\
       workless (trace (snd (WmScript.main env a sched (boot clock disk))))) /\
    (forall a s1 s2,
       seconds_of (WmScript.start_time a) = Ok s1 ->
       seconds_of (WmScript.end_time a) = Ok s2 ->
       s2 < s1 ->
       workless (trace (snd (WmScript.main env a sched (boot clock disk)))) /\
       forall fuel guard s current stop rest w,
         date_le current stop = true -> should_stop w = false ->
         WmScript.TimeoutGuard.check_timeout guard w = false ->
         WmScript.batches (S fuel) env a guard s current stop rest w
         = (Err (ValueError EndTimeBeforeStart), w, rest)).
Proof.
  intros env sched clock disk. split; [|split; [|split]].
  - intros a start stop E1 E2 Hgt. unfold ModifiedScript.main, ModifiedScript.validate,
      ModifiedScript.validate_date, ModifiedScript.validate_date_range.
    rewrite E1, E2. cbn [bind]. rewrite Hgt. reflexivity.
  - intros a start stop st et s1 s2 E1 E2 E3 E4 E5 S1 S2 Hlt.
    unfold ModifiedScript.main, ModifiedScript.validate, ModifiedScript.validate_date.
    rewrite E1, E2. cbn [bind]. rewrite E3. cbn [bind]. rewrite E4, E5. cbn [bind].
    rewrite (generate_time_numbers_inverted _ _ _ _ S1 S2 Hlt). reflexivity.
  - intros a start stop current E1 E2 E3 Hgt.
    pose proof (strptime_valid _ _ E1) as V1. pose proof (strptime_valid _ _ E2) as V2.
    assert (Hc : date_gt current stop = true).
    { destruct (resume_point_inv _ _ _ V1 E3) as [->|[Vc Hc]]; [assumption|].
      eapply (date_gt_trans' current start stop); eauto. }
    destruct (scan_past_end env a sched clock disk start stop current E1 E2 E3 Hc)
      as (w1 & rest & I & _ & ->).
    split; [reflexivity|]. cbn [snd]. eapply idle_workless; [exact I|constructor].
  - intros a s1 s2 S1 S2 Hlt.
    pose proof (generate_time_numbers_inverted _ _ _ _ S1 S2 Hlt) as Eg.
    split; [eapply wm_inverted_time_workless; eauto|].
    intros fuel guard s current stop rest w Hle Hs Ht.
    apply (batches_inverted_time env a guard s fuel current stop rest w _ Eg); auto.
Qed.

Lemma inverted_ranges_probe_nothing_witness :
  ModifiedScript.main sample_env inverted_simple_args [] (boot 0 [])
  = (SysExit1 (ValueError EndDateBeforeStart), boot 0 []) /\
  fst (WmScript.main sample_env inverted_wm_args [] (boot 0 [])) = (Exit0, WmScript.AllDone).
Proof.
  destruct (inverted_ranges_probe_nothing sample_env [] 0 []) as (H1 & _ & H3 & _).
  split.
  - apply (H1 inverted_simple_args (mkdate 2024 3 1) (mkdate 2024 2 28));
      vm_compute; reflexivity.
  - apply (H3 inverted_wm_args (mkdate 2024 3 1) (mkdate 2024 2 28) (mkdate 2024 3 1));
      vm_compute; reflexivity.
Defined.

(** C2, as stated, fails in the resumable script: with the two dates
    exchanged it reports a completed scan and returns, no error raised. *)
Lemma inverted_dates_end_as_complete_scan :
  strptime (WmScript.start_date inverted_wm_args) = Ok (mkdate 2024 3 1) /\
  strptime (WmScript.end_date inverted_wm_args) = Ok (mkdate 2024 2 28) /\
  date_gt (mkdate 2024 3 1) (mkdate 2024 2 28) = true /\
  fst (WmScript.main sample_env inverted_wm_args [] (boot 0 [])) = (Exit0, WmScript.AllDone).
Proof. vm_compute. repeat split. Qed.




(** C4.  Resumption.  When the checkpoint file holds a date D2, the scan
    starts from D2 if D2 is later than the requested start date D1 and from
    D1 otherwise: that date is what [resume_point] returns and what the loop
    over the dates begins with, and no target of an earlier day is ever
    submitted. *)
Theorem resume_from_checkpoint :
  forall env a sched clock disk content D1 D2,
    strptime (WmScript.start_date a) = Ok D1 ->
    read_file (WmScript.resume_file a) disk = Some content ->
    strptime (WmScript.strip content) = Ok D2 ->
    let guard :=
      WmScript.TimeoutGuard.init (WmScript.timeout a) (WmScript.resume_file a)
                                 (boot clock disk) in
    let start := if date_gt D2 D1 then D2 else D1 in
    WmScript.resume_point guard D1 = Ok start /\
    (forall stop,
       strptime (WmScript.end_date a) = Ok stop ->
       WmScript.process_date_range env a guard sched (boot clock disk) =
       let '(w1, _, sched1) :=
         absorb (WmScript.check_wm_link env WmScript.create_retry_session)
                (WmScript.workers a) sched (boot clock disk) no_pool in
       WmScript.batches (span start stop) env a guard WmScript.create_retry_session
                        start stop sched1 w1) /\
    (forall d tn,
       valid_date d = true -> date_le start d = false ->
       ~ In (EvSubmit (WmScript.base a ++ "_" ++ strftime d) tn)
            (trace (snd (WmScript.main env a sched (boot clock disk))))).
Proof.
  intros env a sched clock disk content D1 D2 H1 Hf H2 guard start.
  pose proof (resume_point_loaded a clock disk content D1 D2 Hf H2) as Hr.
  fold guard in Hr. fold start in Hr.
  split; [exact Hr|]. split.
  - intros stop Hs. unfold WmScript.process_date_range. rewrite H1, Hs, Hr. reflexivity.
  - intros d tn Vd Hlt Hin. unfold WmScript.main in Hin. fold guard in Hin.
    destruct (WmScript.process_date_range env a guard sched (boot clock disk))
      as [[r w1] rest] eqn:E.
    assert (Hin1 : In (EvSubmit (WmScript.base a ++ "_" ++ strftime d) tn) (trace w1)).
    { destruct (WmScript.verdict a r); cbn [snd] in Hin;
        destruct (write_output_spec w1) as (Et & _); rewrite Et in Hin;
        apply in_app_or in Hin as [Hin|[[=]|[]]]; exact Hin. }
    apply process_date_range_runs in E as [(e & _ & ->)|(s0 & stop & cur & E1 & _ & E3 & R)].
    + destruct Hin1.
    + rewrite H1 in E1. injection E1 as <-. rewrite Hr in E3. injection E3 as <-.
      destruct (runs_submits _ _ _ _ _ _ R Hin1) as [[]|(d' & Vd' & Hle & Efh)].
      apply append_inj_l in Efh. injection Efh as Efh.
      apply strftime_inj in Efh; auto. subst d'. congruence.
Qed.

Lemma resume_from_checkpoint_witness :
  WmScript.resume_point
    (WmScript.TimeoutGuard.init 19800 "progress.log" (boot 0 [("progress.log", "20240229")]))
    (mkdate 2024 2 28) = Ok (mkdate 2024 2 29).
Proof.
  refine (proj1 (resume_from_checkpoint sample_env sample_wm_args [] 0
                   [("progress.log", "20240229")] "20240229"
                   (mkdate 2024 2 28) (mkdate 2024 2 29) _ _ _));
    vm_compute; reflexivity.
Defined.













(** C10.  Checkpoint past the end date.  When the checkpoint file holds a
    date later than the requested end date, the scan returns at once a date
    later than the end date, no target is submitted and no request sent,
    [main] reports a completed scan with exit status 0, and the result file
    is written once, empty. *)
Theorem checkpoint_past_end_date :
  forall env a sched clock disk content start stop resume,
    strptime (WmScript.start_date a) = Ok start ->
    strptime (WmScript.end_date a) = Ok stop ->
    read_file (WmScript.resume_file a) disk = Some content ->
    strptime (WmScript.strip content) = Ok resume ->
    date_gt resume stop = true ->
    let guard :=
      WmScript.TimeoutGuard.init (WmScript.timeout a) (WmScript.resume_file a)
                                 (boot clock disk) in
    exists last w1,
      fst (fst (WmScript.process_date_range env a guard sched (boot clock disk))) = Ok last /\
      date_gt last stop = true /\
      WmScript.main env a sched (boot clock disk)
        = (Exit0, WmScript.AllDone, write_output w1) /\
      workless (trace (write_output w1)) /\
      writes (trace (write_output w1)) = 1%nat /\
      read_file OUTPUT_FILE (files (write_output w1)) = Some "".
Proof.
  intros env a sched clock disk content start stop resume E1 E2 Hf E3 Hgt guard.
  pose proof (strptime_valid _ _ E1) as V1. pose proof (strptime_valid _ _ E2) as V2.
  pose proof (strptime_valid _ _ E3) as V3.
  pose proof (resume_point_loaded a clock disk content start resume Hf E3) as Hr.
  fold guard in Hr.
  assert (Hlast : date_gt (if date_gt resume start then resume else start) stop = true).
  { destruct (date_gt resume start) eqn:G; [assumption|].
    eapply (date_gt_trans start resume stop); eauto. }
  destruct (scan_past_end env a sched clock disk start stop _ E1 E2 Hr Hlast)
    as (w1 & rest & I & Ep & Em).
  exists (if date_gt resume start then resume else start), w1.
  fold guard in Ep. rewrite Ep. repeat split; auto.
  - eapply idle_workless; [exact I|constructor].
  - now rewrite (idle_writes _ _ I).
  - destruct (write_output_spec w1) as (_ & _ & _ & ->).
    destruct I as (_ & -> & _). reflexivity.
Qed.

Lemma checkpoint_past_end_date_witness :
  exists w1,
    WmScript.main sample_env sample_wm_args [] (boot 0 [("progress.log", "20240302")])
    = (Exit0, WmScript.AllDone, write_output w1).
Proof.
  destruct (checkpoint_past_end_date sample_env sample_wm_args [] 0
              [("progress.log", "20240302")] "20240302"
              (mkdate 2024 2 28) (mkdate 2024 3 1) (mkdate 2024 3 2))
    as (last & w1 & _ & _ & H & _); try (vm_compute; reflexivity).
  exists w1. exact H.
Defined.

(** ** Further properties: dates and times *)

Lemma february_ok d :
  valid_date d = true ->
  (month d =? 2) && ((if is_leap_year (year d) then 29 else 28) <? day d) = false.
Proof.
  rewrite valid_date_spec. intros (_ & _ & Hd). unfold days_in_month in Hd.
  destruct (Z.eqb_spec (month d) 2) as [E|]; [|reflexivity]. rewrite E in Hd.
  cbn [andb]. apply Z.ltb_ge. destruct (is_leap_year (year d)); lia.
Qed.

Lemma add_one_day_last d :
  valid_date d = true -> add_one_day d = Err OverflowError -> d = last_day.
Proof.
  rewrite valid_date_spec. intros (Hy & Hm & Hd). unfold add_one_day.
  destruct (Z.ltb_spec (day d) (days_in_month (year d) (month d))); [discriminate|].
  destruct (Z.ltb_spec (month d) 12); [discriminate|].
  destruct (Z.ltb_spec (year d) 9999); [discriminate|]. intros _.
  assert (month d = 12) by lia. assert (year d = 9999) by lia.
  destruct d as [y m dd]; cbn in *. subst. unfold days_in_month in *. 
  unfold last_day. f_equal. lia.
Qed.

Lemma days_in_month_le y m : 1 <= m <= 12 -> days_in_month y m <= 31.
Proof.
  intros Hm. unfold days_in_month.
  destruct (month_cases _ Hm) as [->|[->|[->|[->|[->|[->|[->|[->|[->|[->|[->| ->]]]]]]]]]]];
    destruct (is_leap_year y); table; lia.
Qed.

Lemma date_le_last_day d : valid_date d = true -> date_le d last_day = true.
Proof.
  intros V. apply valid_date_spec in V as (Hy & Hm & Hd).
  pose proof (days_in_month_le (year d) _ Hm).
  unfold date_le, last_day. cbn [year month day].
  destruct (Z.ltb_spec (year d) 9999); [reflexivity|].
  destruct (Z.eqb_spec (year d) 9999); [|lia].
  destruct (Z.ltb_spec (month d) 12); [reflexivity|].
  destruct (Z.eqb_spec (month d) 12); [|lia].
  destruct (Z.leb_spec (day d) 31); [reflexivity|lia].
Qed.

Lemma last_day_le d : valid_date d = true -> date_le last_day d = true -> d = last_day.
Proof.
  intros V H. assert (Vl : valid_date last_day = true) by reflexivity.
  pose proof (date_le_last_day d V) as H'.
  rewrite date_le_ordinal in H, H' by auto. apply Z.leb_le in H, H'.
  apply toordinal_inj; auto. lia.
Qed.

Lemma february_loop_spec stop :
  valid_date stop = true ->
  forall fuel cur,
    valid_date cur = true ->
    (Z.to_nat (toordinal stop - toordinal cur + 1) < fuel)%nat ->
    date_le cur stop = true ->
    ModifiedScript.february_loop fuel cur stop =
      if date_le last_day stop then Err OverflowError else Ok tt.
Proof.
  intros Vs. induction fuel as [|fuel IH]; intros cur V Hf Hle; [lia|].
  cbn [ModifiedScript.february_loop]. rewrite Hle, (february_ok _ V).
  pose proof Hle as Ho. rewrite (date_le_ordinal _ _ V Vs) in Ho. apply Z.leb_le in Ho.
  destruct (add_one_day cur) as [next|e] eqn:En; cbn [bind].
  - destruct (add_one_day_ok _ _ V En) as [Vn On].
    destruct (date_le next stop) eqn:Eln.
    + apply IH; auto. lia.
    + assert (cur = stop).
      { rewrite (date_le_ordinal _ _ Vn Vs) in Eln. apply Z.leb_gt in Eln.
        apply toordinal_inj; auto. lia. }
      subst cur. destruct fuel; [lia|]. cbn [ModifiedScript.february_loop]. rewrite Eln.
      destruct (date_le last_day stop) eqn:El; [|reflexivity].
      apply last_day_le in El; auto. subst. discriminate.
  - pose proof (add_one_day_err _ _ En); subst e.
    apply add_one_day_last in En; auto. subst cur. now rewrite Hle.
Qed.

(** X1.  [validate_date_range] on calendar dates.  Its February check never
    fires: every date [strptime] returns is a day of the calendar, so no day
    of February is past the 28th, or the 29th in a leap year by
    [is_leap_year].  The call fails on a start date after the end date and,
    the dates being in order, with [OverflowError] when the end date is
    9999-12-31, because the loop then steps past the last [datetime]; on
    every other pair of dates it returns. *)
Theorem date_range_check_outcomes start stop :
  valid_date start = true -> valid_date stop = true ->
  ModifiedScript.validate_date_range start stop =
    (if date_gt start stop then Err (ValueError EndDateBeforeStart)
     else if date_le last_day stop then Err OverflowError
     else Ok tt).
Proof.
  intros V1 V2. unfold ModifiedScript.validate_date_range, date_gt.
  destruct (date_le start stop) eqn:Hle; cbn [negb]; [|reflexivity].
  apply february_loop_spec; auto.
Qed.

Lemma date_range_check_outcomes_witness :
  ModifiedScript.validate_date_range (mkdate 2024 2 29) (mkdate 9999 12 31) = Err OverflowError.
Proof.
  apply (date_range_check_outcomes (mkdate 2024 2 29) (mkdate 9999 12 31)); reflexivity.
Defined.

Lemma is_digit_value c : is_digit c = true -> 0 <= digit_value c <= 9.
Proof.
  unfold is_digit, digit_value. rewrite andb_true_iff, !Nat.leb_le. lia.
Qed.

Lemma digit_value_inj a b : digit_value a = digit_value b -> a = b.
Proof.
  unfold digit_value. intros H.
  rewrite <- (ascii_nat_embedding a), <- (ascii_nat_embedding b). f_equal. lia.
Qed.

Lemma fmt2_digits a b :
  is_digit a = true -> is_digit b = true ->
  fmt_0d 2 (10 * digit_value a + digit_value b) = String a (String b EmptyString).
Proof.
  intros A B. pose proof (is_digit_value _ A). pose proof (is_digit_value _ B).
  destruct (fmt2_shape (10 * digit_value a + digit_value b)) as (a' & b' & -> & A' & B' & E);
    [lia|].
  pose proof (is_digit_value _ A'). pose proof (is_digit_value _ B').
  f_equal; [|f_equal]; apply digit_value_inj; lia.
Qed.


(** A string of six digits, taken apart. *)
Lemma six_digits t :
  String.length t = 6%nat -> all_digits t = true ->
  exists a b c d e f,
    t = String a (String b (String c (String d (String e (String f EmptyString))))) /\
    is_digit a = true /\ is_digit b = true /\ is_digit c = true /\
    is_digit d = true /\ is_digit e = true /\ is_digit f = true.
Proof.
  destruct t as [|a [|b [|c [|d [|e [|f [|? ?]]]]]]]; try discriminate.
  intros _ H. cbn [all_digits] in H. rewrite !andb_true_iff in H.
  exists a, b, c, d, e, f. tauto.
Qed.

Lemma six_digits_fields t :
  String.length t = 6%nat -> all_digits t = true ->
  0 <= number_at t 0 2 < 100 /\ 0 <= number_at t 2 4 < 100 /\ 0 <= number_at t 4 6 < 100 /\
  int (slice t 0 2) = Ok (number_at t 0 2) /\
  int (slice t 2 4) = Ok (number_at t 2 4) /\
  int (slice t 4 6) = Ok (number_at t 4 6) /\
  (fmt_0d 2 (number_at t 0 2) ++ fmt_0d 2 (number_at t 2 4)
   ++ fmt_0d 2 (number_at t 4 6))%string = t.
Proof.
  intros L D. destruct (six_digits t L D) as (a & b & c & d & e & f & -> & A & B & C & D' & E & F).
  pose proof (is_digit_value _ A). pose proof (is_digit_value _ B).
  pose proof (is_digit_value _ C). pose proof (is_digit_value _ D').
  pose proof (is_digit_value _ E). pose proof (is_digit_value _ F).
  unfold number_at, int, slice. cbn -[Z.mul Z.add digit_value fmt_0d].
  rewrite A, B, C, D', E, F. cbn -[Z.mul Z.add digit_value fmt_0d].
  replace (10 * (10 * 0 + digit_value a) + digit_value b)
    with (10 * digit_value a + digit_value b) by lia.
  replace (10 * (10 * 0 + digit_value c) + digit_value d)
    with (10 * digit_value c + digit_value d) by lia.
  replace (10 * (10 * 0 + digit_value e) + digit_value f)
    with (10 * digit_value e + digit_value f) by lia.
  rewrite !fmt2_digits by assumption.
  repeat split; try lia.
Qed.

Lemma isdigit_all_digits t : String.length t = 6%nat -> isdigit t = all_digits t.
Proof. destruct t; [discriminate|reflexivity]. Qed.

(** [validate_time] on six digits: [int] reads the fields and the result, if
    any, is the argument. *)
Lemma validate_time_fields t :
  String.length t = 6%nat -> all_digits t = true ->
  ModifiedScript.validate_time t =
    if negb ((0 <=? number_at t 0 2) && (number_at t 0 2 <=? 23))
    then Err (ValueError HourOutOfRange)
    else if negb ((0 <=? number_at t 2 4) && (number_at t 2 4 <=? 59))
    then Err (ValueError MinuteInvalid)
    else if negb ((0 <=? number_at t 4 6) && (number_at t 4 6 <=? 59))
    then Err (ValueError SecondInvalid)
    else Ok t.
Proof.
  intros L D. unfold ModifiedScript.validate_time.
  rewrite (isdigit_all_digits t L), L, D. cbn [Nat.eqb negb orb].
  destruct (six_digits_fields t L D) as (_ & _ & _ & -> & -> & -> & Et).
  cbn [bind]. now rewrite Et.
Qed.


Lemma validate_time_fmt h m s :
  0 <= h <= 23 -> 0 <= m <= 59 -> 0 <= s <= 59 ->
  let t := (fmt_0d 2 h ++ fmt_0d 2 m ++ fmt_0d 2 s)%string in
  ModifiedScript.validate_time t = Ok t.
Proof.
  intros Hh Hm Hs. cbn zeta.
  destruct (time_number_shape h m s) as (L & D & _); try lia.
  rewrite isdigit_all_digits in D by exact L.
  rewrite (validate_time_fields _ L D).
  destruct (fmt2_shape h) as (a1 & b1 & E1 & A1 & B1 & V1); [lia|].
  destruct (fmt2_shape m) as (a2 & b2 & E2 & A2 & B2 & V2); [lia|].
  destruct (fmt2_shape s) as (a3 & b3 & E3 & A3 & B3 & V3); [lia|].
  rewrite E1, E2, E3. unfold number_at, slice.
  cbn -[Z.mul Z.add digit_value Z.leb].
  destruct (Z.leb_spec 0 (10 * (10 * 0 + digit_value a1) + digit_value b1)),
    (Z.leb_spec (10 * (10 * 0 + digit_value a1) + digit_value b1) 23); try lia.
  destruct (Z.leb_spec 0 (10 * (10 * 0 + digit_value a2) + digit_value b2)),
    (Z.leb_spec (10 * (10 * 0 + digit_value a2) + digit_value b2) 59); try lia.
  destruct (Z.leb_spec 0 (10 * (10 * 0 + digit_value a3) + digit_value b3)),
    (Z.leb_spec (10 * (10 * 0 + digit_value a3) + digit_value b3) 59); try lia.
  reflexivity.
Qed.

Lemma validate_time_time_number s :
  0 <= s < 86400 -> ModifiedScript.validate_time (time_number s) = Ok (time_number s).
Proof. intros H. unfold time_number. apply validate_time_fmt; lia. Qed.

Lemma range_snoc a b : a <= b -> range a (b + 1) = range a b ++ [b].
Proof.
  intros H. unfold range. replace (Z.to_nat (b + 1 - a)) with (S (Z.to_nat (b - a))) by lia.
  rewrite seq_S, map_app. cbn [map]. do 2 f_equal. lia.
Qed.

Lemma range_nth a b i :
  nth_error (range a b) i = if (Z.of_nat i <? b - a) then Some (a + Z.of_nat i) else None.
Proof.
  unfold range. destruct (Z.ltb_spec (Z.of_nat i) (b - a)).
  - rewrite nth_error_map, nth_error_seq.
    destruct (Nat.ltb_spec i (Z.to_nat (b - a))); [reflexivity|lia].
  - apply nth_error_None. rewrite length_map, length_seq. lia.
Qed.

Lemma validate_time_same t t' : ModifiedScript.validate_time t = Ok t' -> t' = t.
Proof.
  intros H. assert (L : String.length t = 6%nat /\ all_digits t = true).
  { revert H. unfold ModifiedScript.validate_time.
    destruct (Nat.eqb_spec (String.length t) 6) as [L|]; [|discriminate].
    rewrite (isdigit_all_digits t L). destruct (all_digits t); [auto|discriminate]. }
  destruct L as [L D]. rewrite (validate_time_fields t L D) in H.
  repeat match type of H with (if ?b then _ else _) = _ => destruct b; try discriminate end.
  now injection H as <-.
Qed.

(** X3.  The time codes of a validated window.  When both time arguments
    pass [validate_time] and [generate_time_numbers] returns, the list
    starts with the start time and ends with the end time, every code passes
    [validate_time] unchanged, and each code is one second after the code
    before it. *)
Theorem time_numbers_endpoints st et st' et' tns :
  ModifiedScript.validate_time st = Ok st' ->
  ModifiedScript.validate_time et = Ok et' ->
  generate_time_numbers st' et' = Ok tns ->
  hd_error tns = Some st /\ last tns "" = et /\
  Forall (fun tn => ModifiedScript.validate_time tn = Ok tn) tns /\
  (forall i a b, nth_error tns i = Some a -> nth_error tns (S i) = Some b ->
     exists s, seconds_of a = Ok s /\ seconds_of b = Ok (s + 1)).
Proof.
  intros H1 H2 G.
  pose proof (validate_time_same _ _ H1) as ->. pose proof (validate_time_same _ _ H2) as ->.
  apply validate_time_ok in H1 as (s1 & B1 & S1 & E1).
  apply validate_time_ok in H2 as (s2 & B2 & S2 & E2).
  apply generate_time_numbers_inv in G as (s1' & s2' & T1 & T2 & Hle & ->).
  rewrite S1 in T1. rewrite S2 in T2. injection T1 as <-. injection T2 as <-.
  split; [|split; [|split]].
  - rewrite range_cons by lia. cbn. now rewrite <- E1.
  - rewrite range_snoc, map_app by lia. cbn [map]. rewrite last_last. now rewrite <- E2.
  - apply Forall_forall. intros tn Hin. apply in_map_iff in Hin as (s & <- & Hs).
    apply range_In in Hs. apply validate_time_time_number. lia.
  - intros i a b Ha Hb. rewrite nth_error_map, range_nth in Ha, Hb.
    destruct (Z.ltb_spec (Z.of_nat i) (s2 + 1 - s1)); [|discriminate].
    destruct (Z.ltb_spec (Z.of_nat (S i)) (s2 + 1 - s1)); [|discriminate].
    cbn in Ha, Hb. injection Ha as <-. injection Hb as <-.
    exists (s1 + Z.of_nat i). split.
    + apply time_number_ok. lia.
    + replace (s1 + Z.of_nat i + 1) with (s1 + Z.of_nat (S i)) by lia.
      apply time_number_ok. lia.
Qed.

Lemma time_numbers_endpoints_witness :
  hd_error ["235958"; "235959"] = Some "235958" /\ last ["235958"; "235959"] "" = "235959".
Proof.
  destruct (time_numbers_endpoints "235958" "235959" "235958" "235959" ["235958"; "235959"])
    as (H1 & H2 & _); [reflexivity|reflexivity|reflexivity|].
  split; assumption.
Defined.

Lemma seconds_of_six_digits t :
  String.length t = 6%nat -> all_digits t = true ->
  seconds_of t = Ok (second_count t) /\ 0 <= second_count t <= 362439.
Proof.
  intros L D. destruct (six_digits_fields t L D) as (Hh & Hm & Hs & E1 & E2 & E3 & _).
  unfold seconds_of, second_count. rewrite E1, E2, E3. cbn [bind]. split; [reflexivity|lia].
Qed.

Lemma substring_app_l n m s x :
  (n + m <= String.length s)%nat -> substring n m (s ++ x) = substring n m s.
Proof.
  revert n m. induction s as [|c s IH]; intros n m H; cbn [String.length] in H.
  - assert (n = 0%nat) by lia. assert (m = 0%nat) by lia. subst. cbn. now destruct x.
  - destruct n as [|n]; cbn [append substring].
    + destruct m as [|m]; [reflexivity|]. f_equal. apply (IH 0%nat m). cbn. lia.
    + apply IH. lia.
Qed.

Lemma seconds_of_app t x : (6 <= String.length t)%nat -> seconds_of (t ++ x) = seconds_of t.
Proof.
  intros L. unfold seconds_of, slice. rewrite !substring_app_l by (cbn; lia). reflexivity.
Qed.

(** X4.  [generate_time_numbers] checks no field.  For any two strings of
    six digits it reads the second counts HH*3600 + MM*60 + SS, at most
    362439, whatever the fields are; it raises the range error when the end
    count is below the start count and otherwise returns one code per second
    from the start count to the end count.  It raises nothing else, and the
    characters after the sixth are not read.  The resumable script hands its
    time arguments over unchecked, so an hour of 25 is scanned there, while
    [validate_time] rejects it. *)
Theorem unchecked_times_are_scanned t1 t2 x1 x2 :
  String.length t1 = 6%nat -> all_digits t1 = true ->
  String.length t2 = 6%nat -> all_digits t2 = true ->
  0 <= second_count t1 <= 362439 /\ 0 <= second_count t2 <= 362439 /\
  generate_time_numbers t1 t2 =
    (if second_count t2 <? second_count t1 then Err (ValueError EndTimeBeforeStart)
     else Ok (map time_number (range (second_count t1) (second_count t2 + 1)))) /\
  generate_time_numbers (t1 ++ x1) (t2 ++ x2) = generate_time_numbers t1 t2.
Proof.
  intros L1 D1 L2 D2.
  destruct (seconds_of_six_digits t1 L1 D1) as [E1 B1].
  destruct (seconds_of_six_digits t2 L2 D2) as [E2 B2].
  split; [exact B1|]. split; [exact B2|]. split.
  - unfold generate_time_numbers. rewrite E1, E2. reflexivity.
  - unfold generate_time_numbers. rewrite !seconds_of_app by lia. reflexivity.
Qed.

Lemma unchecked_times_are_scanned_witness :
  generate_time_numbers "250060" "250100" = Ok ["250100"] /\
  ModifiedScript.validate_time "250060" = Err (ValueError HourOutOfRange).
Proof.
  destruct (unchecked_times_are_scanned "250060" "250100" "" "") as (_ & _ & H & _);
    try reflexivity.
  split; [rewrite H; vm_compute; reflexivity|vm_compute; reflexivity].
Defined.





Lemma append_assoc (a b c : string) : ((a ++ b) ++ c = a ++ (b ++ c))%string.
Proof. induction a as [|x a IH]; cbn; [reflexivity|now rewrite IH]. Qed.

Lemma append_length (a b : string) :
  String.length (a ++ b) = (String.length a + String.length b)%nat.
Proof. induction a as [|x a IH]; cbn; [reflexivity|now rewrite IH]. Qed.

Lemma append_inj_len (a a' x y : string) :
  String.length a = String.length a' -> (a ++ x = a' ++ y)%string -> a = a' /\ x = y.
Proof.
  revert a'. induction a as [|c a IH]; intros [|c' a']; try discriminate; cbn.
  - auto.
  - intros [= L] [= -> E]. destruct (IH _ L E) as [-> ->]. auto.
Qed.

(** Two URLs made of parts of the same lengths are equal only part by part. *)
Lemma generate_url_inj_len env fh1 tn1 fh2 tn2 :
  String.length fh1 = String.length fh2 ->
  String.length tn1 = String.length tn2 ->
  generate_url env fh1 tn1 = generate_url env fh2 tn2 ->
  fh1 = fh2 /\ tn1 = tn2.
Proof.
  intros L1 L2. unfold generate_url.
  intros E. apply (append_inj_l "https://") in E.
  apply append_inj_l in E. apply append_inj_l in E.
  apply append_inj_len in E as [-> E]; [|exact L1].
  apply append_inj_len in E as [-> _]; [|exact L2]. auto.
Qed.

(** X6.  Distinct targets have distinct URLs.  For one base and one
    environment, the URLs of two targets of the grid (a day of the calendar
    and a second of the day) are equal only if the days are equal and the
    seconds are equal, whether or not the environment variables are set. *)
Theorem distinct_targets_distinct_urls env base d1 d2 s1 s2 :
  valid_date d1 = true -> valid_date d2 = true ->
  0 <= s1 < 86400 -> 0 <= s2 < 86400 ->
  generate_url env (base ++ "_" ++ strftime d1) (time_number s1)
  = generate_url env (base ++ "_" ++ strftime d2) (time_number s2) ->
  d1 = d2 /\ s1 = s2.
Proof.
  intros V1 V2 B1 B2 E.
  destruct (strftime_ok d1 V1) as (L1 & _). destruct (strftime_ok d2 V2) as (L2 & _).
  destruct (time_number_ok s1 B1) as (T1 & _). destruct (time_number_ok s2 B2) as (T2 & _).
  apply generate_url_inj_len in E as [Ef Et].
  - split; [|now apply time_number_inj].
    apply append_inj_l in Ef. injection Ef as Ef. now apply strftime_inj.
  - rewrite !append_length, L1, L2. reflexivity.
  - congruence.
Qed.

Lemma distinct_targets_distinct_urls_witness :
  mkdate 2024 2 28 = mkdate 2024 2 28 /\ 60 = 60.
Proof.
  apply (distinct_targets_distinct_urls sample_env "cam" (mkdate 2024 2 28) (mkdate 2024 2 28)
           60 60); try reflexivity; lia.
Defined.

(** ** Further properties: the retry loop *)

Lemma urlopen_transient r a rest left :
  transient r a = true ->
  urlopen r (S left) (a :: rest)
  = (fst (urlopen r left rest), S (snd (urlopen r left rest))).
Proof.
  intros T. cbn [urlopen hd tl]. destruct a as [s|]; cbn [transient] in T.
  - rewrite T. now destruct (urlopen r left rest).
  - now destruct (urlopen r left rest).
Qed.

Lemma urlopen_definite r left pre : forall status rest,
  forallb (transient r) pre = true ->
  is_retry r "HEAD" status = false ->
  (List.length pre <= left)%nat ->
  urlopen r left (pre ++ Reply status :: rest) = (Response status, S (List.length pre)).
Proof.
  revert left. induction pre as [|a pre IH]; intros left status rest T D L.
  - destruct left; cbn [urlopen hd app List.length]; now rewrite D.
  - cbn [forallb] in T. apply andb_true_iff in T as [Ta T].
    destruct left as [|left]; [cbn in L; lia|].
    cbn [app]. rewrite (urlopen_transient _ _ _ _ Ta), (IH left status rest T D).
    + reflexivity.
    + cbn in L. lia.
Qed.

Lemma urlopen_exhausted r left : forall pre rest,
  forallb (transient r) pre = true ->
  List.length pre = S left ->
  exists e, urlopen r left (pre ++ rest) = (RequestException e, S left).
Proof.
  induction left as [|left IH]; intros pre rest T L.
  - destruct pre as [|a [|? ?]]; try discriminate. cbn [forallb] in T.
    apply andb_true_iff in T as [Ta _]. cbn [app urlopen hd].
    destruct a as [s|]; cbn [transient] in Ta; [rewrite Ta|]; eexists; reflexivity.
  - destruct pre as [|a pre]; [discriminate|]. cbn [forallb] in T.
    apply andb_true_iff in T as [Ta T]. injection L as L.
    cbn [app]. rewrite (urlopen_transient _ _ _ _ Ta).
    destruct (IH pre rest T L) as (e & ->). eexists; reflexivity.
Qed.

Lemma urlopen_silent r left :
  urlopen r left [] = (RequestException ConnectionError, S left).
Proof.
  induction left as [|left IH]; cbn [urlopen hd tl]; [reflexivity|]. now rewrite IH.
Qed.

Lemma urlopen_response r : forall left net status,
  fst (urlopen r left net) = Response status -> is_retry r "HEAD" status = false.
Proof.
  induction left as [|left IH]; intros net status; cbn [urlopen].
  - destruct (hd NoAnswer net) as [s|]; [|discriminate].
    destruct (is_retry r "HEAD" s) eqn:E; [discriminate|]. now intros [= <-].
  - destruct (hd NoAnswer net) as [s|].
    + destruct (is_retry r "HEAD" s) eqn:E.
      * specialize (IH (tl net) status). destruct (urlopen r left (tl net)). exact IH.
      * now intros [= <-].
    + specialize (IH (tl net) status). destruct (urlopen r left (tl net)). exact IH.
Qed.

Lemma urlopen_failure r : forall left net e,
  fst (urlopen r left net) = RequestException e -> snd (urlopen r left net) = S left.
Proof.
  induction left as [|left IH]; intros net e; cbn [urlopen].
  - destruct (hd NoAnswer net) as [s|]; [|reflexivity].
    destruct (is_retry r "HEAD" s); [reflexivity|discriminate].
  - destruct (hd NoAnswer net) as [s|].
    + destruct (is_retry r "HEAD" s) eqn:E; [|discriminate].
      specialize (IH (tl net) e). destruct (urlopen r left (tl net)). cbn in *.
      intros H. now rewrite IH.
    + specialize (IH (tl net) e). destruct (urlopen r left (tl net)). cbn in *.
      intros H. now rewrite IH.
Qed.

(** X7.  The retry loop ends on the first definite answer.  In both
    sessions, when the attempts begin with transient outcomes (no answer, or
    a status of the force list) followed by an answer outside the force
    list (answers carry no [Retry-After] header): after at most three
    transient outcomes that answer is the response, and the number of
    attempts is one more than the transient ones; after more than three the
    request fails on its fourth attempt and the answer is never seen. *)
Theorem first_definite_answer_wins s pre status rest :
  s = WmScript.create_retry_session \/ s = ModifiedScript.create_retry_session ->
  forallb (transient (max_retries s)) pre = true ->
  is_retry (max_retries s) "HEAD" status = false ->
  ((List.length pre <= 3)%nat ->
   session_head s (pre ++ Reply status :: rest) = Response status /\
   snd (urlopen (max_retries s) (total (max_retries s)) (pre ++ Reply status :: rest))
   = S (List.length pre)) /\
  ((3 < List.length pre)%nat ->
   exists e, urlopen (max_retries s) (total (max_retries s)) (pre ++ Reply status :: rest)
             = (RequestException e, 4%nat)).
Proof.
  intros Hs T D.
  assert (Et : total (max_retries s) = 3%nat) by (destruct Hs as [-> | ->]; reflexivity).
  rewrite Et. unfold session_head. rewrite Et. split; intros L.
  - rewrite (urlopen_definite _ 3 pre status rest T D L). split; reflexivity.
  - rewrite <- (firstn_skipn 4 pre), <- app_assoc.
    apply urlopen_exhausted.
    + rewrite <- (firstn_skipn 4 pre), forallb_app in T. now apply andb_true_iff in T as [T _].
    + rewrite length_firstn. lia.
Qed.

Lemma is_retry_wm status :
  is_retry (max_retries WmScript.create_retry_session) "HEAD" status = true
  <-> 500 <= status <= 599.
Proof.
  unfold is_retry. cbn [allowed_methods max_retries WmScript.create_retry_session
    status_forcelist existsb]. rewrite String.eqb_refl. cbn [orb andb].
  rewrite existsb_eqb_In, range_In. lia.
Qed.

Lemma is_retry_modified status :
  is_retry (max_retries ModifiedScript.create_retry_session) "HEAD" status = true
  <-> status = 500 \/ status = 502 \/ status = 503 \/ status = 504.
Proof.
  unfold is_retry. cbn [allowed_methods max_retries
    ModifiedScript.create_retry_session status_forcelist existsb].
  rewrite String.eqb_refl. cbn [orb andb]. rewrite !orb_true_iff, !Z.eqb_eq. intuition lia.
Qed.

(** X8.  What [session.head] can give.  A response of the resumable
    script's session never has a 5xx status, and one of the simple script's
    session never has status 500, 502, 503 or 504: such an answer is
    repeated or becomes an exception.  A request that ends on an exception
    has made exactly four attempts, and a request the network never answers
    ends on [ConnectionError] after four attempts. *)
Theorem force_list_status_never_returned net :
  (forall status,
     session_head WmScript.create_retry_session net = Response status ->
     ~ 500 <= status <= 599) /\
  (forall status,
     session_head ModifiedScript.create_retry_session net = Response status ->
     status <> 500 /\ status <> 502 /\ status <> 503 /\ status <> 504) /\
  (forall s e,
     s = WmScript.create_retry_session \/ s = ModifiedScript.create_retry_session ->
     session_head s net = RequestException e ->
     snd (urlopen (max_retries s) (total (max_retries s)) net) = 4%nat) /\
  (forall s,
     s = WmScript.create_retry_session \/ s = ModifiedScript.create_retry_session ->
     urlopen (max_retries s) (total (max_retries s)) []
     = (RequestException ConnectionError, 4%nat)).
Proof.
  split; [|split; [|split]].
  - intros status H. apply urlopen_response in H. rewrite <- is_retry_wm. congruence.
  - intros status H. apply urlopen_response in H.
    assert (N : ~ (status = 500 \/ status = 502 \/ status = 503 \/ status = 504)).
    { rewrite <- is_retry_modified. congruence. }
    tauto.
  - intros s e Hs H. apply urlopen_failure in H. rewrite H.
    destruct Hs as [-> | ->]; reflexivity.
  - intros s [-> | ->]; apply urlopen_silent.
Qed.

Lemma first_definite_answer_wins_witness :
  session_head ModifiedScript.create_retry_session [NoAnswer; Reply 503; NoAnswer; Reply 200]
  = Response 200.
Proof.
  apply (first_definite_answer_wins ModifiedScript.create_retry_session
           [NoAnswer; Reply 503; NoAnswer] 200 []); try reflexivity.
  now right.
Defined.

(** ** Further properties: the checkpoint *)

Lemma is_digit_not_space c : is_digit c = true -> WmScript.is_space c = false.
Proof.
  unfold is_digit, WmScript.is_space. rewrite andb_true_iff, !Nat.leb_le. intros [H1 H2].
  rewrite !orb_false_iff, !andb_false_iff, Nat.eqb_neq, !Nat.leb_gt. lia.
Qed.

Lemma lstrip_app_space pre s :
  all_space pre = true -> WmScript.lstrip (pre ++ s) = WmScript.lstrip s.
Proof.
  induction pre as [|c pre IH]; cbn [all_space append WmScript.lstrip]; [reflexivity|].
  intros H. apply andb_true_iff in H as [-> H]. auto.
Qed.

Lemma rstrip_space post : all_space post = true -> WmScript.rstrip post = "".
Proof.
  induction post as [|c post IH]; cbn [all_space WmScript.rstrip]; [reflexivity|].
  intros H. apply andb_true_iff in H as [-> H]. now rewrite IH.
Qed.

Lemma rstrip_app_space s post :
  all_space post = true -> WmScript.rstrip (s ++ post) = WmScript.rstrip s.
Proof.
  intros H. induction s as [|c s IH]; cbn [append WmScript.rstrip].
  - now apply rstrip_space.
  - now rewrite IH.
Qed.

Lemma rstrip_digits s : all_digits s = true -> WmScript.rstrip s = s.
Proof.
  induction s as [|c s IH]; cbn [all_digits WmScript.rstrip]; [reflexivity|].
  intros H. apply andb_true_iff in H as [Hc H]. rewrite (IH H).
  destruct s; [|reflexivity]. now rewrite (is_digit_not_space _ Hc).
Qed.

Lemma strip_digits pre core post :
  all_space pre = true -> all_space post = true -> all_digits core = true ->
  WmScript.strip (pre ++ core ++ post) = core.
Proof.
  intros Hpre Hpost Hc. unfold WmScript.strip. rewrite lstrip_app_space by assumption.
  destruct core as [|c core].
  - cbn [append]. clear Hc.
    assert (E : WmScript.lstrip post = "").
    { clear Hpre. induction post as [|x post IH]; cbn [all_space WmScript.lstrip] in *;
        [reflexivity|]. apply andb_true_iff in Hpost as [-> H]. auto. }
    now rewrite E.
  - pose proof Hc as Hc'. cbn [all_digits] in Hc'. apply andb_true_iff in Hc' as [Hd _].
    cbn [append WmScript.lstrip]. rewrite (is_digit_not_space _ Hd).
    change (String c (core ++ post)) with (String c core ++ post)%string.
    rewrite rstrip_app_space by assumption. now apply rstrip_digits.
Qed.

Lemma append_nil_r (s : string) : (s ++ "")%string = s.
Proof. induction s as [|c s IH]; cbn; [reflexivity|now f_equal]. Qed.


Lemma resume_point_init t f w start content :
  read_file f (files w) = Some content ->
  WmScript.resume_point (WmScript.TimeoutGuard.init t f w) start =
    match WmScript.strip content with
    | EmptyString => Ok start
    | String _ _ =>
        resume_date <- strptime (WmScript.strip content) ;;
        Ok (if date_gt resume_date start then resume_date else start)
    end.
Proof.
  intros Hf. unfold WmScript.resume_point, WmScript.TimeoutGuard.init.
  cbn [WmScript.TimeoutGuard.last_progress]. unfold WmScript.TimeoutGuard.load_progress.
  rewrite Hf. reflexivity.
Qed.

(** X9.  Reading the checkpoint.  White space around the date in the
    checkpoint file (a final newline, say) is ignored: the scan resumes as
    from the bare date.  A file of white space only, like a missing file,
    leaves the start date as it is. *)
Theorem checkpoint_read_ignores_white_space t f w pre post start :
  all_space pre = true -> all_space post = true ->
  (forall d,
     valid_date d = true ->
     read_file f (files w) = Some (pre ++ strftime d ++ post)%string ->
     WmScript.resume_point (WmScript.TimeoutGuard.init t f w) start
     = Ok (if date_gt d start then d else start)) /\
  (read_file f (files w) = Some pre ->
   WmScript.resume_point (WmScript.TimeoutGuard.init t f w) start = Ok start) /\
  (read_file f (files w) = None ->
   WmScript.resume_point (WmScript.TimeoutGuard.init t f w) start = Ok start).
Proof.
  intros Hpre Hpost. split; [|split].
  - intros d V Hf. rewrite (resume_point_init _ _ _ _ _ Hf).
    destruct (strftime_ok d V) as (L & D & R).
    rewrite (strip_digits pre (strftime d) post Hpre Hpost D).
    destruct (strftime d) as [|c s] eqn:E; [discriminate|]. rewrite R. reflexivity.
  - intros Hf. rewrite (resume_point_init _ _ _ _ _ Hf).
    pose proof (strip_digits pre "" "" Hpre eq_refl eq_refl) as E.
    cbn [append] in E. rewrite append_nil_r in E. now rewrite E.
  - intros Hf. unfold WmScript.resume_point, WmScript.TimeoutGuard.init.
    cbn [WmScript.TimeoutGuard.last_progress]. unfold WmScript.TimeoutGuard.load_progress.
    now rewrite Hf.
Qed.

Lemma checkpoint_read_ignores_white_space_witness :
  WmScript.resume_point
    (WmScript.TimeoutGuard.init 19800 "progress.log"
       (boot 0 [("progress.log", String " " ("20240229" ++ newline))]))
    (mkdate 2024 2 28)
  = Ok (mkdate 2024 2 29).
Proof.
  destruct (checkpoint_read_ignores_white_space 19800 "progress.log"
              (boot 0 [("progress.log", String " " ("20240229" ++ newline))])
              " " newline (mkdate 2024 2 28)) as (H & _); [reflexivity|reflexivity|].
  apply (H (mkdate 2024 2 29)); reflexivity.
Defined.

Lemma read_file_other path other content w :
  other <> path ->
  read_file other (files (write_file path content w)) = read_file other (files w).
Proof.
  intros Hne. cbn [files write_file read_file].
  destruct (String.eqb_spec path other) as [E|_]; [congruence|].
  now apply read_file_filter.
Qed.







(** X12.  A checkpoint that is no date.  When the checkpoint file holds
    eight digits that are not a day of the calendar, the run ends on the
    [ValueError] of [strptime] with exit status 1 before anything is
    submitted, and the result file is still written, empty. *)
Theorem corrupt_checkpoint_stops_the_run env a sched clock disk content :
  read_file (WmScript.resume_file a) disk = Some content ->
  String.length (WmScript.strip content) = 8%nat ->
  all_digits (WmScript.strip content) = true ->
  valid_date (mkdate (number_at (WmScript.strip content) 0 4)
                     (number_at (WmScript.strip content) 4 6)
                     (number_at (WmScript.strip content) 6 8)) = false ->
  WmScript.main env a sched (boot clock disk)
  = (SysExit1 (ValueError BadDateFormat), WmScript.Failed (ValueError BadDateFormat),
     write_output (boot clock disk)).
Proof.
  intros Hf L D V.
  assert (Hs : strptime (WmScript.strip content) = Err (ValueError BadDateFormat)).
  { unfold strptime. rewrite L, D. cbn [Nat.eqb andb].
    fold (number_at (WmScript.strip content) 0 4) (number_at (WmScript.strip content) 4 6)
         (number_at (WmScript.strip content) 6 8). now rewrite V. }
  unfold WmScript.main, WmScript.process_date_range.
  destruct (strptime (WmScript.start_date a)) as [start|e] eqn:E1.
  2: { apply strptime_err in E1. subst. reflexivity. }
  destruct (strptime (WmScript.end_date a)) as [stop|e] eqn:E2.
  2: { apply strptime_err in E2. subst. reflexivity. }
  rewrite (resume_point_init (WmScript.timeout a) (WmScript.resume_file a)
             (boot clock disk) start content Hf).
  destruct (WmScript.strip content) as [|c s]; [discriminate|].
  rewrite Hs. reflexivity.
Qed.

Lemma corrupt_checkpoint_stops_the_run_witness :
  WmScript.main sample_env sample_wm_args [Start] (boot 0 [("progress.log", "20240230")])
  = (SysExit1 (ValueError BadDateFormat), WmScript.Failed (ValueError BadDateFormat),
     write_output (boot 0 [("progress.log", "20240230")])).
Proof.
  apply (corrupt_checkpoint_stops_the_run sample_env sample_wm_args [Start] 0
           [("progress.log", "20240230")] "20240230"); reflexivity.
Defined.

(** ** Further properties: what a run submits and how it ends *)

Lemma submitted_snoc tr e : submitted (tr ++ [e]) = submitted tr ++ submission e.
Proof. unfold submitted. rewrite flat_map_app. cbn. now rewrite app_nil_r. Qed.

Lemma submitted_app tr l : submitted (tr ++ l) = submitted tr ++ submitted l.
Proof. apply flat_map_app. Qed.

Lemma wstep_submitted iw w w' :
  wstep iw (fun _ => False) w w' -> submitted (trace w') = submitted (trace w).
Proof.
  intros St.
  destruct St as [w|w dt|w fh' tn' Hst HP|w url Hst|w url r|w url Hiw Hdone|w path content];
    fields; rewrite ?trace_on_done, ?trace_log, ?submitted_snoc; cbn;
    rewrite ?app_nil_r; auto.
  destruct HP.
Qed.

Lemma runs_submitted iw w w' :
  runs iw (fun _ => False) w w' -> submitted (trace w') = submitted (trace w).
Proof.
  induction 1 as [|w w1 w2 _ IH Hs]; [reflexivity|].
  now rewrite (wstep_submitted _ _ _ Hs).
Qed.

Lemma wstep_now iw P w w' : wstep iw P w w' -> now w <= now w'.
Proof.
  intros St.
  destruct St as [w|w dt|w fh' tn' Hst HP|w url Hst|w url r|w url Hiw Hdone|w path content];
    fields; rewrite ?now_on_done; fields; lia.
Qed.

Lemma runs_now iw P w w' : runs iw P w w' -> now w <= now w'.
Proof.
  induction 1 as [|w w1 w2 _ IH Hs]; [lia|]. pose proof (wstep_now _ _ _ _ Hs). lia.
Qed.

Lemma submit_all_trace tasks : forall k w p w' p',
  submit_all k tasks w p = (w', p') ->
  trace w' = trace w ++ map (fun t => EvSubmit (fst t) (snd t)) tasks /\
  should_stop w' = should_stop w /\ VALID_LINKS w' = VALID_LINKS w /\
  now w' = now w /\ files w' = files w.
Proof.
  induction tasks as [|[fh tn] tasks IH]; intros k w p w' p'; cbn [submit_all].
  - intros [= <- <-]. cbn. now rewrite app_nil_r.
  - intros H. apply IH in H as (-> & -> & -> & -> & ->). cbn [trace log map fst snd].
    rewrite <- app_assoc. repeat split.
Qed.

Lemma submitted_submissions tasks :
  submitted (map (fun t => EvSubmit (fst t) (snd t)) tasks) = tasks.
Proof.
  induction tasks as [|[fh tn] tasks IH]; cbn; [reflexivity|]. f_equal. exact IH.
Qed.

Lemma submit_all_submitted tasks k w p w' p' :
  submit_all k tasks w p = (w', p') ->
  submitted (trace w') = submitted (trace w) ++ tasks.
Proof.
  intros H. apply submit_all_trace in H as (-> & _).
  now rewrite submitted_app, submitted_submissions.
Qed.

Lemma sound_submit_all tasks : forall k w p w' p',
  submit_all k tasks w p = (w', p') -> sound w p -> sound w' p'.
Proof.
  induction tasks as [|[fh tn] tasks IH]; intros k w p w' p'; cbn [submit_all].
  - now intros [= <- <-].
  - intros H S. apply IH in H; auto. intros g u Hin. cbn in Hin.
    rewrite trace_log. apply in_or_app. left. eapply S; eauto.
Qed.

(** After the submissions the simple script submits nothing more. *)
Lemma run_tasks_submitted env a tasks sched w :
  0 < ModifiedScript.workers a ->
  exists ext,
    trace (snd (ModifiedScript.run_tasks env a tasks sched w))
    = trace w ++ map (fun t => EvSubmit (fst t) (snd t)) tasks ++ ext /\
    submitted ext = [] /\
    fst (ModifiedScript.run_tasks env a tasks sched w) = Exit0.
Proof.
  intros Hw. unfold ModifiedScript.run_tasks.
  destruct (Z.leb_spec (ModifiedScript.workers a) 0); [lia|].
  destruct (submit_all 0 tasks w no_pool) as [w1 p1] eqn:E1.
  destruct (ModifiedScript.collect _ _ _ sched w1 p1) as [[w2 p2] sched2] eqn:E2.
  destruct (join_workers _ _ sched2 w2 _) as [w3 rest] eqn:E3.
  pose proof (sound_submit_all _ _ _ _ _ _ E1 (sound_no_pool w)) as S1.
  destruct (modified_collect_runs env (fun _ => False) _ _ _ _ _ _ _ _ E2 S1) as [R2 S2].
  assert (S2' : sound w2 (if should_stop w2 then cancel_pending p2 else p2)).
  { destruct (should_stop w2); auto using sound_cancel. }
  pose proof (join_workers_runs true (fun _ => False) _ (check_link_civil env)
                _ _ _ _ _ _ E3 S2') as R3.
  assert (R : runs true (fun _ => False) w1 w3) by (eapply runs_trans; eauto).
  destruct (runs_trace _ _ _ _ R) as [ext Eext].
  pose proof (runs_submitted _ _ _ R) as Hsub.
  rewrite Eext, submitted_app in Hsub.
  assert (Hext : submitted ext = []).
  { apply (app_inv_head (submitted (trace w1))). now rewrite app_nil_r. }
  apply submit_all_trace in E1 as (E1 & _).
  exists (ext ++ [EvWrite (join newline (VALID_LINKS w3))]). cbn [fst snd].
  destruct (write_output_spec w3) as (-> & _). rewrite Eext, E1, <- !app_assoc.
  repeat split. rewrite submitted_app, Hext. reflexivity.
Qed.

(** X13.  The simple script submits every task.  In a run whose arguments
    pass validation and whose pool has a worker, the targets submitted are
    all the generated tasks, in the order of the task list, whatever the
    schedule: an interrupt does not shorten the list of submitted targets,
    and the run returns from [main]. *)
Theorem all_targets_are_submitted env a sched clock disk start stop tns :
  ModifiedScript.validate a = Ok (start, stop, tns) ->
  0 < ModifiedScript.workers a ->
  exists tasks,
    ModifiedScript.generate_tasks (span start stop) (ModifiedScript.base a) tns start stop
    = Ok tasks /\
    submitted (trace (snd (ModifiedScript.main env a sched (boot clock disk)))) = tasks /\
    fst (ModifiedScript.main env a sched (boot clock disk)) = Exit0.
Proof.
  intros Hv Hw. destruct (validate_tasks _ _ _ _ Hv) as [tasks G].
  exists tasks. split; [exact G|]. unfold ModifiedScript.main. rewrite Hv, G.
  destruct (run_tasks_submitted env a tasks sched (boot clock disk) Hw)
    as (ext & -> & Hext & ->).
  cbn [boot trace app]. split; [|reflexivity].
  now rewrite submitted_app, submitted_submissions, Hext, app_nil_r.
Qed.

Lemma all_targets_are_submitted_witness :
  submitted (trace (snd (ModifiedScript.main sample_env single_simple_args interrupted
                           (boot 0 []))))
  = [("cam_20240228", "000000")].
Proof.
  destruct (all_targets_are_submitted sample_env single_simple_args interrupted 0 []
              (mkdate 2024 2 28) (mkdate 2024 2 28) ["000000"]) as (tasks & G & H & _).
  - reflexivity.
  - reflexivity.
  - rewrite H. vm_compute in G. now injection G as <-.
Defined.

Lemma add_one_day_total d :
  valid_date d = true -> date_le last_day d = false -> exists next, add_one_day d = Ok next.
Proof.
  intros V H. destruct (add_one_day d) as [next|e] eqn:E; [eauto|].
  pose proof (add_one_day_err _ _ E); subst e.
  apply add_one_day_last in E; auto. subst. discriminate.
Qed.

Lemma not_last_day_le d stop :
  valid_date d = true -> valid_date stop = true ->
  date_le d stop = true -> date_le last_day stop = false -> date_le last_day d = false.
Proof.
  intros Vd Vs H1 H2. destruct (date_le last_day d) eqn:E; [|reflexivity].
  apply last_day_le in E; auto. subst d.
  rewrite H1 in H2. discriminate.
Qed.

(** One batch: the day's targets are submitted at once; nothing else is. *)
Lemma batch_submitted env a guard s tasks sched w w1 p1 w2 p2 sched2 w3 sched3 :
  submit_all 0 tasks w no_pool = (w1, p1) ->
  WmScript.collect (WmScript.check_wm_link env s) guard (WmScript.workers a)
    (List.length tasks) sched w1 p1 = (w2, p2, sched2) ->
  join_workers (WmScript.check_wm_link env s) (WmScript.workers a) sched2 w2 p2 = (w3, sched3) ->
  submitted (trace w3) = submitted (trace w) ++ tasks.
Proof.
  intros E1 E2 E3.
  pose proof (sound_submit_all _ _ _ _ _ _ E1 (sound_no_pool w)) as S1.
  destruct (wm_collect_runs env a guard s (fun _ => False) _ _ _ _ _ _ _ E2 S1) as [R2 S2].
  pose proof (join_workers_runs false (fun _ => False) _ (check_wm_link_civil env s)
                _ _ _ _ _ _ E3 S2) as R3.
  rewrite (runs_submitted _ _ _ R3), (runs_submitted _ _ _ R2).
  eapply submit_all_submitted; eauto.
Qed.

(** X14.  The last day.  Once the loop of the resumable script has entered
    the batch of the end date (stop flag down, no time cutoff, at least one
    worker), all the targets of that day are submitted and the scan returns
    the day after the end date, which [main] reports as a completed scan,
    whatever happens during the batch, an interrupt or a time cutoff
    included.  If the end date is 9999-12-31 the step to the next day raises
    [OverflowError] instead. *)
Theorem last_day_batch_ends_the_scan env a guard s fuel stop sched w tns :
  strptime (WmScript.end_date a) = Ok stop ->
  should_stop w = false ->
  WmScript.TimeoutGuard.check_timeout guard w = false ->
  generate_time_numbers (WmScript.start_time a) (WmScript.end_time a) = Ok tns ->
  0 < WmScript.workers a ->
  exists w' rest,
    submitted (trace w') = submitted (trace w) ++ day_targets (WmScript.base a) tns stop /\
    match add_one_day stop with
    | Ok next =>
        WmScript.batches (S (S fuel)) env a guard s stop stop sched w = (Ok next, w', rest) /\
        WmScript.verdict a (Ok next) = Ok WmScript.AllDone
    | Err e =>
        WmScript.batches (S (S fuel)) env a guard s stop stop sched w = (Err e, w', rest) /\
        e = OverflowError
    end.
Proof.
  intros Es Hs Ht Hg Hw. pose proof (strptime_valid _ _ Es) as V.
  cbn [WmScript.batches]. rewrite date_le_refl, Hs, Ht, Hg. cbn [negb andb].
  destruct (Z.leb_spec (WmScript.workers a) 0); [lia|].
  destruct (submit_all 0 _ w no_pool) as [w1 p1] eqn:E1.
  rewrite <- (length_map (fun tn => ((WmScript.base a ++ "_" ++ strftime stop)%string, tn)) tns).
  destruct (WmScript.collect _ guard _ _ sched w1 p1) as [[w2 p2] sched2] eqn:E2.
  destruct (join_workers _ _ sched2 w2 p2) as [w3 sched3] eqn:E3.
  exists w3, sched3. split; [eapply batch_submitted; eauto|].
  destruct (add_one_day stop) as [next|e] eqn:En.
  - destruct (add_one_day_ok _ _ V En) as [Vn On].
    assert (Hgt : date_le next stop = false).
    { rewrite (date_le_ordinal _ _ Vn V). apply Z.leb_gt. lia. }
    rewrite Hgt. cbn [andb]. split; [reflexivity|].
    unfold WmScript.verdict. cbn [bind]. rewrite Es. cbn [bind]. now rewrite Hgt.
  - split; [reflexivity|]. now apply add_one_day_err in En.
Qed.

Lemma last_day_batch_ends_the_scan_witness :
  let r := WmScript.batches 2 sample_env single_wm_args
             (WmScript.TimeoutGuard.init 19800 "progress.log" (boot 0 []))
             WmScript.create_retry_session (mkdate 2024 2 28) (mkdate 2024 2 28)
             interrupted (boot 0 []) in
  fst (fst r) = Ok (mkdate 2024 2 29) /\
  WmScript.verdict single_wm_args (Ok (mkdate 2024 2 29)) = Ok WmScript.AllDone /\
  should_stop (snd (fst r)) = true.
Proof.
  destruct (last_day_batch_ends_the_scan sample_env single_wm_args
              (WmScript.TimeoutGuard.init 19800 "progress.log" (boot 0 []))
              WmScript.create_retry_session 0 (mkdate 2024 2 28) interrupted (boot 0 [])
              ["000000"]) as (w' & rest & _ & H); try reflexivity.
  change (add_one_day (mkdate 2024 2 28)) with (Ok (mkdate 2024 2 29)) in H.
  destruct H as [Hb Hv]. cbn zeta. rewrite Hb. cbn [fst snd].
  split; [reflexivity|]. split; [exact Hv|].
  revert Hb. vm_compute. now intros [= <- _].
Defined.

(** X15.  End date 9999-12-31 in the simple script.  [validate_date_range]
    steps past the last [datetime] and raises [OverflowError], which the
    handler for [ValueError] does not catch: the error leaves [main] before
    any task is generated, and nothing is written. *)
Theorem end_of_calendar_crashes_simple_script env a sched w start :
  strptime (ModifiedScript.start_date a) = Ok start ->
  strptime (ModifiedScript.end_date a) = Ok (mkdate 9999 12 31) ->
  ModifiedScript.main env a sched w = (Uncaught OverflowError, w).
Proof.
  intros E1 E2. pose proof (strptime_valid _ _ E1) as V1.
  unfold ModifiedScript.main, ModifiedScript.validate, ModifiedScript.validate_date.
  rewrite E1, E2. cbn [bind]. fold last_day.
  unfold ModifiedScript.validate_date_range, date_gt.
  rewrite (date_le_last_day start V1). cbn [negb].
  rewrite (february_loop_spec last_day eq_refl (span start last_day) start V1).
  - reflexivity.
  - unfold span. lia.
  - now apply date_le_last_day.
Qed.

Lemma end_of_calendar_crashes_simple_script_witness :
  ModifiedScript.main sample_env
    {| ModifiedScript.base := "cam"; ModifiedScript.start_date := "99991230";
       ModifiedScript.end_date := "99991231"; ModifiedScript.start_time := "000000";
       ModifiedScript.end_time := "000001"; ModifiedScript.workers := 2 |}
    [] (boot 0 [])
  = (Uncaught OverflowError, boot 0 []).
Proof.
  apply (end_of_calendar_crashes_simple_script sample_env _ [] (boot 0 []) (mkdate 9999 12 30));
    reflexivity.
Defined.

Lemma not_last_day d : valid_date d = true -> d <> last_day -> date_le last_day d = false.
Proof.
  intros V H. destruct (date_le last_day d) eqn:E; [|reflexivity].
  apply last_day_le in E; auto. contradiction.
Qed.

Lemma submitted_save guard d w :
  submitted (trace (WmScript.TimeoutGuard.save_progress guard d w)) = submitted (trace w).
Proof.
  unfold WmScript.TimeoutGuard.save_progress. cbn [trace log write_file].
  rewrite submitted_snoc. cbn. now rewrite app_nil_r.
Qed.

Lemma submitted_write_output w : submitted (trace (write_output w)) = submitted (trace w).
Proof.
  destruct (write_output_spec w) as (-> & _). rewrite submitted_snoc. cbn.
  now rewrite app_nil_r.
Qed.

Lemma submitted_idle w w' : idle w w' -> submitted (trace w') = submitted (trace w).
Proof.
  intros ((k & ->) & _). rewrite submitted_app.
  assert (E : submitted (repeat EvSignal k) = []) by (induction k; cbn; auto).
  now rewrite E, app_nil_r.
Qed.

Lemma batches_days env a guard s tns stop :
  generate_time_numbers (WmScript.start_time a) (WmScript.end_time a) = Ok tns ->
  valid_date stop = true ->
  forall fuel cur sched w r w' rest,
    valid_date cur = true ->
    WmScript.batches fuel env a guard s cur stop sched w = (r, w', rest) ->
    exists days,
      submitted (trace w') = submitted (trace w) ++ targets_of (WmScript.base a) tns days /\
      map toordinal days
      = range (toordinal cur) (toordinal cur + Z.of_nat (List.length days)) /\
      Forall (fun d => valid_date d = true /\ date_le d stop = true) days.
Proof.
  intros Hg Vs.
  assert (Hnil : forall cur w,
            submitted (trace w) = submitted (trace w) ++ targets_of (WmScript.base a) tns [] /\
            map toordinal []
            = range (toordinal cur) (toordinal cur + Z.of_nat (List.length (@nil datetime))) /\
            Forall (fun d => valid_date d = true /\ date_le d stop = true) []).
  { intros cur w. cbn. rewrite app_nil_r, range_nil by lia. auto. }
  induction fuel as [|fuel IH]; intros cur sched w r w' rest V; cbn [WmScript.batches].
  - intros [= _ <- _]. exists []. apply Hnil.
  - destruct (date_le cur stop && negb (should_stop w)) eqn:Etop.
    2: { intros [= _ <- _]. exists []. apply Hnil. }
    apply andb_true_iff in Etop as [Ele Es].
    destruct (WmScript.TimeoutGuard.check_timeout guard w).
    { intros [= _ <- _]. exists []. rewrite submitted_save. apply Hnil. }
    rewrite Hg.
    destruct (WmScript.workers a <=? 0).
    { intros [= _ <- _]. exists []. apply Hnil. }
    destruct (submit_all 0 _ w no_pool) as [w1 p1] eqn:E1.
    rewrite <- (length_map (fun tn => ((WmScript.base a ++ "_" ++ strftime cur)%string, tn)) tns).
    destruct (WmScript.collect _ guard _ _ sched w1 p1) as [[w2 p2] sched2] eqn:E2.
    destruct (join_workers _ _ sched2 w2 p2) as [w3 sched3] eqn:E3.
    pose proof (batch_submitted _ _ _ _ _ _ _ _ _ _ _ _ _ _ E1 E2 E3) as Hsub.
    destruct (add_one_day cur) as [next|e] eqn:En.
    + intros H. destruct (add_one_day_ok _ _ V En) as [Vn On].
      destruct (IH _ _ _ _ _ _ Vn H) as (days & Hd & Ho & Hf).
      exists (cur :: days). split; [|split].
      * rewrite Hd, Hsub, <- app_assoc. reflexivity.
      * cbn [map List.length]. rewrite Ho, On. symmetry.
        rewrite range_cons by lia. do 2 f_equal. lia.
      * constructor; auto.
    + intros [= _ <- _]. exists [cur]. split; [|split].
      * rewrite Hsub. cbn [targets_of flat_map]. now rewrite app_nil_r.
      * cbn [map List.length]. rewrite range_cons, range_nil by lia. reflexivity.
      * repeat constructor; auto.
Qed.

(** X18.  The resumable script submits whole days.  In every run the
    submitted targets are the targets of consecutive days, starting at the
    day the scan resumes from and none past the end date; the targets of a
    day are its time codes in order. *)
Theorem whole_days_are_submitted env a sched clock disk start stop cur tns :
  strptime (WmScript.start_date a) = Ok start ->
  strptime (WmScript.end_date a) = Ok stop ->
  WmScript.resume_point
    (WmScript.TimeoutGuard.init (WmScript.timeout a) (WmScript.resume_file a) (boot clock disk))
    start = Ok cur ->
  generate_time_numbers (WmScript.start_time a) (WmScript.end_time a) = Ok tns ->
  exists days,
    submitted (trace (snd (WmScript.main env a sched (boot clock disk))))
    = targets_of (WmScript.base a) tns days /\
    map toordinal days = range (toordinal cur) (toordinal cur + Z.of_nat (List.length days)) /\
    Forall (fun d => valid_date d = true /\ date_le d stop = true) days.
Proof.
  intros E1 E2 E3 Hg. unfold WmScript.main, WmScript.process_date_range.
  rewrite E1, E2, E3.
  destruct (absorb _ _ sched (boot clock disk) no_pool) as [[w0 p0] sched0] eqn:Ea.
  apply absorb_idle in Ea as [_ I]. apply submitted_idle in I. cbn in I.
  destruct (WmScript.batches _ env a _ _ cur stop sched0 w0) as [[r w1] rest] eqn:Eb.
  assert (Vc : valid_date cur = true).
  { eapply resume_point_valid; [|exact E3]. eapply strptime_valid; eauto. }
  destruct (batches_days env a _ _ tns stop Hg (strptime_valid _ _ E2) _ _ _ _ _ _ _ Vc Eb)
    as (days & Hd & Ho & Hf).
  rewrite I in Hd. cbn [app] in Hd.
  exists days. split; [|auto].
  destruct (WmScript.verdict a r); cbn [snd]; now rewrite submitted_write_output.
Qed.

Lemma whole_days_are_submitted_witness :
  exists days,
    submitted (trace (snd (WmScript.main sample_env sample_wm_args (Resume :: interrupted)
                             (boot 0 []))))
    = targets_of "cam" ["000000"; "000001"] days /\
    map toordinal days
    = range (toordinal (mkdate 2024 2 28))
            (toordinal (mkdate 2024 2 28) + Z.of_nat (List.length days)) /\
    Forall (fun d => valid_date d = true /\ date_le d (mkdate 2024 3 1) = true) days.
Proof.
  apply (whole_days_are_submitted sample_env sample_wm_args (Resume :: interrupted) 0 []
           (mkdate 2024 2 28) (mkdate 2024 3 1) (mkdate 2024 2 28) ["000000"; "000001"]);
    reflexivity.
Defined.

Lemma batches_ok env a guard s tns stop :
  generate_time_numbers (WmScript.start_time a) (WmScript.end_time a) = Ok tns ->
  0 < WmScript.workers a ->
  valid_date stop = true -> date_le last_day stop = false ->
  forall fuel cur sched w,
    valid_date cur = true ->
    (Z.to_nat (toordinal stop - toordinal cur + 1) < fuel)%nat ->
    exists d, fst (fst (WmScript.batches fuel env a guard s cur stop sched w)) = Ok d.
Proof.
  intros Hg Hw Vs Hl. induction fuel as [|fuel IH]; intros cur sched w V Hf; [lia|].
  cbn [WmScript.batches].
  destruct (date_le cur stop && negb (should_stop w)) eqn:Etop; [|cbn; eauto].
  apply andb_true_iff in Etop as [Ele _].
  destruct (WmScript.TimeoutGuard.check_timeout guard w); [cbn; eauto|].
  rewrite Hg. destruct (Z.leb_spec (WmScript.workers a) 0); [lia|].
  destruct (submit_all 0 _ w no_pool) as [w1 p1].
  destruct (WmScript.collect _ guard _ _ sched w1 p1) as [[w2 p2] sched2].
  destruct (join_workers _ _ sched2 w2 p2) as [w3 sched3].
  destruct (add_one_day_total cur V (not_last_day_le _ _ V Vs Ele Hl)) as [next En].
  rewrite En. destruct (add_one_day_ok _ _ V En) as [Vn On].
  apply IH; auto.
  rewrite (date_le_ordinal _ _ V Vs) in Ele. apply Z.leb_le in Ele. lia.
Qed.

(** X17.  No schedule makes the resumable script fail.  With dates that
    parse, an end date other than 9999-12-31, a checkpoint that is missing
    or parses, time arguments [generate_time_numbers] accepts and at least
    one worker, every run ends with exit status 0. *)
Theorem good_arguments_never_fail env a sched clock disk start stop cur tns :
  strptime (WmScript.start_date a) = Ok start ->
  strptime (WmScript.end_date a) = Ok stop ->
  stop <> mkdate 9999 12 31 ->
  WmScript.resume_point
    (WmScript.TimeoutGuard.init (WmScript.timeout a) (WmScript.resume_file a) (boot clock disk))
    start = Ok cur ->
  generate_time_numbers (WmScript.start_time a) (WmScript.end_time a) = Ok tns ->
  0 < WmScript.workers a ->
  fst (fst (WmScript.main env a sched (boot clock disk))) = Exit0.
Proof.
  intros E1 E2 Hne E3 Hg Hw. pose proof (strptime_valid _ _ E2) as Vs.
  unfold WmScript.main, WmScript.process_date_range. rewrite E1, E2, E3.
  destruct (absorb _ _ sched (boot clock disk) no_pool) as [[w0 p0] sched0].
  assert (Vc : valid_date cur = true).
  { eapply resume_point_valid; [|exact E3]. eapply strptime_valid; eauto. }
  destruct (batches_ok env a (WmScript.TimeoutGuard.init (WmScript.timeout a)
              (WmScript.resume_file a) (boot clock disk)) WmScript.create_retry_session
              tns stop Hg Hw Vs (not_last_day _ Vs Hne) (span cur stop) cur sched0 w0 Vc)
    as [d Hd]; [unfold span; lia|].
  destruct (WmScript.batches _ env a _ _ cur stop sched0 w0) as [[r w1] rest].
  cbn [fst] in Hd. subst r. unfold WmScript.verdict. cbn [bind]. rewrite E2. reflexivity.
Qed.

Lemma good_arguments_never_fail_witness :
  fst (fst (WmScript.main sample_env sample_wm_args
              [Tick 30000; Signal; Start; Finish 7 []] (boot 0 []))) = Exit0.
Proof.
  apply (good_arguments_never_fail sample_env sample_wm_args _ 0 []
           (mkdate 2024 2 28) (mkdate 2024 3 1) (mkdate 2024 2 28) ["000000"; "000001"]);
    try reflexivity. discriminate.
Defined.




Lemma lull_refl w : lull w w.
Proof. repeat split. lia. Qed.

Lemma lull_trans w1 w2 w3 : lull w1 w2 -> lull w2 w3 -> lull w1 w3.
Proof. intros (A1 & B1 & C1 & D1) (A2 & B2 & C2 & D2). repeat split; try congruence. lia. Qed.

Lemma start_next_size wk mw w p w' p' :
  start_next wk mw w p = (w', p') -> size p' = size p.
Proof.
  unfold start_next. destruct (queued p) as [|f q] eqn:Eq; [now intros [= _ <-]|].
  destruct (_ <? mw); [|now intros [= _ <-]].
  destruct (before_request wk f w); intros [= _ <-]; unfold size;
    cbn [queued running finished]; rewrite Eq, length_app; cbn; lia.
Qed.

Lemma finish_size wk k net w p w' p' :
  finish wk k net w p = (w', p') -> size p' = size p.
Proof.
  unfold finish. destruct (take_out k (running p)) as [[[f url] others]|] eqn:Et;
    [|now intros [= _ <-]].
  destruct (take_out_spec _ _ _ _ Et) as (L & _).
  destruct (after_request wk url _ _). intros [= _ <-]. unfold size.
  cbn [queued running finished]. rewrite L, length_app. cbn. lia.
Qed.

Section Lull.
Variable wk : worker.
Hypothesis Hcivil : civil false wk.
Variable mw : Z.

Lemma start_next_lull w p w' p' : start_next wk mw w p = (w', p') -> lull w w'.
Proof.
  unfold start_next. destruct (queued p) as [|f q]; [intros [= <- _]; apply lull_refl|].
  destruct (_ <? mw); [|intros [= <- _]; apply lull_refl].
  destruct (before_request wk f w); intros [= <- _]; [apply lull_refl|].
  repeat split. cbn. lia.
Qed.

Lemma finish_lull k net w p w' p' : finish wk k net w p = (w', p') -> lull w w'.
Proof.
  unfold finish. destruct (take_out k (running p)) as [[[f url] others]|];
    [|intros [= <- _]; apply lull_refl].
  destruct (after_request wk url _ _) as [v w1] eqn:E. intros [= <- _].
  rewrite (civil_after _ _ Hcivil _ _ _ _ _ E). repeat split.
  - now rewrite should_stop_on_done.
  - rewrite VALID_LINKS_on_done. cbn. now rewrite app_nil_r.
  - now rewrite files_on_done.
  - rewrite now_on_done. cbn. lia.
Qed.

Lemma act_lull a w p w' p' :
  is_quiet a = true -> act wk mw a w p = (w', p') -> lull w w' /\ size p' = size p.
Proof.
  destruct a; cbn [is_quiet act]; try discriminate; intros _.
  - intros [= <- <-]. repeat split. cbn. lia.
  - intros H. split; [eapply start_next_lull|eapply start_next_size]; eauto.
  - intros H. split; [eapply finish_lull|eapply finish_size]; eauto.
  - intros [= <- <-]. split; [apply lull_refl|reflexivity].
Qed.

Lemma absorb_lull sched : forall w p w' p' rest,
  forallb is_quiet sched = true ->
  absorb wk mw sched w p = (w', p', rest) ->
  lull w w' /\ size p' = size p /\ forallb is_quiet rest = true.
Proof.
  induction sched as [|a sched IH]; intros w p w' p' rest Hq; cbn [absorb].
  - intros [= <- <- <-]. split; [apply lull_refl|auto].
  - cbn [forallb] in Hq. apply andb_true_iff in Hq as [Ha Hq].
    destruct a; try discriminate.
    4: { intros [= <- <- <-]. split; [apply lull_refl|auto]. }
    all: match goal with |- context [act wk mw ?a ?w0 ?p0] =>
           destruct (act wk mw a w0 p0) as [w1 p1] eqn:E end;
         intros H; destruct (act_lull _ _ _ _ _ Ha E) as [L1 Z1];
         destruct (IH _ _ _ _ _ Hq H) as (L2 & Z2 & Q2);
         split; [eapply lull_trans; eauto|split; [congruence|assumption]].
Qed.

Lemma settle_lull w p w' p' :
  settle wk mw w p = (w', p') ->
  lull w w' /\ size p' = size p /\ (0 < mw -> (0 < size p)%nat -> finished p' <> []).
Proof.
  unfold settle. destruct (finished p) as [|x fin] eqn:Ef.
  2: { intros [= <- <-]. split; [apply lull_refl|]. split; [reflexivity|].
       intros _ _. rewrite Ef. discriminate. }
  destruct (running p) as [|[f url] r] eqn:Er.
  - destruct (start_next wk mw w p) as [w1 p1] eqn:E1.
    pose proof (start_next_lull _ _ _ _ E1) as L1.
    pose proof (start_next_size _ _ _ _ _ _ E1) as Z1.
    destruct (finished p1) as [|y fin1] eqn:Ef1.
    + destruct (running p1) as [|[g url] r1] eqn:Er1.
      * intros [= <- <-]. split; [exact L1|]. split; [exact Z1|]. intros Hmw Hz. exfalso.
        revert E1. unfold start_next. destruct (queued p) as [|h q] eqn:Eq.
        { unfold size in Hz. rewrite Eq, Er, Ef in Hz. cbn in Hz. lia. }
        rewrite Er. cbn [List.length]. destruct (Z.ltb_spec (Z.of_nat 0) mw); [|lia].
        destruct (before_request wk h w); intros [= _ <-]; cbn in Ef1, Er1.
        -- rewrite Ef in Ef1. discriminate.
        -- discriminate.
      * intros H. pose proof (finish_lull _ _ _ _ _ _ H) as L2.
        pose proof (finish_size _ _ _ _ _ _ _ H) as Z2.
        split; [eapply lull_trans; eauto|]. split; [congruence|]. intros _ _.
        revert H. unfold finish. rewrite Er1, take_out_head.
        destruct (after_request wk url _ _). intros [= _ <-]. cbn.
        destruct (finished p1); discriminate.
    + intros [= <- <-]. split; [exact L1|]. split; [exact Z1|]. intros _ _.
      rewrite Ef1. discriminate.
  - intros H. pose proof (finish_lull _ _ _ _ _ _ H) as L2.
    pose proof (finish_size _ _ _ _ _ _ _ H) as Z2.
    split; [exact L2|]. split; [exact Z2|]. intros _ _.
    revert H. unfold finish. rewrite Er, take_out_head.
    destruct (after_request wk url _ _). intros [= _ <-]. cbn.
    destruct (finished p); discriminate.
Qed.

Lemma drain_lull n : forall w p w' p', drain wk mw n w p = (w', p') -> lull w w'.
Proof.
  induction n as [|n IH]; intros w p w' p'; cbn [drain].
  - intros [= <- _]. apply lull_refl.
  - destruct (running p) as [|[f url] r].
    + destruct (queued p).
      * intros [= <- _]. apply lull_refl.
      * destruct (start_next wk mw w p) as [w1 p1] eqn:E. intros H.
        eapply lull_trans; [eapply start_next_lull; eauto|eapply IH; eauto].
    + destruct (finish wk (fid f) [] w p) as [w1 p1] eqn:E. intros H.
      eapply lull_trans; [eapply finish_lull; eauto|eapply IH; eauto].
Qed.

Lemma join_workers_lull sched w p w' rest :
  forallb is_quiet sched = true ->
  join_workers wk mw sched w p = (w', rest) ->
  lull w w' /\ forallb is_quiet rest = true.
Proof.
  intros Hq. unfold join_workers.
  destruct (absorb wk mw sched w p) as [[w1 p1] sched1] eqn:E1.
  destruct (drain wk mw _ w1 p1) as [w2 p2] eqn:E2. intros [= <- <-].
  destruct (absorb_lull _ _ _ _ _ _ Hq E1) as (L1 & _ & Q1).
  split; [|exact Q1]. eapply lull_trans; [exact L1|eapply drain_lull; eauto].
Qed.
End Lull.

Lemma submit_all_size tasks : forall k w p w' p',
  submit_all k tasks w p = (w', p') -> size p' = (size p + List.length tasks)%nat.
Proof.
  induction tasks as [|[fh tn] tasks IH]; intros k w p w' p'; cbn [submit_all].
  - intros [= _ <-]. cbn [List.length]. lia.
  - intros H. apply IH in H. rewrite H. unfold size. cbn [queued running finished List.length].
    rewrite length_app. cbn. lia.
Qed.

Lemma time_numbers_nonempty st et tns :
  generate_time_numbers st et = Ok tns -> (0 < List.length tns)%nat.
Proof.
  intros H. apply generate_time_numbers_inv in H as (s1 & s2 & _ & _ & Hle & ->).
  rewrite length_map, range_length. lia.
Qed.

(** X16.  A batch cut by the time budget.  When the clock passes the cutoff
    while the main thread waits for the first result of a day's batch, and
    no interrupt comes, the loop leaves the batch without collecting any
    result, steps to the next day and, that day being within the range,
    saves it as the checkpoint: the targets of the day were all submitted,
    [VALID_LINKS] is as it was before the batch, and the checkpoint names
    the day after. *)
Theorem cut_batch_checkpoints_next_day env a guard s fuel d next stop dt sched w tns :
  date_le d stop = true ->
  should_stop w = false ->
  WmScript.TimeoutGuard.check_timeout guard w = false ->
  generate_time_numbers (WmScript.start_time a) (WmScript.end_time a) = Ok tns ->
  0 < WmScript.workers a ->
  forallb is_quiet sched = true ->
  WmScript.TimeoutGuard.remaining_time guard w - Z.of_N dt < 300 ->
  add_one_day d = Ok next ->
  date_le next stop = true ->
  exists w3 rest,
    WmScript.batches (S (S fuel)) env a guard s d stop (Tick dt :: sched) w
    = (Ok next, WmScript.TimeoutGuard.save_progress guard next w3, rest) /\
    VALID_LINKS w3 = VALID_LINKS w /\
    submitted (trace w3) = submitted (trace w) ++ day_targets (WmScript.base a) tns d /\
    read_file (WmScript.TimeoutGuard.resume_file guard)
      (files (WmScript.TimeoutGuard.save_progress guard next w3)) = Some (strftime next).
Proof.
  intros Hle Hs Ht Hg Hw Hq Hdt En Hn.
  pose proof (check_wm_link_civil env s) as Hciv.
  cbn [WmScript.batches]. rewrite Hle, Hs, Ht, Hg. cbn [negb andb].
  destruct (Z.leb_spec (WmScript.workers a) 0); [lia|].
  destruct (submit_all 0 _ w no_pool) as [w1 p1] eqn:E1.
  rewrite <- (length_map (fun tn => ((WmScript.base a ++ "_" ++ strftime d)%string, tn)) tns).
  destruct (WmScript.collect _ guard _ _ _ w1 p1) as [[w2 p2] sched2] eqn:E2.
  destruct (join_workers _ _ sched2 w2 p2) as [w3 sched3] eqn:E3.
  pose proof (batch_submitted _ _ _ _ _ _ _ _ _ _ _ _ _ _ E1 E2 E3) as Hsub.
  pose proof (submit_all_size _ _ _ _ _ _ E1) as Z1. cbn in Z1.
  apply submit_all_trace in E1 as (_ & S1 & L1 & N1 & F1).
  rewrite length_map in E2, Z1.
  pose proof (time_numbers_nonempty _ _ _ Hg) as Hlen.
  destruct (List.length tns) as [|n] eqn:El; [lia|].
  cbn [WmScript.collect absorb act] in E2.
  destruct (absorb _ _ sched (tick dt w1) p1) as [[w1' p1'] sched1] eqn:Ea.
  destruct (settle _ _ w1' p1') as [w2' p2'] eqn:Ese.
  destruct (absorb_lull _ Hciv _ _ _ _ _ _ _ Hq Ea) as ((A1 & B1 & C1 & D1) & Za & Qa).
  destruct (settle_lull _ Hciv _ _ _ _ _ Ese) as ((A2 & B2 & C2 & D2) & Zs & Fs).
  cbn [tick should_stop VALID_LINKS files now] in A1, B1, C1, D1.
  assert (Hfin : finished p2' <> []) by (apply Fs; [lia|lia]).
  destruct (finished p2') as [|[f res] later]; [contradiction|].
  assert (Hcut : WmScript.TimeoutGuard.check_timeout guard w2' = true).
  { unfold WmScript.TimeoutGuard.check_timeout, WmScript.TimeoutGuard.remaining_time in *.
    apply Z.ltb_lt. lia. }
  rewrite Hcut, orb_true_r in E2. injection E2 as <- <- <-.
  destruct (join_workers_lull _ Hciv _ _ _ _ _ _ Qa E3) as ((A3 & B3 & C3 & D3) & Q3).
  rewrite En. cbn [WmScript.batches]. rewrite Hn.
  assert (Hs3 : should_stop w3 = false) by congruence.
  assert (Hcut3 : WmScript.TimeoutGuard.check_timeout guard w3 = true).
  { unfold WmScript.TimeoutGuard.check_timeout, WmScript.TimeoutGuard.remaining_time in *.
    apply Z.ltb_lt. apply Z.ltb_lt in Hcut. lia. }
  rewrite Hs3, Hcut3. cbn [negb andb].
  exists w3, sched3. split; [reflexivity|]. split; [congruence|]. split; [exact Hsub|].
  unfold WmScript.TimeoutGuard.save_progress. cbn [files log]. apply read_write_file.
Qed.

Lemma cut_batch_checkpoints_next_day_witness :
  let r := WmScript.batches 2 sample_env sample_wm_args
             (WmScript.TimeoutGuard.init 19800 "progress.log" (boot 0 []))
             WmScript.create_retry_session (mkdate 2024 2 28) (mkdate 2024 3 1)
             [Tick 19600; Start; Finish 0 [Reply 200]] (boot 0 []) in
  fst (fst r) = Ok (mkdate 2024 2 29) /\
  VALID_LINKS (snd (fst r)) = [] /\
  In (EvDone "https://wm.example/clips/cam_20240228000000_0.opt" (Response 200))
     (trace (snd (fst r))) /\
  read_file "progress.log" (files (snd (fst r))) = Some "20240229".
Proof.
  destruct (cut_batch_checkpoints_next_day sample_env sample_wm_args
              (WmScript.TimeoutGuard.init 19800 "progress.log" (boot 0 []))
              WmScript.create_retry_session 0 (mkdate 2024 2 28) (mkdate 2024 2 29)
              (mkdate 2024 3 1) 19600 [Start; Finish 0 [Reply 200]] (boot 0 [])
              ["000000"; "000001"]) as (w3 & rest & Hb & Hl & _ & Hf); try reflexivity.
  cbn zeta. split; [now rewrite Hb|]. split; [now rewrite Hb|].
  split; [|now rewrite Hb].
  vm_compute. do 3 right. now left.
Defined.

Lemma check_link_heedful env : heedful (ModifiedScript.check_link env).
Proof.
  intros f w Hs. cbn. unfold ModifiedScript.check_link_before. rewrite Hs. eauto.
Qed.


Lemma idle_signal w : idle w (signal_handler w).
Proof. split; [exists 1%nat; reflexivity|auto]. Qed.

Lemma idle_tick dt w : idle w (tick dt w).
Proof. split; [exists 0%nat; cbn; now rewrite app_nil_r|auto]. Qed.

Section Halted.
Variable wk : worker.
Hypothesis Hheed : heedful wk.
Variable mw : Z.

Lemma start_next_halted w p w' p' :
  start_next wk mw w p = (w', p') -> halted w p -> w' = w /\ halted w' p'.
Proof.
  unfold start_next. intros H [Hs Hr].
  destruct (queued p) as [|f q]; [injection H as <- <-; repeat split; auto|].
  destruct (_ <? mw); [|injection H as <- <-; repeat split; auto].
  destruct (Hheed f w Hs) as [v Ev]. rewrite Ev in H. injection H as <- <-.
  repeat split; auto.
Qed.

Lemma finish_halted k net w p w' p' :
  finish wk k net w p = (w', p') -> halted w p -> w' = w /\ halted w' p'.
Proof.
  unfold finish. intros H [Hs Hr]. rewrite Hr in H. cbn in H. injection H as <- <-.
  repeat split; auto.
Qed.

Lemma act_halted a w p w' p' :
  act wk mw a w p = (w', p') -> halted w p -> idle w w' /\ halted w' p'.
Proof.
  destruct a; cbn [act]; intros H Hh.
  - injection H as <- <-. split; [apply idle_signal|]. destruct Hh. split; auto.
  - injection H as <- <-. split; [apply idle_tick|exact Hh].
  - destruct (start_next_halted _ _ _ _ H Hh) as [-> Hh']. split; [apply idle_refl|exact Hh'].
  - destruct (finish_halted _ _ _ _ _ _ H Hh) as [-> Hh']. split; [apply idle_refl|exact Hh'].
  - injection H as <- <-. split; [apply idle_refl|exact Hh].
Qed.

Lemma absorb_halted sched : forall w p w' p' rest,
  absorb wk mw sched w p = (w', p', rest) -> halted w p -> idle w w' /\ halted w' p'.
Proof.
  induction sched as [|a sched IH]; intros w p w' p' rest; cbn [absorb].
  - intros [= <- <- <-] Hh. split; [apply idle_refl|exact Hh].
  - destruct a; try (now intros [= <- <- <-] Hh; split; [apply idle_refl|exact Hh]).
    all: match goal with |- context [act wk mw ?a ?w0 ?p0] =>
           destruct (act wk mw a w0 p0) as [w1 p1] eqn:E end;
         intros H Hh; destruct (act_halted _ _ _ _ _ E Hh) as [I1 H1];
         destruct (IH _ _ _ _ _ H H1) as [I2 H2];
         split; [eapply idle_trans; eauto|assumption].
Qed.

Lemma settle_halted w p w' p' :
  settle wk mw w p = (w', p') -> halted w p -> w' = w /\ halted w' p'.
Proof.
  unfold settle. intros H Hh. pose proof Hh as [Hs Hr].
  destruct (finished p); [|injection H as <- <-; auto].
  rewrite Hr in H. destruct (start_next wk mw w p) as [w1 p1] eqn:E.
  destruct (start_next_halted _ _ _ _ E Hh) as [-> [Hs1 Hr1]].
  rewrite Hr1 in H. destruct (finished p1); injection H as <- <-; repeat split; auto.
Qed.


End Halted.

Lemma modified_collect_halted env mw n : forall sched w p w' p' rest,
  ModifiedScript.collect (ModifiedScript.check_link env) mw n sched w p = (w', p', rest) ->
  halted w p -> idle w w' /\ halted w' p'.
Proof.
  induction n as [|n IH]; intros sched w p w' p' rest; cbn [ModifiedScript.collect].
  - intros [= <- <- <-] Hh. split; [apply idle_refl|exact Hh].
  - destruct (absorb _ mw sched w p) as [[w1 p1] sched1] eqn:E1.
    destruct (settle _ mw w1 p1) as [w2 p2] eqn:E2. intros H Hh.
    destruct (absorb_halted _ (check_link_heedful env) _ _ _ _ _ _ _ E1 Hh) as [I1 H1].
    destruct (settle_halted _ (check_link_heedful env) _ _ _ _ _ E2 H1) as [-> H2].
    destruct (finished p2); [injection H as <- <- <-; auto|].
    destruct H2 as [Hs Hr]. rewrite Hs in H. injection H as <- <- <-.
    split; [exact I1|split; auto].
Qed.





(** ** Further properties: requests and submissions *)

Lemma probed_snoc tr e : probed (tr ++ [e]) = probed tr ++ probe_of e.
Proof. unfold probed. rewrite flat_map_app. cbn. now rewrite app_nil_r. Qed.

Lemma answered_snoc tr e : answered (tr ++ [e]) = answered tr ++ answer_of e.
Proof. unfold answered. rewrite flat_map_app. cbn. now rewrite app_nil_r. Qed.

Lemma take_out_perm k : forall l x others,
  take_out k l = Some (x, others) -> Permutation l (x :: others).
Proof.
  induction l as [|z l IH]; intros x others; cbn [take_out]; [discriminate|].
  destruct (Nat.eqb (fid (fst z)) k).
  - intros [= <- <-]. apply Permutation_refl.
  - destruct (take_out k l) as [[y o]|] eqn:E; [|discriminate].
    intros [= <- <-]. specialize (IH _ _ eq_refl).
    eapply perm_trans; [apply perm_skip; exact IH|apply perm_swap].
Qed.

Lemma check_link_punctual env : punctual env (ModifiedScript.check_link env).
Proof. intros f w. reflexivity. Qed.

Lemma check_wm_link_punctual env s : punctual env (WmScript.check_wm_link env s).
Proof. intros f w. reflexivity. Qed.

Section Orderly.
Variable env : environ.
Variable C : world -> Prop.
Hypothesis HC : forall w w', now w <= now w' -> C w -> C w'.
Variable iw : bool.
Variable wk : worker.
Hypothesis Hciv : civil iw wk.
Hypothesis Hpun : punctual env wk.
Variable mw : Z.

Lemma start_next_neat w p w' p' :
  start_next wk mw w p = (w', p') -> neat env C w p -> neat env C w' p'.
Proof.
  unfold start_next. intros H (sk & H1 & H2 & H3).
  destruct (queued p) as [|f q] eqn:Eq.
  { injection H as <- <-. exists sk. unfold orderly. rewrite Eq. auto. }
  destruct (_ <? mw).
  2: { injection H as <- <-. exists sk. unfold orderly. rewrite Eq. auto. }
  rewrite Hpun in H. destruct (should_stop w) eqn:Es; injection H as <- <-.
  - exists (sk ++ [future_url env f]). split; [|split; auto].
    cbn [queued]. rewrite H1. cbn [map]. rewrite <- !app_assoc. reflexivity.
  - assert (sk = []) as ->.
    { destruct H2 as [?|[?|[_ ?]]]; [assumption|discriminate|discriminate]. }
    exists []. split; [|split; [now left|]].
    + cbn [trace log queued]. rewrite submitted_snoc, probed_snoc. cbn [submission probe_of].
      rewrite app_nil_r, H1. cbn [map app]. now rewrite <- app_assoc.
    + cbn [trace log running]. rewrite probed_snoc, answered_snoc. cbn [probe_of answer_of].
      rewrite app_nil_r, map_app. cbn [map snd]. rewrite app_assoc.
      now apply Permutation_app_tail.
Qed.

Lemma finish_neat k net w p w' p' :
  finish wk k net w p = (w', p') -> neat env C w p -> neat env C w' p'.
Proof.
  unfold finish. intros H (sk & H1 & H2 & H3).
  destruct (take_out k (running p)) as [[[f url] others]|] eqn:Et.
  2: { injection H as <- <-. exists sk. repeat split; auto. }
  destruct (after_request wk url _ _) as [v w1] eqn:E. injection H as <- <-.
  rewrite (civil_after _ _ Hciv _ _ _ _ _ E).
  exists sk. unfold orderly.
  rewrite trace_on_done, should_stop_on_done, trace_log, submitted_snoc, probed_snoc,
    answered_snoc. cbn [submission probe_of answer_of queued running].
  rewrite !app_nil_r. split; [exact H1|]. split.
  - destruct H2 as [?|[?|[Hc ?]]]; auto. right. right. split; [|assumption].
    eapply HC; [|exact Hc]. rewrite now_on_done. cbn. lia.
  - apply take_out_perm in Et. eapply perm_trans; [exact H3|].
    rewrite <- app_assoc. apply Permutation_app_head.
    apply (Permutation_map snd) in Et. exact Et.
Qed.

Lemma signal_neat w p : neat env C w p -> neat env C (signal_handler w) p.
Proof.
  intros (sk & H1 & H2 & H3). exists sk. unfold orderly. cbn [signal_handler log trace should_stop].
  rewrite submitted_snoc, probed_snoc, answered_snoc. cbn. rewrite !app_nil_r. auto.
Qed.

Lemma tick_neat dt w p : neat env C w p -> neat env C (tick dt w) p.
Proof.
  intros (sk & H1 & H2 & H3). exists sk. unfold orderly. cbn [tick trace should_stop].
  split; [exact H1|]. split; [|exact H3].
  destruct H2 as [?|[?|[Hc ?]]]; auto. right. right. split; [|assumption].
  eapply HC; [|exact Hc]. cbn. lia.
Qed.

Lemma act_neat a w p w' p' :
  act wk mw a w p = (w', p') -> neat env C w p -> neat env C w' p'.
Proof.
  destruct a; cbn [act].
  - intros [= <- <-]. apply signal_neat.
  - intros [= <- <-]. apply tick_neat.
  - apply start_next_neat.
  - apply finish_neat.
  - now intros [= <- <-].
Qed.

Lemma absorb_neat sched : forall w p w' p' rest,
  absorb wk mw sched w p = (w', p', rest) -> neat env C w p -> neat env C w' p'.
Proof.
  induction sched as [|a sched IH]; intros w p w' p' rest; cbn [absorb].
  - now intros [= <- <- <-].
  - destruct a; try (now intros [= <- <- <-]).
    all: match goal with |- context [act wk mw ?a ?w0 ?p0] =>
           destruct (act wk mw a w0 p0) as [w1 p1] eqn:E end;
         intros H N; eapply IH; [exact H|]; eapply act_neat; eauto.
Qed.

Lemma settle_neat w p w' p' :
  settle wk mw w p = (w', p') -> neat env C w p -> neat env C w' p'.
Proof.
  unfold settle. destruct (finished p); [|now intros [= <- <-]].
  destruct (running p) as [|[f url] r].
  - destruct (start_next wk mw w p) as [w1 p1] eqn:E. intros H N.
    pose proof (start_next_neat _ _ _ _ E N) as N1.
    destruct (finished p1); [destruct (running p1) as [|[g ?] ?]|].
    + now injection H as <- <-.
    + eapply finish_neat; eauto.
    + now injection H as <- <-.
  - apply finish_neat.
Qed.

Lemma drain_neat n : forall w p w' p',
  drain wk mw n w p = (w', p') -> neat env C w p -> neat env C w' p'.
Proof.
  induction n as [|n IH]; intros w p w' p'; cbn [drain].
  - now intros [= <- <-].
  - destruct (running p) as [|[f url] r].
    + destruct (queued p); [now intros [= <- <-]|].
      destruct (start_next wk mw w p) as [w1 p1] eqn:E. intros H N.
      eapply IH; [exact H|]. eapply start_next_neat; eauto.
    + destruct (finish wk (fid f) [] w p) as [w1 p1] eqn:E. intros H N.
      eapply IH; [exact H|]. eapply finish_neat; eauto.
Qed.

(** With a worker in the pool, [drain] leaves no future behind. *)
Lemma drain_empties n : forall w p w' p',
  0 < mw ->
  (2 * List.length (queued p) + List.length (running p) <= n)%nat ->
  drain wk mw n w p = (w', p') -> queued p' = [] /\ running p' = [].
Proof.
  induction n as [|n IH]; intros w p w' p' Hmw Hn; cbn [drain].
  - intros [= _ <-]. destruct (queued p), (running p); cbn in Hn; try lia. auto.
  - destruct (running p) as [|[f url] r] eqn:Er.
    + destruct (queued p) as [|g q] eqn:Eq; [intros [= _ <-]; auto|].
      destruct (start_next wk mw w p) as [w1 p1] eqn:E. intros H.
      eapply IH; [exact Hmw| |exact H].
      revert E. unfold start_next. rewrite Eq, Er. cbn [List.length].
      destruct (Z.ltb_spec (Z.of_nat 0) mw); [|lia].
      destruct (before_request wk g w); intros [= _ <-]; cbn [queued running List.length] in *;
        rewrite ?length_app; cbn [List.length]; lia.
    + destruct (finish wk (fid f) [] w p) as [w1 p1] eqn:E. intros H.
      eapply IH; [exact Hmw| |exact H].
      revert E. unfold finish. rewrite Er, take_out_head.
      destruct (after_request wk url _ _). intros [= _ <-].
      cbn [queued running List.length] in *. lia.
Qed.

Lemma join_workers_neat sched w p w' rest :
  0 < mw ->
  join_workers wk mw sched w p = (w', rest) -> neat env C w p -> neat env C w' no_pool.
Proof.
  intros Hmw. unfold join_workers.
  destruct (absorb wk mw sched w p) as [[w1 p1] sched1] eqn:E1.
  destruct (drain wk mw _ w1 p1) as [w2 p2] eqn:E2. intros [= <- <-] N.
  pose proof (absorb_neat _ _ _ _ _ _ E1 N) as N1.
  destruct (drain_neat _ _ _ _ _ E2 N1) as (sk & H1 & H2 & H3).
  destruct (drain_empties _ _ _ _ _ Hmw (Nat.le_refl _) E2) as [Eq Er].
  exists sk. unfold orderly in *. rewrite Eq, Er in *. cbn [no_pool queued running]. auto.
Qed.

Lemma cancel_neat w p :
  should_stop w = true \/ C w -> neat env C w p -> neat env C w (cancel_pending p).
Proof.
  intros Hc (sk & H1 & H2 & H3). exists (sk ++ map (future_url env) (queued p)).
  unfold orderly. cbn [cancel_pending queued running map]. rewrite app_nil_r.
  split; [now rewrite H1|]. split; [|exact H3].
  destruct Hc; auto.
Qed.
End Orderly.

Lemma submit_all_queue tasks : forall k w p w' p',
  submit_all k tasks w p = (w', p') ->
  queued p' = queued p ++ futures_of k tasks /\ running p' = running p.
Proof.
  induction tasks as [|[fh tn] tasks IH]; intros k w p w' p'; cbn [submit_all futures_of].
  - intros [= _ <-]. now rewrite app_nil_r.
  - intros H. apply IH in H as [-> ->]. cbn [queued running]. now rewrite <- app_assoc.
Qed.

Lemma futures_of_urls env tasks : forall k,
  map (future_url env) (futures_of k tasks) = map (target_url env) tasks.
Proof.
  induction tasks as [|[fh tn] tasks IH]; intros k; cbn [futures_of map]; [reflexivity|].
  now rewrite IH.
Qed.

Lemma probed_submissions tasks :
  probed (map (fun t : string * string => EvSubmit (fst t) (snd t)) tasks) = [].
Proof. induction tasks; cbn; auto. Qed.

Lemma answered_submissions tasks :
  answered (map (fun t : string * string => EvSubmit (fst t) (snd t)) tasks) = [].
Proof. induction tasks; cbn; auto. Qed.

Lemma submit_all_neat env C k tasks w p w' p' :
  ~ C w ->
  submit_all k tasks w p = (w', p') -> neat env C w p -> neat env C w' p'.
Proof.
  intros Hc H (sk & H1 & H2 & H3).
  destruct (submit_all_queue _ _ _ _ _ _ H) as [Eq Er].
  apply submit_all_trace in H as (Et & Es & _).
  exists sk. unfold orderly. rewrite Et, Es, Eq, Er.
  unfold probed, answered. rewrite submitted_app, !flat_map_app.
  fold (probed (trace w)) (answered (trace w)).
  fold (probed (map (fun t : string * string => EvSubmit (fst t) (snd t)) tasks)).
  fold (answered (map (fun t : string * string => EvSubmit (fst t) (snd t)) tasks)).
  rewrite probed_submissions, answered_submissions, submitted_submissions, !app_nil_r.
  split; [|split; [|exact H3]].
  - rewrite !map_app, H1, futures_of_urls, <- !app_assoc. reflexivity.
  - destruct H2 as [?|[?|[? _]]]; auto; contradiction.
Qed.

Lemma neat_boot env C clock disk : neat env C (boot clock disk) no_pool.
Proof. exists []. repeat split; auto. Qed.

(** A step of the main thread that requests and submits nothing. *)
Lemma neat_step env C w w' p ext :
  (forall w w', now w <= now w' -> C w -> C w') ->
  trace w' = trace w ++ ext -> submitted ext = [] -> probed ext = [] -> answered ext = [] ->
  should_stop w' = should_stop w -> now w <= now w' ->
  neat env C w p -> neat env C w' p.
Proof.
  intros HC Et E1 E2 E3 Es Hn (sk & H1 & H2 & H3). exists sk. unfold orderly.
  rewrite Et, Es, submitted_app. unfold probed, answered. rewrite !flat_map_app.
  fold (probed (trace w)) (answered (trace w)) (probed ext) (answered ext).
  rewrite E1, E2, E3, !app_nil_r. split; [exact H1|]. split; [|exact H3].
  destruct H2 as [?|[?|[Hc ?]]]; auto. right. right. split; [|assumption].
  eapply HC; eauto.
Qed.

Lemma neat_write_output env C w p :
  (forall w w', now w <= now w' -> C w -> C w') ->
  neat env C w p -> neat env C (write_output w) p.
Proof.
  intros HC. apply (neat_step env C w (write_output w) p
                      [EvWrite (join newline (VALID_LINKS w))]); auto.
  cbn. lia.
Qed.

Lemma neat_save env C guard d w p :
  (forall w w', now w <= now w' -> C w -> C w') ->
  neat env C w p -> neat env C (WmScript.TimeoutGuard.save_progress guard d w) p.
Proof.
  intros HC. apply (neat_step env C w _ p [EvSave (strftime d)]); auto.
  cbn. lia.
Qed.

Lemma neat_pool env C w p p' :
  queued p' = queued p -> running p' = running p -> neat env C w p -> neat env C w p'.
Proof. intros Eq Er (sk & H). exists sk. unfold orderly in *. now rewrite Eq, Er. Qed.

Lemma modified_collect_neat env mw n : forall sched w p w' p' rest,
  ModifiedScript.collect (ModifiedScript.check_link env) mw n sched w p = (w', p', rest) ->
  neat env (fun _ => False) w p -> neat env (fun _ => False) w' p'.
Proof.
  induction n as [|n IH]; intros sched w p w' p' rest; cbn [ModifiedScript.collect].
  - now intros [= <- <- <-].
  - destruct (absorb _ mw sched w p) as [[w1 p1] sched1] eqn:E1.
    destruct (settle _ mw w1 p1) as [w2 p2] eqn:E2. intros H N.
    assert (N2 : neat env (fun _ => False) w2 p2).
    { eapply settle_neat; [auto|apply check_link_civil|apply check_link_punctual|exact E2|].
      eapply absorb_neat; [auto|apply check_link_civil|apply check_link_punctual|exact E1|].
      exact N. }
    destruct (finished p2); [now injection H as <- <- <-|].
    destruct (should_stop w2); [now injection H as <- <- <-|].
    eapply IH; [exact H|]. eapply neat_pool; [| |exact N2]; reflexivity.
Qed.

(** The requests of a run of the simple script. *)
Lemma modified_main_neat env a sched clock disk :
  neat env (fun _ => False) (snd (ModifiedScript.main env a sched (boot clock disk))) no_pool.
Proof.
  unfold ModifiedScript.main.
  destruct (ModifiedScript.validate a) as [[[start stop] tns]|e].
  2: { destruct e; apply neat_boot. }
  destruct (ModifiedScript.generate_tasks _ _ _ _ _) as [tasks|e]; [|apply neat_boot].
  unfold ModifiedScript.run_tasks.
  destruct (Z.leb_spec (ModifiedScript.workers a) 0) as [|Hw]; [apply neat_boot|].
  destruct (submit_all 0 tasks (boot clock disk) no_pool) as [w1 p1] eqn:E1.
  destruct (ModifiedScript.collect _ _ _ sched w1 p1) as [[w2 p2] sched2] eqn:E2.
  destruct (join_workers _ _ sched2 w2 _) as [w3 rest] eqn:E3. cbn [snd].
  apply neat_write_output; [auto|].
  eapply (join_workers_neat env (fun _ => False) (fun _ _ _ H => H) true _
            (check_link_civil env) (check_link_punctual env) _ _ _ _ _ _ Hw E3).
  assert (N2 : neat env (fun _ => False) w2 p2).
  { eapply modified_collect_neat; [exact E2|].
    eapply submit_all_neat; [|exact E1|apply neat_boot]. auto. }
  destruct (should_stop w2) eqn:Es; [|exact N2].
  apply cancel_neat; auto.
Qed.

Lemma wm_collect_neat env s guard mw n : forall sched w p w' p' rest,
  WmScript.collect (WmScript.check_wm_link env s) guard mw n sched w p = (w', p', rest) ->
  neat env (fun w => WmScript.TimeoutGuard.check_timeout guard w = true) w p ->
  neat env (fun w => WmScript.TimeoutGuard.check_timeout guard w = true) w' p'.
Proof.
  assert (HC : forall w w', now w <= now w' ->
            WmScript.TimeoutGuard.check_timeout guard w = true ->
            WmScript.TimeoutGuard.check_timeout guard w' = true).
  { unfold WmScript.TimeoutGuard.check_timeout, WmScript.TimeoutGuard.remaining_time.
    intros w w' Hn H. apply Z.ltb_lt in H. apply Z.ltb_lt. lia. }
  induction n as [|n IH]; intros sched w p w' p' rest; cbn [WmScript.collect].
  - now intros [= <- <- <-].
  - destruct (absorb _ mw sched w p) as [[w1 p1] sched1] eqn:E1.
    destruct (settle _ mw w1 p1) as [w2 p2] eqn:E2. intros H N.
    assert (N2 : neat env (fun w => WmScript.TimeoutGuard.check_timeout guard w = true) w2 p2).
    { eapply settle_neat; [exact HC|apply check_wm_link_civil|apply check_wm_link_punctual
                          |exact E2|].
      eapply absorb_neat; [exact HC|apply check_wm_link_civil|apply check_wm_link_punctual
                          |exact E1|].
      exact N. }
    destruct (finished p2) as [|[f res] later]; [now injection H as <- <- <-|].
    destruct (should_stop w2 || WmScript.TimeoutGuard.check_timeout guard w2) eqn:Eb.
    + injection H as <- <- <-. apply cancel_neat; [|exact N2].
      apply orb_true_iff in Eb. exact Eb.
    + eapply IH; [exact H|].
      destruct (keep_result_spec res w2) as (_ & Kt & Ks & Kn).
      apply (neat_step env _ w2 (WmScript.keep_result res w2) _ [] HC);
        [now rewrite app_nil_r|reflexivity|reflexivity|reflexivity|exact Ks|lia|].
      eapply neat_pool; [| |exact N2]; reflexivity.
Qed.

Lemma batches_neat env a guard s : forall fuel cur stop sched w r w' rest,
  WmScript.batches fuel env a guard s cur stop sched w = (r, w', rest) ->
  neat env (fun w => WmScript.TimeoutGuard.check_timeout guard w = true) w no_pool ->
  neat env (fun w => WmScript.TimeoutGuard.check_timeout guard w = true) w' no_pool.
Proof.
  assert (HC : forall w w', now w <= now w' ->
            WmScript.TimeoutGuard.check_timeout guard w = true ->
            WmScript.TimeoutGuard.check_timeout guard w' = true).
  { unfold WmScript.TimeoutGuard.check_timeout, WmScript.TimeoutGuard.remaining_time.
    intros w w' Hn H. apply Z.ltb_lt in H. apply Z.ltb_lt. lia. }
  induction fuel as [|fuel IH]; intros cur stop sched w r w' rest; cbn [WmScript.batches].
  - now intros [= _ <- _].
  - destruct (date_le cur stop && negb (should_stop w)); [|now intros [= _ <- _]].
    destruct (WmScript.TimeoutGuard.check_timeout guard w) eqn:Ec.
    { intros [= _ <- _] N. now apply neat_save. }
    destruct (generate_time_numbers _ _) as [tns|e]; [|now intros [= _ <- _]].
    destruct (Z.leb_spec (WmScript.workers a) 0) as [|Hw]; [now intros [= _ <- _]|].
    destruct (submit_all 0 _ w no_pool) as [w1 p1] eqn:E1.
    destruct (WmScript.collect _ guard _ _ sched w1 p1) as [[w2 p2] sched2] eqn:E2.
    destruct (join_workers _ _ sched2 w2 p2) as [w3 sched3] eqn:E3.
    intros H N.
    assert (N3 : neat env (fun w => WmScript.TimeoutGuard.check_timeout guard w = true)
                   w3 no_pool).
    { eapply (join_workers_neat env _ HC false _ (check_wm_link_civil env s)
                (check_wm_link_punctual env s) _ _ _ _ _ _ Hw E3).
      eapply wm_collect_neat; [exact E2|].
      eapply submit_all_neat; [|exact E1|exact N]. cbn beta. congruence. }
    destruct (add_one_day cur) as [next|e]; [|now injection H as _ <- _].
    eapply IH; eauto.
Qed.

Lemma wm_main_neat env a sched clock disk :
  exists C, neat env C (snd (WmScript.main env a sched (boot clock disk))) no_pool.
Proof.
  unfold WmScript.main. set (guard := WmScript.TimeoutGuard.init _ _ _).
  exists (fun w => WmScript.TimeoutGuard.check_timeout guard w = true).
  assert (HC : forall w w', now w <= now w' ->
            WmScript.TimeoutGuard.check_timeout guard w = true ->
            WmScript.TimeoutGuard.check_timeout guard w' = true).
  { unfold WmScript.TimeoutGuard.check_timeout, WmScript.TimeoutGuard.remaining_time.
    intros w w' Hn H. apply Z.ltb_lt in H. apply Z.ltb_lt. lia. }
  destruct (WmScript.process_date_range env a guard sched (boot clock disk))
    as [[r w1] rest] eqn:E.
  assert (N : neat env (fun w => WmScript.TimeoutGuard.check_timeout guard w = true)
                w1 no_pool).
  { revert E. unfold WmScript.process_date_range.
    destruct (strptime (WmScript.start_date a)); [|intros [= _ <- _]; apply neat_boot].
    destruct (strptime (WmScript.end_date a)); [|intros [= _ <- _]; apply neat_boot].
    destruct (WmScript.resume_point guard _); [|intros [= _ <- _]; apply neat_boot].
    destruct (absorb _ _ sched (boot clock disk) no_pool) as [[w0 p0] sched0] eqn:Ea.
    intros Eb. eapply batches_neat; [exact Eb|].
    pose proof (absorb_neat env _ HC false _
                  (check_wm_link_civil env WmScript.create_retry_session)
                  (check_wm_link_punctual env WmScript.create_retry_session)
                  _ _ _ _ _ _ _ Ea (neat_boot env _ clock disk)) as N0.
    apply absorb_idle in Ea as [-> _]. exact N0. }
  destruct (WmScript.verdict a r); cbn [snd]; now apply neat_write_output.
Qed.

(** What [neat] says of a world with no pool. *)
Lemma neat_no_pool env C w :
  neat env C w no_pool ->
  (exists skipped,
     map (target_url env) (submitted (trace w)) = probed (trace w) ++ skipped) /\
  Permutation (probed (trace w)) (answered (trace w)).
Proof.
  intros (sk & H1 & _ & H3). cbn [no_pool queued running map] in H1, H3.
  rewrite !app_nil_r in *. split; [exists sk; exact H1|exact H3].
Qed.

(** X21.  Requests and submissions.  In every run of either script, the
    URLs requested are URLs of submitted targets, each submitted target
    accounting for at most one request (the submitted targets are, up to
    order, the requested ones and the ones given up), and every request
    sent has come to exactly one end, an answer or an exception, by the
    time [main] writes the result file. *)
Theorem requests_match_submissions env clock disk sched :
  (forall a,
     let tr := trace (snd (ModifiedScript.main env a sched (boot clock disk))) in
     (exists skipped,
        Permutation (map (target_url env) (submitted tr)) (probed tr ++ skipped)) /\
     Permutation (probed tr) (answered tr)) /\
  (forall a,
     let tr := trace (snd (WmScript.main env a sched (boot clock disk))) in
     (exists skipped,
        Permutation (map (target_url env) (submitted tr)) (probed tr ++ skipped)) /\
     Permutation (probed tr) (answered tr)).
Proof.
  split; intros a; cbn zeta.
  - destruct (neat_no_pool _ _ _ (modified_main_neat env a sched clock disk))
      as [(sk & E) H].
    split; [exists sk; rewrite E; apply Permutation_refl|exact H].
  - destruct (wm_main_neat env a sched clock disk) as [C N].
    destruct (neat_no_pool _ _ _ N) as [(sk & E) H].
    split; [exists sk; rewrite E; apply Permutation_refl|exact H].
Qed.

Lemma targets_of_In base tns days fh tn :
  In (fh, tn) (targets_of base tns days) <->
  exists d, In d days /\ fh = (base ++ "_" ++ strftime d)%string /\ In tn tns.
Proof.
  unfold targets_of. rewrite in_flat_map. split.
  - intros (d & Hd & Hin). apply in_map_iff in Hin as (t & [= <- <-] & Ht). eauto.
  - intros (d & Hd & -> & Ht). exists d. split; [exact Hd|].
    apply in_map_iff. eauto.
Qed.

Lemma targets_urls_NoDup env base s1 s2 days :
  0 <= s1 -> s2 < 86400 ->
  NoDup days -> Forall (fun d => valid_date d = true) days ->
  NoDup (map (target_url env) (targets_of base (map time_number (range s1 (s2 + 1))) days)).
Proof.
  intros H1 H2 Hnd Hv. apply NoDup_map_in; [|now apply targets_of_NoDup].
  rewrite Forall_forall in Hv.
  intros [fh1 tn1] [fh2 tn2] Hx Hy E.
  apply targets_of_In in Hx as (d1 & Hd1 & -> & Ht1).
  apply targets_of_In in Hy as (d2 & Hd2 & -> & Ht2).
  apply in_map_iff in Ht1 as (t1 & <- & Hr1). apply in_map_iff in Ht2 as (t2 & <- & Hr2).
  apply range_In in Hr1, Hr2.
  destruct (strftime_ok d1 (Hv _ Hd1)) as (L1 & _).
  destruct (strftime_ok d2 (Hv _ Hd2)) as (L2 & _).
  destruct (time_number_ok t1) as (T1 & _); [lia|].
  destruct (time_number_ok t2) as (T2 & _); [lia|].
  unfold target_url in E. cbn [fst snd] in E.
  apply generate_url_inj_len in E as [-> ->]; [reflexivity| |congruence].
  rewrite !append_length, L1, L2. reflexivity.
Qed.

Lemma successes_answered tr u : In u (successes tr) -> In u (answered tr).
Proof.
  unfold successes, answered. rewrite !in_flat_map. intros (e & He & Hu).
  exists e. split; [exact He|]. destruct e as [| | |url [code|]| |]; try destruct Hu.
  cbn in *. destruct (code =? 200); [exact Hu|destruct Hu].
Qed.

Lemma NoDup_successes tr : NoDup (answered tr) -> NoDup (successes tr).
Proof.
  induction tr as [|e tr IH]; cbn; [constructor|].
  intros H. fold (answered tr) in H. fold (successes tr).
  destruct e as [| | |url [code|]| |]; cbn in *; auto.
  - inversion H as [|? ? Hn Hd]; subst. destruct (code =? 200); cbn; auto.
    constructor; auto. intros Hin. apply Hn. now apply successes_answered.
  - inversion H; auto.
Qed.

Lemma prefix_NoDup {A} (l sk all : list A) : all = l ++ sk -> NoDup all -> NoDup l.
Proof. intros -> H. eapply NoDup_app_remove_r. exact H. Qed.

(** X22.  No URL twice, simple script.  In a run whose arguments pass
    validation no URL is requested twice and no URL is recorded twice in
    [VALID_LINKS], and every URL requested or recorded is the URL of one of
    the generated tasks. *)
Theorem simple_script_requests_each_target_once env a sched clock disk start stop tns :
  ModifiedScript.validate a = Ok (start, stop, tns) ->
  exists tasks,
    ModifiedScript.generate_tasks (span start stop) (ModifiedScript.base a) tns start stop
    = Ok tasks /\
    let w := snd (ModifiedScript.main env a sched (boot clock disk)) in
    NoDup (probed (trace w)) /\
    NoDup (VALID_LINKS w) /\
    (forall u, In u (probed (trace w)) \/ In u (VALID_LINKS w) ->
               exists t, In t tasks /\ u = target_url env t).
Proof.
  intros Hv. pose proof Hv as Hv'.
  apply validate_inv in Hv' as (E1 & E2 & E3 & st & et & E4 & E5 & E6).
  pose proof (strptime_valid _ _ E1) as V1. pose proof (strptime_valid _ _ E2) as V2.
  apply validate_time_ok in E4 as (s1 & B1 & S1 & ->).
  apply validate_time_ok in E5 as (s2 & B2 & S2 & ->).
  apply generate_time_numbers_inv in E6 as (s1' & s2' & T1 & T2 & Hle & Etns).
  rewrite (proj2 (proj2 (time_number_ok s1 B1))) in T1.
  rewrite (proj2 (proj2 (time_number_ok s2 B2))) in T2.
  injection T1 as <-. injection T2 as <-.
  unfold ModifiedScript.validate_date_range in E3.
  destruct (date_gt start stop); [discriminate|].
  destruct (generate_tasks_spec (ModifiedScript.base a) tns _ _ _ V1 V2 E3)
    as (days & G & Hd & Hval).
  exists (targets_of (ModifiedScript.base a) tns days). split; [exact G|]. cbn zeta.
  assert (Hnd : NoDup (map (target_url env) (targets_of (ModifiedScript.base a) tns days))).
  { rewrite Etns. apply targets_urls_NoDup; auto; try lia.
    apply (NoDup_map_inv toordinal). rewrite Hd. apply range_NoDup. }
  destruct (neat_no_pool _ _ _ (modified_main_neat env a sched clock disk))
    as [(sk & Hpre) Hperm].
  assert (Hsub : submitted (trace (snd (ModifiedScript.main env a sched (boot clock disk))))
                 = targets_of (ModifiedScript.base a) tns days \/
                 trace (snd (ModifiedScript.main env a sched (boot clock disk))) = []).
  { unfold ModifiedScript.main. rewrite Hv, G.
    destruct (Z.leb_spec (ModifiedScript.workers a) 0) as [Hw|Hw].
    - right. unfold ModifiedScript.run_tasks.
      destruct (Z.leb_spec (ModifiedScript.workers a) 0); [reflexivity|lia].
    - left. destruct (run_tasks_submitted env a (targets_of (ModifiedScript.base a) tns days)
                        sched (boot clock disk) Hw) as (ext & -> & Hext & _).
      cbn [boot trace app]. now rewrite submitted_app, submitted_submissions, Hext, app_nil_r. }
  assert (Hlinks : VALID_LINKS (snd (ModifiedScript.main env a sched (boot clock disk)))
                   = successes (trace (snd (ModifiedScript.main env a sched (boot clock disk))))).
  { destruct (modified_main_shape env a sched (boot clock disk) eq_refl)
      as [[_ ->]|[_ (w3 & R & ->)]]; [reflexivity|].
    destruct (write_output_spec w3) as (-> & -> & _).
    rewrite successes_snoc. cbn [success_of]. rewrite app_nil_r.
    eapply runs_exact; eauto. }
  set (w := snd (ModifiedScript.main env a sched (boot clock disk))) in *.
  destruct Hsub as [Hsub|Hnil].
  - rewrite Hsub in Hpre.
    assert (Np : NoDup (probed (trace w))) by (eapply prefix_NoDup; eauto).
    assert (Na : NoDup (answered (trace w))) by (eapply Permutation_NoDup; eauto).
    split; [exact Np|]. split; [rewrite Hlinks; now apply NoDup_successes|].
    intros u Hu.
    assert (Hin : In u (probed (trace w))).
    { destruct Hu as [Hu|Hu]; [exact Hu|].
      rewrite Hlinks in Hu. apply successes_answered in Hu.
      eapply Permutation_in; [apply Permutation_sym; exact Hperm|exact Hu]. }
    assert (Hin' : In u (map (target_url env)
                           (targets_of (ModifiedScript.base a) tns days))).
    { rewrite Hpre. apply in_or_app. now left. }
    apply in_map_iff in Hin' as (t & <- & Ht). eauto.
  - rewrite Hlinks, Hnil. cbn. repeat split; try constructor. intros u [[]|[]].
Qed.

Lemma simple_script_requests_each_target_once_witness :
  NoDup (probed (trace (snd (ModifiedScript.main sample_env sample_simple_args
                               [Start; Start; Finish 1 [Reply 200]] (boot 0 []))))).
Proof.
  destruct (simple_script_requests_each_target_once sample_env sample_simple_args
              [Start; Start; Finish 1 [Reply 200]] 0 []
              (mkdate 2024 2 28) (mkdate 2024 3 1) ["000000"; "000001"])
    as (tasks & _ & H & _); [reflexivity|exact H].
Defined.

Lemma answered_done u r tr : In (EvDone u r) tr -> In u (answered tr).
Proof.
  intros H. unfold answered. apply in_flat_map. exists (EvDone u r). split; [exact H|now left].
Qed.

(** The targets a run of the resumable script submits. *)
Lemma wm_main_submitted env a sched clock disk start stop cur tns :
  strptime (WmScript.start_date a) = Ok start ->
  strptime (WmScript.end_date a) = Ok stop ->
  WmScript.resume_point
    (WmScript.TimeoutGuard.init (WmScript.timeout a) (WmScript.resume_file a) (boot clock disk))
    start = Ok cur ->
  generate_time_numbers (WmScript.start_time a) (WmScript.end_time a) = Ok tns ->
  exists days,
    submitted (trace (snd (WmScript.main env a sched (boot clock disk))))
    = targets_of (WmScript.base a) tns days /\
    NoDup days /\
    Forall (fun d => valid_date d = true /\ date_le cur d = true /\ date_le d stop = true) days.
Proof.
  intros E1 E2 E3 Hg. unfold WmScript.main, WmScript.process_date_range.
  rewrite E1, E2, E3.
  destruct (absorb _ _ sched (boot clock disk) no_pool) as [[w0 p0] sched0] eqn:Ea.
  apply absorb_idle in Ea as [_ I]. apply submitted_idle in I. cbn in I.
  destruct (WmScript.batches _ env a _ _ cur stop sched0 w0) as [[r w1] rest] eqn:Eb.
  assert (Vc : valid_date cur = true).
  { eapply resume_point_valid; [|exact E3]. eapply strptime_valid; eauto. }
  destruct (batches_days env a _ _ tns stop Hg (strptime_valid _ _ E2) _ _ _ _ _ _ _ Vc Eb)
    as (days & Hd & Ho & Hf).
  rewrite I in Hd. cbn [app] in Hd. exists days. split; [|split].
  - destruct (WmScript.verdict a r); cbn [snd]; now rewrite submitted_write_output.
  - apply (NoDup_map_inv toordinal). rewrite Ho. apply range_NoDup.
  - rewrite Forall_forall in *. intros d Hin. destruct (Hf d Hin) as [Vd Hle].
    repeat split; auto. rewrite (date_le_ordinal _ _ Vc Vd). apply Z.leb_le.
    assert (Hr : In (toordinal d) (map toordinal days)) by now apply in_map.
    rewrite Ho in Hr. apply range_In in Hr. lia.
Qed.

(** X23.  No URL twice, resumable script.  With dates that parse, a
    checkpoint that is missing or parses, and time arguments that are times
    of the day (they pass [validate_time]), no URL is requested twice, and
    every URL requested or recorded in [VALID_LINKS] is the URL of a target
    of the grid: a day from the resume day to the end date and one of the
    time codes. *)
Theorem resumable_script_requests_each_target_once
  env a sched clock disk start stop cur st et tns :
  strptime (WmScript.start_date a) = Ok start ->
  strptime (WmScript.end_date a) = Ok stop ->
  WmScript.resume_point
    (WmScript.TimeoutGuard.init (WmScript.timeout a) (WmScript.resume_file a) (boot clock disk))
    start = Ok cur ->
  ModifiedScript.validate_time (WmScript.start_time a) = Ok st ->
  ModifiedScript.validate_time (WmScript.end_time a) = Ok et ->
  generate_time_numbers (WmScript.start_time a) (WmScript.end_time a) = Ok tns ->
  let w := snd (WmScript.main env a sched (boot clock disk)) in
  NoDup (probed (trace w)) /\
  (forall u, In u (probed (trace w)) \/ In u (VALID_LINKS w) ->
     exists d tn,
       valid_date d = true /\ date_le cur d = true /\ date_le d stop = true /\ In tn tns /\
       u = generate_url env (WmScript.base a ++ "_" ++ strftime d) tn).
Proof.
  intros E1 E2 E3 E4 E5 Hg. cbn zeta.
  destruct (wm_main_submitted env a sched clock disk _ _ _ _ E1 E2 E3 Hg)
    as (days & Hsub & Nd & Hf).
  apply validate_time_ok in E4 as (s1 & B1 & S1 & _).
  apply validate_time_ok in E5 as (s2 & B2 & S2 & _).
  pose proof Hg as Hg'.
  apply generate_time_numbers_inv in Hg' as (s1' & s2' & T1 & T2 & Hle & Etns).
  rewrite S1 in T1. rewrite S2 in T2. injection T1 as <-. injection T2 as <-.
  assert (Hnd : NoDup (map (target_url env) (targets_of (WmScript.base a) tns days))).
  { rewrite Etns. apply targets_urls_NoDup; auto; try lia.
    rewrite Forall_forall in *. intros d Hd. now apply Hf. }
  destruct (wm_main_neat env a sched clock disk) as [C N].
  destruct (neat_no_pool _ _ _ N) as [(sk & Hpre) Hperm].
  set (w := snd (WmScript.main env a sched (boot clock disk))) in *.
  rewrite Hsub in Hpre.
  split; [eapply prefix_NoDup; eauto|].
  intros u Hu.
  assert (Hin : In u (probed (trace w))).
  { destruct Hu as [Hu|Hu]; [exact Hu|].
    eapply Permutation_in; [apply Permutation_sym; exact Hperm|].
    apply (answered_done u (Response 200)).
    destruct (wm_main_shape env a sched (boot clock disk)) as (w1 & R & Ew).
    fold w in Ew. rewrite Ew in Hu |- *.
    destruct (write_output_spec w1) as (-> & El & _). rewrite El in Hu.
    apply in_or_app. left. eapply (runs_vouched false); eauto. intros ? []. }
  assert (Hin' : In u (map (target_url env) (targets_of (WmScript.base a) tns days))).
  { rewrite Hpre. apply in_or_app. now left. }
  apply in_map_iff in Hin' as ([fh tn] & <- & Ht).
  apply targets_of_In in Ht as (d & Hd & -> & Htn).
  rewrite Forall_forall in Hf. destruct (Hf d Hd) as (Vd & Hc & Hs).
  exists d, tn. repeat split; auto.
Qed.

Lemma resumable_script_requests_each_target_once_witness :
  NoDup (probed (trace (snd (WmScript.main sample_env sample_wm_args
                               [Start; Start; Finish 1 [Reply 200]] (boot 0 []))))).
Proof.
  refine (proj1 (resumable_script_requests_each_target_once sample_env sample_wm_args
                   [Start; Start; Finish 1 [Reply 200]] 0 []
                   (mkdate 2024 2 28) (mkdate 2024 3 1) (mkdate 2024 2 28)
                   "000000" "000001" ["000000"; "000001"] _ _ _ _ _ _)); reflexivity.
Defined.

Lemma saves_snoc tr e : saves (tr ++ [e]) = saves tr ++ (if is_save e then [e] else []).
Proof. unfold saves. apply filter_snoc. Qed.

Section Saves.
Variable iw : bool.
Variable wk : worker.
Hypothesis Hciv : civil iw wk.
Variable mw : Z.

Lemma start_next_saves w p w' p' :
  start_next wk mw w p = (w', p') -> saves (trace w') = saves (trace w).
Proof.
  unfold start_next. destruct (queued p) as [|f q]; [now intros [= <- _]|].
  destruct (_ <? mw); [|now intros [= <- _]].
  destruct (before_request wk f w); intros [= <- _]; [reflexivity|].
  cbn [trace log]. rewrite saves_snoc. cbn. now rewrite app_nil_r.
Qed.

Lemma finish_saves k net w p w' p' :
  finish wk k net w p = (w', p') -> saves (trace w') = saves (trace w).
Proof.
  unfold finish. destruct (take_out k (running p)) as [[[f url] others]|];
    [|now intros [= <- _]].
  destruct (after_request wk url _ _) as [v w1] eqn:E. intros [= <- _].
  rewrite (civil_after _ _ Hciv _ _ _ _ _ E), trace_on_done, trace_log, saves_snoc.
  cbn. now rewrite app_nil_r.
Qed.

Lemma act_saves a w p w' p' :
  act wk mw a w p = (w', p') -> saves (trace w') = saves (trace w).
Proof.
  destruct a; cbn [act].
  - intros [= <- _]. cbn [signal_handler trace log]. rewrite saves_snoc. cbn.
    now rewrite app_nil_r.
  - now intros [= <- _].
  - apply start_next_saves.
  - apply finish_saves.
  - now intros [= <- _].
Qed.

Lemma absorb_saves sched : forall w p w' p' rest,
  absorb wk mw sched w p = (w', p', rest) -> saves (trace w') = saves (trace w).
Proof.
  induction sched as [|a sched IH]; intros w p w' p' rest; cbn [absorb].
  - now intros [= <- _ _].
  - destruct a; try (now intros [= <- _ _]).
    all: match goal with |- context [act wk mw ?a ?w0 ?p0] =>
           destruct (act wk mw a w0 p0) as [w1 p1] eqn:E end;
         intros H; rewrite (IH _ _ _ _ _ H); eapply act_saves; eauto.
Qed.

Lemma settle_saves w p w' p' :
  settle wk mw w p = (w', p') -> saves (trace w') = saves (trace w).
Proof.
  unfold settle. destruct (finished p); [|now intros [= <- _]].
  destruct (running p) as [|[f url] r].
  - destruct (start_next wk mw w p) as [w1 p1] eqn:E. intros H.
    rewrite <- (start_next_saves _ _ _ _ E).
    destruct (finished p1); [destruct (running p1) as [|[g ?] ?]|].
    + now injection H as <- _.
    + eapply finish_saves; eauto.
    + now injection H as <- _.
  - apply finish_saves.
Qed.

Lemma drain_saves n : forall w p w' p',
  drain wk mw n w p = (w', p') -> saves (trace w') = saves (trace w).
Proof.
  induction n as [|n IH]; intros w p w' p'; cbn [drain].
  - now intros [= <- _].
  - destruct (running p) as [|[f url] r].
    + destruct (queued p); [now intros [= <- _]|].
      destruct (start_next wk mw w p) as [w1 p1] eqn:E. intros H.
      rewrite (IH _ _ _ _ H). eapply start_next_saves; eauto.
    + destruct (finish wk (fid f) [] w p) as [w1 p1] eqn:E. intros H.
      rewrite (IH _ _ _ _ H). eapply finish_saves; eauto.
Qed.

Lemma join_workers_saves sched w p w' rest :
  join_workers wk mw sched w p = (w', rest) -> saves (trace w') = saves (trace w).
Proof.
  unfold join_workers.
  destruct (absorb wk mw sched w p) as [[w1 p1] sched1] eqn:E1.
  destruct (drain wk mw _ w1 p1) as [w2 p2] eqn:E2. intros [= <- _].
  rewrite (drain_saves _ _ _ _ _ E2). eapply absorb_saves; eauto.
Qed.
End Saves.

Lemma saves_submissions tasks :
  saves (map (fun t : string * string => EvSubmit (fst t) (snd t)) tasks) = [].
Proof. induction tasks; cbn; auto. Qed.

Lemma submit_all_saves k tasks w p w' p' :
  submit_all k tasks w p = (w', p') -> saves (trace w') = saves (trace w).
Proof.
  intros H. apply submit_all_trace in H as (-> & _). unfold saves.
  rewrite filter_app.
  fold (saves (map (fun t : string * string => EvSubmit (fst t) (snd t)) tasks)).
  now rewrite saves_submissions, app_nil_r.
Qed.

Lemma wm_collect_saves env s guard mw n : forall sched w p w' p' rest,
  WmScript.collect (WmScript.check_wm_link env s) guard mw n sched w p = (w', p', rest) ->
  saves (trace w') = saves (trace w).
Proof.
  induction n as [|n IH]; intros sched w p w' p' rest; cbn [WmScript.collect].
  - now intros [= <- _ _].
  - destruct (absorb _ mw sched w p) as [[w1 p1] sched1] eqn:E1.
    destruct (settle _ mw w1 p1) as [w2 p2] eqn:E2. intros H.
    assert (E : saves (trace w2) = saves (trace w)).
    { rewrite (settle_saves _ _ (check_wm_link_civil env s) _ _ _ _ _ E2).
      eapply absorb_saves; [apply check_wm_link_civil|exact E1]. }
    destruct (finished p2) as [|[f res] later]; [now injection H as <- _ _|].
    destruct (_ || _); [now injection H as <- _ _|].
    rewrite (IH _ _ _ _ _ _ H). destruct (keep_result_spec res w2) as (_ & -> & _). exact E.
Qed.

(** The loop over the dates saves a checkpoint at most once, as its last
    act, for the date it returns, which is not past the end date. *)
Lemma batches_saves env a guard s : forall fuel cur stop sched w r w' rest,
  WmScript.batches fuel env a guard s cur stop sched w = (r, w', rest) ->
  saves (trace w') = saves (trace w) \/
  exists w3 d,
    w' = WmScript.TimeoutGuard.save_progress guard d w3 /\ r = Ok d /\
    date_le d stop = true /\ saves (trace w3) = saves (trace w).
Proof.
  induction fuel as [|fuel IH]; intros cur stop sched w r w' rest; cbn [WmScript.batches].
  - intros [= _ <- _]. now left.
  - destruct (date_le cur stop && negb (should_stop w)) eqn:Etop;
      [|intros [= _ <- _]; now left].
    apply andb_true_iff in Etop as [Ele _].
    destruct (WmScript.TimeoutGuard.check_timeout guard w).
    { intros [= <- <- _]. right. exists w, cur. auto. }
    destruct (generate_time_numbers _ _) as [tns|e]; [|intros [= _ <- _]; now left].
    destruct (WmScript.workers a <=? 0); [intros [= _ <- _]; now left|].
    destruct (submit_all 0 _ w no_pool) as [w1 p1] eqn:E1.
    destruct (WmScript.collect _ guard _ _ sched w1 p1) as [[w2 p2] sched2] eqn:E2.
    destruct (join_workers _ _ sched2 w2 p2) as [w3 sched3] eqn:E3.
    assert (E : saves (trace w3) = saves (trace w)).
    { rewrite (join_workers_saves _ _ (check_wm_link_civil env s) _ _ _ _ _ _ E3).
      rewrite (wm_collect_saves _ _ _ _ _ _ _ _ _ _ _ E2).
      eapply submit_all_saves; eauto. }
    destruct (add_one_day cur) as [next|e]; [|intros [= _ <- _]; now left].
    intros H. apply IH in H as [H|(w4 & d & -> & -> & Hd & H)].
    + left. congruence.
    + right. exists w4, d. repeat split; auto. congruence.
Qed.

(** X24.  The checkpoint and the report.  A run of the resumable script
    writes the checkpoint at most once, and then as its last act before the
    result file; when it does, [main] reports the scan as partly done with
    the very date the checkpoint holds, with exit status 0, and the
    checkpoint file holds that date after the run (unless its path is that
    of the result file). *)
Theorem checkpoint_is_written_last env a sched clock disk :
  let r := WmScript.main env a sched (boot clock disk) in
  saves (trace (snd r)) = [] \/
  exists pre d,
    trace (snd r)
    = pre ++ [EvSave (strftime d); EvWrite (join newline (VALID_LINKS (snd r)))] /\
    saves pre = [] /\
    fst r = (Exit0, WmScript.PartlyDone (strftime d)) /\
    (WmScript.resume_file a <> OUTPUT_FILE ->
     read_file (WmScript.resume_file a) (files (snd r)) = Some (strftime d)).
Proof.
  cbn zeta. unfold WmScript.main, WmScript.process_date_range.
  set (guard := WmScript.TimeoutGuard.init _ _ _).
  assert (G0 : forall w1, saves (trace w1) = [] -> saves (trace (write_output w1)) = []).
  { intros w1 H. destruct (write_output_spec w1) as (-> & _). rewrite saves_snoc, H.
    reflexivity. }
  destruct (strptime (WmScript.start_date a)) as [start|e]; [|left; now apply G0].
  destruct (strptime (WmScript.end_date a)) as [stop|e] eqn:E2; [|left; now apply G0].
  destruct (WmScript.resume_point guard start) as [cur|e]; [|left; now apply G0].
  destruct (absorb _ _ sched (boot clock disk) no_pool) as [[w0 p0] sched0] eqn:Ea.
  pose proof (absorb_saves _ _ (check_wm_link_civil env WmScript.create_retry_session)
                _ _ _ _ _ _ _ Ea) as S0. cbn [boot trace] in S0.
  destruct (WmScript.batches _ env a guard _ cur stop sched0 w0) as [[r w1] rest] eqn:Eb.
  apply batches_saves in Eb as [H|(w3 & d & -> & -> & Hd & H)].
  - left. destruct (WmScript.verdict a r); cbn [snd]; apply G0; now rewrite H, S0.
  - right. unfold WmScript.verdict. cbn [bind]. rewrite E2. cbn [bind]. rewrite Hd.
    cbn [fst snd]. exists (trace w3), d. split; [|split; [now rewrite H, S0|split; [reflexivity|]]].
    + cbn [write_output WmScript.TimeoutGuard.save_progress log write_file trace VALID_LINKS].
      rewrite <- app_assoc. reflexivity.
    + intros Hne. cbn [write_output log files].
      rewrite read_file_other by assumption.
      unfold WmScript.TimeoutGuard.save_progress. cbn [files log].
      apply read_write_file.
Qed.

Lemma probed_length tr : List.length (probed tr) = probes tr.
Proof.
  unfold probed, probes. induction tr as [|e tr IH]; [reflexivity|].
  cbn [flat_map filter]. rewrite length_app, IH. destruct e; reflexivity.
Qed.

Lemma submitted_length tr : List.length (submitted tr) = submits tr.
Proof.
  unfold submitted, submits. induction tr as [|e tr IH]; [reflexivity|].
  cbn [flat_map filter]. rewrite length_app, IH. destruct e; reflexivity.
Qed.

(** When as many requests were sent as targets were submitted, none was
    given up. *)
Lemma neat_complete env C w :
  neat env C w no_pool -> probes (trace w) = submits (trace w) ->
  probed (trace w) = map (target_url env) (submitted (trace w)) /\
  Permutation (probed (trace w)) (answered (trace w)).
Proof.
  intros N Hc. destruct (neat_no_pool _ _ _ N) as [(sk & E) H]. split; [|exact H].
  assert (L : List.length sk = 0%nat).
  { apply (f_equal (@List.length string)) in E.
    rewrite length_map, length_app, probed_length, submitted_length in E. lia. }
  destruct sk; [|discriminate]. now rewrite E, app_nil_r.
Qed.

(** X25.  An undisturbed run requests every submitted target.  With no
    interrupt and no tick (and, in the resumable script, a budget of at
    least 300 seconds), the URLs requested are, up to order, exactly the
    URLs of the submitted targets, and every request has come to an end. *)
Theorem undisturbed_run_requests_every_target env clock disk sched :
  forallb is_calm sched = true ->
  (forall a,
     let tr := trace (snd (ModifiedScript.main env a sched (boot clock disk))) in
     Permutation (probed tr) (map (target_url env) (submitted tr)) /\
     Permutation (probed tr) (answered tr)) /\
  (forall a,
     300 <= WmScript.timeout a ->
     let tr := trace (snd (WmScript.main env a sched (boot clock disk))) in
     Permutation (probed tr) (map (target_url env) (submitted tr)) /\
     Permutation (probed tr) (answered tr)).
Proof.
  intros Hc. split.
  - intros a. cbn zeta.
    destruct (neat_complete _ _ _ (modified_main_neat env a sched clock disk)
                (modified_calm_probes env a sched clock disk Hc)) as [E H].
    split; [rewrite E; apply Permutation_refl|exact H].
  - intros a Ht. cbn zeta.
    destruct (wm_main_neat env a sched clock disk) as [C N].
    destruct (neat_complete _ _ _ N (wm_calm_probes env a sched clock disk Hc Ht)) as [E H].
    split; [rewrite E; apply Permutation_refl|exact H].
Qed.

Lemma undisturbed_run_requests_every_target_witness :
  Permutation
    (probed (trace (snd (ModifiedScript.main sample_env sample_simple_args
                           [Start; Finish 0 [Reply 200]] (boot 0 [])))))
    (answered (trace (snd (ModifiedScript.main sample_env sample_simple_args
                             [Start; Finish 0 [Reply 200]] (boot 0 []))))).
Proof.
  destruct (undisturbed_run_requests_every_target sample_env 0 []
              [Start; Finish 0 [Reply 200]]) as [H _]; [reflexivity|].
  apply (H sample_simple_args).
Defined.
